(** * gotemplate: template instantiation by source-to-source rewriting

    A shallow embedding of [main.go]: the Go library functions the program
    calls on strings, the directive scanner, the declaration classifier, the
    mapping builder, the rewriting loop and the emitter, followed by the
    properties of the specification that are settled on them. *)

From Stdlib Require Import String Ascii List NArith Arith Bool Lia Permutation.
From stdpp Require Import base option list gmap strings fin_maps.
Import ListNotations.
Local Open Scope string_scope.
Local Set Warnings "-register-all".
Local Arguments String.append !_ _ / : simpl nomatch.

(** ** Go strings

    A Go [string] is a sequence of bytes; [String.string] (a list of
    8-bit [ascii]) is used for it. *)

Module GoString.

Definition byte_of (c : ascii) : N := N_of_ascii c.
Definition of_bytes (l : list N) : string :=
  fold_right (fun b s => String (ascii_of_N b) s) EmptyString l.

Definition len (s : string) : nat := String.length s.

(** [s[n:]] and [s[:n]] for [n <= len s]. *)
Fixpoint slice_from (n : nat) (s : string) : string :=
  match n, s with
  | O, _ => s
  | S n', String _ s' => slice_from n' s'
  | S _, EmptyString => EmptyString
  end.

Fixpoint slice_to (n : nat) (s : string) : string :=
  match n, s with
  | O, _ => EmptyString
  | S n', String c s' => String c (slice_to n' s')
  | S _, EmptyString => EmptyString
  end.

(** [strings.HasPrefix]. *)
Fixpoint HasPrefix (s prefix : string) : bool :=
  match prefix, s with
  | EmptyString, _ => true
  | String p prefix', String c s' => Ascii.eqb c p && HasPrefix s' prefix'
  | String _ _, EmptyString => false
  end.

(** [strings.Index]: the byte offset of the first instance of [sep],
    [None] for Go's -1. *)
Fixpoint Index (s sep : string) : option nat :=
  if HasPrefix s sep then Some O
  else match s with
       | EmptyString => None
       | String _ s' => option_map S (Index s' sep)
       end.

(** [strings.Contains]. *)
Definition Contains (s substr : string) : bool :=
  match Index s substr with Some _ => true | None => false end.

(** [strings.Replace(s, old, new, 1)]. *)
Definition Replace1 (s old new : string) : string :=
  if String.eqb old new then s
  else match Index s old with
       | None => s
       | Some j => slice_to j s ++ new ++ slice_from (j + len old) s
       end.

(** [strings.Split(s, sep)] for a one-byte separator: the fields between
    the separators, one more than there are separators. *)
Fixpoint SplitByte (s : string) (sep : ascii) : list string :=
  match s with
  | EmptyString => [EmptyString]
  | String c s' =>
      if Ascii.eqb c sep then EmptyString :: SplitByte s' sep
      else match SplitByte s' sep with
           | fld :: rest => String c fld :: rest
           | [] => [String c EmptyString]
           end
  end.

End GoString.

(** ** UTF-8 decoding and the Unicode predicates ([unicode/utf8], [unicode]) *)

Module utf8.
Import GoString.

Definition RuneError : N := 65533.  (* U+FFFD *)

Definition cont (b : N) : bool := (128 <=? b)%N && (b <=? 191)%N.
Definition lo6 (b : N) : N := N.land b 63.

(** [utf8.DecodeRuneInString]: the first rune and its width in bytes;
    [(RuneError, 1)] on an invalid encoding, [(RuneError, 0)] on the empty
    string. *)
Definition DecodeRune (s : list N) : N * nat :=
  match s with
  | [] => (RuneError, 0)
  | b0 :: t =>
      if (b0 <? 128)%N then (b0, 1)
      else if (b0 <? 194)%N then (RuneError, 1)
      else if (b0 <? 224)%N then
        match t with
        | b1 :: _ =>
            if cont b1 then ((N.shiftl (N.land b0 31) 6 + lo6 b1)%N, 2)
            else (RuneError, 1)
        | _ => (RuneError, 1)
        end
      else if (b0 <? 240)%N then
        match t with
        | b1 :: b2 :: _ =>
            let lo := if (b0 =? 224)%N then 160%N else 128%N in
            let hi := if (b0 =? 237)%N then 159%N else 191%N in
            if (lo <=? b1)%N && (b1 <=? hi)%N && cont b2 then
              ((N.shiftl (N.land b0 15) 12 + N.shiftl (lo6 b1) 6 + lo6 b2)%N, 3)
            else (RuneError, 1)
        | _ => (RuneError, 1)
        end
      else if (b0 <? 245)%N then
        match t with
        | b1 :: b2 :: b3 :: _ =>
            let lo := if (b0 =? 240)%N then 144%N else 128%N in
            let hi := if (b0 =? 244)%N then 143%N else 191%N in
            if (lo <=? b1)%N && (b1 <=? hi)%N && cont b2 && cont b3 then
              ((N.shiftl (N.land b0 7) 18 + N.shiftl (lo6 b1) 12
                + N.shiftl (lo6 b2) 6 + lo6 b3)%N, 4)
            else (RuneError, 1)
        | _ => (RuneError, 1)
        end
      else (RuneError, 1)
  end.

Definition bytes (s : string) : list N := map byte_of (list_ascii_of_string s).

Definition DecodeRuneInString (s : string) : N * nat := DecodeRune (bytes s).

(** [utf8.EncodeRune] for the one rune the program can produce this way. *)
Definition EncodeRuneError : string := of_bytes [239; 191; 189]%N.

End utf8.

Module unicode.

Definition MaxLatin1 : N := 255.

(** [unicode.IsSpace]: the Latin-1 cases are spelled out in the library;
    above Latin-1 the [White_Space] range table decides. *)
Definition White_Space (r : N) : bool :=
  ((r =? 5760) || ((8192 <=? r) && (r <=? 8202)) || (r =? 8232)
   || (r =? 8233) || (r =? 8239) || (r =? 8287) || (r =? 12288))%N.

Definition IsSpace (r : N) : bool :=
  if (r <=? MaxLatin1)%N then
    ((r =? 9) || (r =? 10) || (r =? 11) || (r =? 12) || (r =? 13)
     || (r =? 32) || (r =? 133) || (r =? 160))%N
  else White_Space r.

(** The upper-case letters of Latin-1 (the [pLu] entries of the library's
    [properties] array): A-Z, U+00C0-U+00D6 and U+00D8-U+00DE. *)
Definition latin1_Lu (r : N) : bool :=
  (((65 <=? r) && (r <=? 90)) || ((192 <=? r) && (r <=? 214))
   || ((216 <=? r) && (r <=? 222)))%N.

(** [unicode.IsUpper]; [Upper] is the library's range table of the
    upper-case letters above Latin-1. *)
Definition IsUpper (Upper : N -> bool) (r : N) : bool :=
  if (r <=? MaxLatin1)%N then latin1_Lu r else Upper r.

End unicode.

Module strings.
Import GoString.

(** [strings.TrimLeftFunc(s, unicode.IsSpace)] on the bytes of [s]; [fuel]
    bounds the number of runes removed. *)
Fixpoint trimLeft (fuel : nat) (s : list N) : list N :=
  match fuel with
  | O => s
  | S fuel' =>
      match s with
      | [] => []
      | _ :: _ =>
          let '(r, wid) := utf8.DecodeRune s in
          if unicode.IsSpace r then trimLeft fuel' (drop wid s) else s
      end
  end.

Definition RuneStart (b : N) : bool := negb (N.land b 192 =? 128)%N.

(** [utf8.DecodeLastRuneInString], on the reversed bytes of the string:
    an ASCII last byte is the rune; otherwise the rune must start 2, 3 or
    4 bytes before the end and fill the bytes up to the end. *)
Definition DecodeLastRune (rs : list N) : N * nat :=
  match rs with
  | [] => (utf8.RuneError, 0)
  | l :: before =>
      if (l <? 128)%N then (l, 1)
      else
        let try (k : nat) :=
          let '(r, size) := utf8.DecodeRune (rev (take k rs)) in
          if Nat.eqb size k then (r, size) else (utf8.RuneError, 1) in
        match before with
        | b1 :: more =>
            if RuneStart b1 then try 2
            else match more with
                 | b2 :: more' =>
                     if RuneStart b2 then try 3
                     else match more' with
                          | b3 :: _ =>
                              if RuneStart b3 then try 4
                              else (utf8.RuneError, 1)
                          | [] => (utf8.RuneError, 1)
                          end
                 | [] => (utf8.RuneError, 1)
                 end
        | [] => (utf8.RuneError, 1)
        end
  end.

(** [strings.TrimRightFunc(s, unicode.IsSpace)], on the reversed bytes. *)
Fixpoint trimRight (fuel : nat) (rs : list N) : list N :=
  match fuel with
  | O => rs
  | S fuel' =>
      match rs with
      | [] => []
      | _ :: _ =>
          let '(r, wid) := DecodeLastRune rs in
          if unicode.IsSpace r then trimRight fuel' (drop wid rs) else rs
      end
  end.

(** [strings.TrimSpace]: leading and trailing white space removed. *)
Definition TrimSpace (s : string) : string :=
  let b := utf8.bytes s in
  let l := trimLeft (length b) b in
  of_bytes (rev (trimRight (length l) (rev l))).

(** [strings.ToLower] on a string of one byte, which is all the program
    passes to it: an ASCII letter is lower-cased; a byte from 0x80 on is
    not valid UTF-8 by itself and [strings.Map] writes U+FFFD for it. *)
Definition ToLower1 (c : ascii) : string :=
  let b := byte_of c in
  if (b <? 128)%N then
    String (if (65 <=? b)%N && (b <=? 90)%N then ascii_of_N (b + 32) else c)
           EmptyString
  else utf8.EncodeRuneError.

End strings.

Module ast.
(** [ast.IsExported]: the name starts with an upper-case letter. *)
Definition IsExported (Upper : N -> bool) (name : string) : bool :=
  unicode.IsUpper Upper (fst (utf8.DecodeRuneInString name)).
End ast.

(** ** The syntax tree ([go/ast], [go/token])

    Only what the program inspects is given a shape of its own: top-level
    declarations, their specifications and names. Expressions, types and
    statements are trees whose leaves are identifiers or other tokens. *)

Module token.
(** The keyword of a general declaration. The parser produces [IMPORT],
    [CONST], [TYPE] and [VAR]; the field's type allows every token. *)
Inductive Token : Type :=
| IMPORT | CONST | TYPE | VAR
| OtherToken (name : string).
End token.

Module Syntax.

Inductive Node : Type :=
| Ident (Name : string)
| Lit (text : string)
| Tree (kind : string) (children : list Node).

Inductive Spec : Type :=
| ImportSpec (Name : option string) (Path : string)
| ValueSpec (Names : list string) (Type_ : option Node) (Values : list Node)
| TypeSpec (Name : string) (Type_ : Node).

Inductive Decl : Type :=
| GenDecl (Tok : token.Token) (Specs : list Spec)
| FuncDecl (Recv : option (list Node)) (Name : string) (Type_ : Node)
           (Body : option Node)
| BadDecl.

(** [ast.File]; a comment group is the list of the texts of its
    comments. *)
Record File : Type := mkFile {
  Name : string;
  Decls : list Decl;
  Comments : list (list string)
}.

End Syntax.
Import Syntax.

(** ** Effects: the log, the process exit, the heap of files, the disk *)

Inductive Msg : Type :=
| FailedToOutput (path : string)
| FailedToWrite (path : string)
| FailedToParse (path : string)
| MultipleTemplateDefinitions (inputFile : string)
| NoTemplateDefinition (inputFile : string)
| WrongNumberOfArguments (supplied expected : nat)
| UnexpectedSpecsConstVar
| UnexpectedSpecsType
| UnknownType (tok : token.Token)
| UnknownDecl
| NoDefinitionForTemplateType (templateName : string)
| Written (path : string).

(** A [*ast.File] is an address in the heap. *)
Record World : Type := mkWorld {
  log : list Msg;
  heap : list File;
  disk : gmap string string
}.

Inductive outcome (A : Type) : Type :=
| Ret (a : A)
| Exit (status : nat)
| Panic.
Arguments Ret {A} a.
Arguments Exit {A} status.
Arguments Panic {A}.

Definition M (A : Type) : Type := World -> outcome A * World.

Definition ret {A} (a : A) : M A := fun w => (Ret a, w).

Definition bind {A B} (m : M A) (k : A -> M B) : M B :=
  fun w => match m w with
           | (Ret a, w') => k a w'
           | (Exit n, w') => (Exit n, w')
           | (Panic, w') => (Panic, w')
           end.

Notation "x <- m ;; k" := (bind m (fun x => k))
  (at level 100, m at next level, right associativity).
Notation "m ;;; k" := (bind m (fun _ => k))
  (at level 100, right associativity).

(** [logf]. *)
Definition logf (msg : Msg) : M unit :=
  fun w => (Ret tt, mkWorld (log w ++ [msg])%list (heap w) (disk w)).

(** [os.Exit(1)]. *)
Definition os_Exit {A} (status : nat) : M A := fun w => (Exit status, w).

(** [fatalf] (and [log.Fatal]): log, then exit with status 1. *)
Definition fatalf {A} (msg : Msg) : M A := logf msg ;;; os_Exit 1.

Definition panic {A} : M A := fun w => (Panic, w).

Definition alloc (f : File) : M nat :=
  fun w => (Ret (length (heap w)), mkWorld (log w) (heap w ++ [f])%list (disk w)).

Definition load (p : nat) : M File :=
  fun w => match heap w !! p with
           | Some f => (Ret f, w)
           | None => (Panic, w)
           end.

Definition store (p : nat) (f : File) : M unit :=
  fun w => match heap w !! p with
           | Some _ => (Ret tt, mkWorld (log w) (<[p := f]> (heap w)) (disk w))
           | None => (Panic, w)
           end.

(** ** The program *)

(** The caller's request. *)
Module templateInstantiation.
Record t : Type := mk {
  Package : string;
  Name : string;
  Args : list string;
  NewPackage : string;
  Dir : string
}.
End templateInstantiation.
Abbreviation ti_Name := templateInstantiation.Name.
Abbreviation ti_Args := templateInstantiation.Args.
Abbreviation ti_NewPackage := templateInstantiation.NewPackage.

(** [parseArgs]: split on commas, trim every field. *)
Definition parseArgs (s : string) : list string :=
  fold_left (fun args arg => (args ++ [strings.TrimSpace arg])%list)
            (GoString.SplitByte s ",") [].

(** [containsString]. *)
Fixpoint containsString (needle : string) (haystack : list string) : bool :=
  match haystack with
  | [] => false
  | item :: rest =>
      if String.eqb item needle then true else containsString needle rest
  end.

(** *** The annotation pattern

    [matchTemplateType] is the regular expression
    [^/[*/]\s+template\s+type\s+(\w+)\((.*?)\)\s*$]. In Go's syntax [\s] is
    one of tab, newline, form feed, carriage return and space, [\w] is an
    ASCII letter, digit or underscore, [.] is any character but newline and
    [$] is the end of the text. Every repetition in it is followed by a
    character outside its class, except the lazy [.*?], which has to stop at
    the one closing parenthesis that only white space follows. *)
Module Regexp.
Import GoString.

Definition isSpace (c : ascii) : bool :=
  let b := byte_of c in
  ((b =? 9) || (b =? 10) || (b =? 12) || (b =? 13) || (b =? 32))%N.

Definition isWord (c : ascii) : bool :=
  let b := byte_of c in
  (((48 <=? b) && (b <=? 57)) || ((65 <=? b) && (b <=? 90))
   || (b =? 95) || ((97 <=? b) && (b <=? 122)))%N.

Fixpoint skipWhile (p : ascii -> bool) (s : string) : string :=
  match s with
  | String c s' => if p c then skipWhile p s' else s
  | EmptyString => s
  end.

Fixpoint takeWhile (p : ascii -> bool) (s : string) : string :=
  match s with
  | String c s' => if p c then String c (takeWhile p s') else EmptyString
  | EmptyString => EmptyString
  end.

Definition lit (l : string) (s : string) : option string :=
  if HasPrefix s l then Some (slice_from (len l) s) else None.

(** [\s+] *)
Definition spaces1 (s : string) : option string :=
  match s with
  | String c s' => if isSpace c then Some (skipWhile isSpace s') else None
  | EmptyString => None
  end.

Definition reverse (s : string) : string :=
  string_of_list_ascii (rev (list_ascii_of_string s)).

Definition hasNewline (s : string) : bool :=
  existsb (fun c => (byte_of c =? 10)%N) (list_ascii_of_string s).

(** [(.*?)\)\s*$] *)
Definition lazyToClose (s : string) : option string :=
  match skipWhile isSpace (reverse s) with
  | String c r =>
      if (byte_of c =? 41)%N && negb (hasNewline r)
      then Some (reverse r) else None
  | EmptyString => None
  end.

(** [matchTemplateType.FindStringSubmatch]: the two groups of a match. *)
Definition FindStringSubmatch (text : string) : option (string * string) :=
  s ← lit "/" text;
  s ← match s with
      | String c s' =>
          if ((byte_of c =? 42) || (byte_of c =? 47))%N then Some s' else None
      | EmptyString => None
      end;
  s ← spaces1 s;
  s ← lit "template" s;
  s ← spaces1 s;
  s ← lit "type" s;
  s ← spaces1 s;
  let name := takeWhile isWord s in
  if Nat.eqb (len name) 0 then None
  else
    s ← lit "(" (slice_from (len name) s);
    params ← lazyToClose s;
    Some (name, params).

End Regexp.

(** *** The rewriter, which [main.go] calls and does not define *)

Module Rewrite.

(** Modelled from the spec: the exact-name substitution of section 4.4,
    on one identifier: [rewriteFile] is not in [main.go]. *)
Definition subst1 (pattern replacement name : string) : string :=
  if String.eqb name pattern then replacement else name.

(** Modelled from the spec: the substitution on every identifier of a
    tree, of a specification and of a declaration ([rewriteFile] is not
    in [main.go]). *)
Fixpoint rewriteNode (pattern replacement : string) (n : Node) : Node :=
  match n with
  | Ident name => Ident (subst1 pattern replacement name)
  | Lit text => Lit text
  | Tree kind children =>
      Tree kind (map (rewriteNode pattern replacement) children)
  end.

Definition rewriteSpec (pattern replacement : string) (sp : Spec) : Spec :=
  let rn := rewriteNode pattern replacement in
  let rs := subst1 pattern replacement in
  match sp with
  | ImportSpec name path => ImportSpec (option_map rs name) path
  | ValueSpec names ty values =>
      ValueSpec (map rs names) (option_map rn ty) (map rn values)
  | TypeSpec name ty => TypeSpec (rs name) (rn ty)
  end.

Definition rewriteDecl (pattern replacement : string) (d : Decl) : Decl :=
  let rn := rewriteNode pattern replacement in
  match d with
  | GenDecl tok specs => GenDecl tok (map (rewriteSpec pattern replacement) specs)
  | FuncDecl recv name ty body =>
      FuncDecl (option_map (map rn) recv) (subst1 pattern replacement name)
               (rn ty) (option_map rn body)
  | BadDecl => BadDecl
  end.

(** Modelled from the spec: [parseExpr], which is not in [main.go]. The
    names handed to it are used as bare identifiers (section 4.4), so the
    expression is the identifier of that name. *)
Definition parseExpr (s what : string) : string := s.

(** Modelled from the spec: the tree [rewriteFile] produces; the
    function is not in [main.go]. Section 4.4: every occurrence of the
    identifier with exactly the pattern's name, anywhere in the tree,
    becomes the replacement; nothing else changes and no declaration is
    added or removed. *)
Definition rewritten (pattern replacement : string) (f : File) : File :=
  mkFile (subst1 pattern replacement (Name f))
         (map (rewriteDecl pattern replacement) (Decls f))
         (Comments f).

(** Modelled from the spec: [rewriteFile], which is not in [main.go]. The
    tree is mutated where it is (section 3: a stage returns "a new or
    mutated tree") and its own address is returned. *)
Definition rewriteFile (pattern replacement : string) (p : nat) : M nat :=
  f <- load p ;;
  store p (rewritten pattern replacement f) ;;;
  ret p.

End Rewrite.

(** What [ioutil.WriteFile] does. It opens the file, creating it or
    truncating it, writes the text and closes the file. If the file cannot
    be opened nothing changes; otherwise the file holds what was written
    when an error stops the write (or comes from the close): the first [n]
    bytes of the text. *)
Inductive WriteResult : Type :=
| WriteOk
| OpenFailed
| WriteFailed (n : nat).

Section Program.

(** What the program takes from the Go library and from its environment:
    the table of upper-case letters above Latin-1, the parser (with the
    file it reads), the formatter, what a write to a file does, and the
    order in which [range] visits a map, which Go leaves unspecified. *)
Variable unicode_Upper : N -> bool.
Variable parser_ParseFile : string -> option File.
Variable format_Node : File -> option string.
Variable ioutil_WriteFile : string -> string -> WriteResult.
Variable range : gmap string string -> list (string * string).

(** [gofmtFile]. *)
Definition gofmtFile (f : File) : option string := format_Node f.

(** [outputFile]. *)
Definition outputFile (p : nat) (path : string) : M unit :=
  f <- load p ;;
  match gofmtFile f with
  | None => fatalf (FailedToOutput path)
  | Some source =>
      match ioutil_WriteFile path source with
      | WriteOk =>
          fun w => (Ret tt, mkWorld (log w) (heap w) (<[path := source]> (disk w)))
      | OpenFailed => fatalf (FailedToWrite path)
      | WriteFailed n =>
          (fun w => (Ret tt,
                     mkWorld (log w) (heap w)
                             (<[path := GoString.slice_to n source]> (disk w)))) ;;;
          fatalf (FailedToWrite path)
      end
  end.

(** [parseFile]. *)
Definition parseFile (path : string) : M nat :=
  match parser_ParseFile path with
  | None => fatalf (FailedToParse path)
  | Some f => alloc f
  end.

(** The loop over the comments: the state is [(templateName,
    templateArgs)]. *)
Definition scanComment (inputFile : string) (st : string * list string)
    (text : string) : M (string * list string) :=
  match Regexp.FindStringSubmatch text with
  | Some (name, params) =>
      (if negb (String.eqb (fst st) "")
       then fatalf (MultipleTemplateDefinitions inputFile) else ret tt) ;;;
      ret (name, parseArgs params)
  | None => ret st
  end.

Fixpoint foldM {A B} (body : A -> B -> M A) (l : list B) (a : A) : M A :=
  match l with
  | [] => ret a
  | x :: l' => a' <- body a x ;; foldM body l' a'
  end.

Definition scanComments (inputFile : string) (comments : list (list string))
    : M (string * list string) :=
  foldM (fun st cg => foldM (scanComment inputFile) cg st) comments ("", []).

(** The body of the loop over [f.Decls]: the state is [(namesToMangle,
    newDecls)]. *)
Definition classifyDecl (templateArgs : list string)
    (st : list string * list Decl) (d : Decl) : M (list string * list Decl) :=
  let '(namesToMangle, newDecls) := st in
  r <- match d with
       | GenDecl tok specs =>
           match tok with
           | token.IMPORT => ret (namesToMangle, false)
           | token.CONST | token.VAR =>
               (if negb (Nat.eqb (length specs) 1)
                then fatalf UnexpectedSpecsConstVar else ret tt) ;;;
               match specs with
               | ValueSpec names _ _ :: _ =>
                   ret ((namesToMangle ++ names)%list, false)
               | _ => panic
               end
           | token.TYPE =>
               (if negb (Nat.eqb (length specs) 1)
                then fatalf UnexpectedSpecsType else ret tt) ;;;
               match specs with
               | TypeSpec name _ :: _ =>
                   ret ((namesToMangle ++ [name])%list,
                        containsString name templateArgs)
               | _ => panic
               end
           | _ => logf (UnknownType tok) ;;; ret (namesToMangle, false)
           end
       | FuncDecl recv name _ _ =>
           match recv with
           | Some _ => ret (namesToMangle, false)
           | None =>
               ret ((namesToMangle ++ [name])%list,
                    containsString name templateArgs)
           end
       | BadDecl => fatalf UnknownDecl
       end ;;
  let '(namesToMangle', remove) := r in
  ret (namesToMangle',
       if negb remove then (newDecls ++ [d])%list else newDecls).

Definition classify (templateArgs : list string) (decls : list Decl)
    : M (list string * list Decl) :=
  foldM (classifyDecl templateArgs) decls ([], []).

(** [for i := range ti.Args { mappings[templateArgs[i]] = ti.Args[i] }];
    the two lists have the same length where the program gets here. *)
Definition mapArgs (templateArgs args : list string) : gmap string string :=
  fold_left (fun m kv => <[kv.1 := kv.2]> m) (zip templateArgs args) ∅.

(** The replacement [addMapping] computes for [name]. [None] is the
    run-time panic of [replacementName[:1]] on an empty string. *)
Definition replacementName (templateName tiName name : string)
    : option string :=
  let newIsPublic := ast.IsExported unicode_Upper tiName in
  let replacementName :=
    if negb (GoString.Contains name templateName)
    then name ++ tiName
    else GoString.Replace1 name templateName tiName in
  if negb newIsPublic && ast.IsExported unicode_Upper replacementName then
    match replacementName with
    | String c rest => Some (strings.ToLower1 c ++ rest)
    | EmptyString => None
    end
  else Some replacementName.

(** [addMapping]. *)
Definition addMapping (templateName tiName : string)
    (mappings : gmap string string) (name : string)
    : M (gmap string string) :=
  match replacementName templateName tiName name with
  | Some r => ret (<[name := r]> mappings)
  | None => panic
  end.

(** The body of the loop over [namesToMangle]: the state is [(found,
    mappings)]. *)
Definition mangle (templateName tiName : string)
    (st : bool * gmap string string) (name : string)
    : M (bool * gmap string string) :=
  let '(found, mappings) := st in
  if String.eqb name templateName then
    m <- addMapping templateName tiName mappings name ;; ret (true, m)
  else
    match mappings !! name with
    | None =>
        m <- addMapping templateName tiName mappings name ;; ret (found, m)
    | Some _ => ret (found, mappings)
    end.

(** The loop [for name, replacement := range mappings]. *)
Definition rewriteAll (mappings : gmap string string) (f : nat) : M nat :=
  foldM (fun newFile kv =>
           Rewrite.rewriteFile (Rewrite.parseExpr kv.1 "pattern")
                               (Rewrite.parseExpr kv.2 "replacement") newFile)
        (range mappings) f.

Definition outputFileName (tiName : string) : string :=
  "gotemplate_" ++ tiName ++ ".go".

(** [templateInstantiation.parse]. The messages of [debugf] are left
    out. *)
Definition parse (ti : templateInstantiation.t) (inputFile : string)
    : M unit :=
  f <- parseFile inputFile ;;
  file <- load f ;;
  st <- scanComments inputFile (Comments file) ;;
  let '(templateName, templateArgs) := st in
  (if String.eqb templateName ""
   then fatalf (NoTemplateDefinition inputFile) else ret tt) ;;;
  (if negb (Nat.eqb (length templateArgs) (length (ti_Args ti)))
   then fatalf (WrongNumberOfArguments (length (ti_Args ti))
                                       (length templateArgs))
   else ret tt) ;;;
  cl <- classify templateArgs (Decls file) ;;
  let '(namesToMangle, newDecls) := cl in
  store f (mkFile (Name file) newDecls (Comments file)) ;;;
  fm <- foldM (mangle templateName (ti_Name ti)) namesToMangle
              (false, mapArgs templateArgs (ti_Args ti)) ;;
  let '(found, mappings) := fm in
  (if negb found
   then fatalf (NoDefinitionForTemplateType templateName) else ret tt) ;;;
  newFile <- rewriteAll mappings f ;;
  file' <- load f ;;
  store f (mkFile (ti_NewPackage ti) (Decls file') (Comments file')) ;;;
  outputFile newFile (outputFileName (ti_Name ti)) ;;;
  logf (Written (outputFileName (ti_Name ti))).

End Program.

(** * Properties *)

(** ** The directive scanner: [parseArgs] *)

Section ParseArgs.

Lemma fold_left_snoc {A B} (f : B -> A) (l : list B) (acc : list A) :
  fold_left (fun args arg => (args ++ [f arg])%list) l acc
  = (acc ++ map f l)%list.
Proof.
  revert acc; induction l as [|x l IH]; intros acc; simpl.
  - now rewrite app_nil_r.
  - rewrite IH, <- app_assoc. reflexivity.
Qed.

Lemma parseArgs_fields (s : string) :
  parseArgs s = map strings.TrimSpace (GoString.SplitByte s ",").
Proof. unfold parseArgs. now rewrite fold_left_snoc. Qed.

Lemma SplitByte_nonempty (s : string) (sep : ascii) :
  GoString.SplitByte s sep <> [].
Proof.
  destruct s as [|c s]; simpl; [discriminate|].
  destruct (Ascii.eqb c sep); [discriminate|].
  destruct (GoString.SplitByte s sep); discriminate.
Qed.

(** White space of ASCII: tab, newline, vertical tab, form feed, carriage
    return, space. *)
Definition asciiSpace (c : ascii) : bool :=
  let b := GoString.byte_of c in
  ((b =? 9) || (b =? 10) || (b =? 11) || (b =? 12) || (b =? 13) || (b =? 32))%N.

Fixpoint blank (s : string) : bool :=
  match s with
  | EmptyString => true
  | String c s' => asciiSpace c && blank s'
  end.

Lemma asciiSpace_cases (c : ascii) :
  asciiSpace c = true ->
  (GoString.byte_of c < 128)%N /\ unicode.IsSpace (GoString.byte_of c) = true
  /\ Ascii.eqb c "," = false.
Proof.
  unfold asciiSpace. intros H.
  assert (Hc : c = ascii_of_N (GoString.byte_of c))
    by (unfold GoString.byte_of; now rewrite ascii_N_embedding).
  repeat (apply orb_true_iff in H; destruct H as [H|H]);
    apply N.eqb_eq in H; rewrite Hc, H; vm_compute; auto.
Qed.

Lemma SplitByte_blank (s : string) :
  blank s = true -> GoString.SplitByte s "," = [s].
Proof.
  induction s as [|c s IH]; simpl; [reflexivity|].
  intros H. apply andb_true_iff in H as [Hc Hs].
  destruct (asciiSpace_cases c Hc) as (_ & _ & ->).
  now rewrite (IH Hs).
Qed.

Lemma trimLeft_blank (s : string) (fuel : nat) :
  blank s = true -> String.length s <= fuel ->
  strings.trimLeft fuel (utf8.bytes s) = [].
Proof.
  revert fuel; induction s as [|c s IH]; intros fuel H Hf.
  - destruct fuel; reflexivity.
  - simpl in H. apply andb_true_iff in H as [Hc Hs].
    destruct (asciiSpace_cases c Hc) as (Hlt & Hsp & _).
    destruct fuel as [|fuel]; [simpl in Hf; lia|].
    change (utf8.bytes (String c s)) with (GoString.byte_of c :: utf8.bytes s).
    cbn [strings.trimLeft utf8.DecodeRune].
    apply N.ltb_lt in Hlt. rewrite Hlt, Hsp. simpl drop.
    apply IH; [assumption | simpl in Hf; lia].
Qed.

Lemma TrimSpace_blank (s : string) :
  blank s = true -> strings.TrimSpace s = "".
Proof.
  intros H. unfold strings.TrimSpace.
  rewrite trimLeft_blank; [reflexivity | assumption |].
  unfold utf8.bytes. rewrite length_map.
  clear H. induction s; simpl; lia.
Qed.

End ParseArgs.

(** C6, as amended. An empty or blank parameter list gives one formal
    parameter, the empty string, and not the empty sequence: [strings.Split]
    returns one field for a text without a comma. In general the parameters
    are the comma-separated fields, each trimmed, and there is always at
    least one. *)
Theorem C6_parseArgs_blank (params : string) (Hblank : blank params = true) :
  parseArgs params = [""]
  /\ (forall s, parseArgs s = map strings.TrimSpace (GoString.SplitByte s ",")
                /\ 1 <= length (parseArgs s)).
Proof.
  split.
  - rewrite parseArgs_fields, SplitByte_blank by assumption. simpl.
    now rewrite TrimSpace_blank.
  - intros s. split; [apply parseArgs_fields|].
    rewrite parseArgs_fields, length_map.
    pose proof (SplitByte_nonempty s ",").
    destruct (GoString.SplitByte s ","); [contradiction | simpl; lia].
Qed.

Lemma C6_parseArgs_blank_witness :
  blank "  " = true /\ parseArgs "  " = [""].
Proof.
  split; [reflexivity | apply (C6_parseArgs_blank "  "); reflexivity].
Defined.

(** C6 as stated fails: the annotation [// template type Set()] has an empty
    parameter list and one formal parameter is extracted from it. *)
Lemma C6_counterexample :
  ~ (forall text name params,
        Regexp.FindStringSubmatch text = Some (name, params) ->
        blank params = true ->
        parseArgs params = []).
Proof.
  intros H.
  specialize (H "// template type Set()" "Set" "" eq_refl eq_refl).
  vm_compute in H. discriminate H.
Qed.

(** ** Go's string functions *)

Section GoStringFacts.
Import GoString.

Lemma HasPrefix_app (s sep : string) :
  HasPrefix s sep = true <-> exists post, s = sep ++ post.
Proof.
  revert s; induction sep as [|p sep IH]; intros s.
  - split; [intros _; exists s; now destruct s | intros _; now destruct s].
  - destruct s as [|c s]; simpl.
    + split; [discriminate | intros [post H]; discriminate H].
    + rewrite andb_true_iff, IH, Ascii.eqb_eq. split.
      * intros [-> [post ->]]. now exists post.
      * intros [post H]. injection H as -> ->. split; [reflexivity | now exists post].
Qed.

Lemma slice_to_from (j : nat) (s : string) :
  slice_to j s ++ slice_from j s = s.
Proof.
  revert s; induction j as [|j IH]; intros [|c s]; simpl; try reflexivity.
  now rewrite IH.
Qed.

Lemma slice_from_add (j k : nat) (s : string) :
  slice_from (j + k) s = slice_from k (slice_from j s).
Proof.
  revert s; induction j as [|j IH]; intros s; simpl; [reflexivity|].
  destruct s as [|c s]; [now destruct k | apply IH].
Qed.

Lemma slice_from_app_len (a b : string) : slice_from (len a) (a ++ b) = b.
Proof. induction a; simpl; auto. Qed.

Lemma slice_to_app_len (a b : string) : slice_to (len a) (a ++ b) = a.
Proof. induction a; simpl; [now destruct b | now f_equal]. Qed.

(** [sep] occurs in [s] at byte offset [j]. *)
Definition occurs_at (sep s : string) (j : nat) : Prop :=
  j <= len s /\ exists post, slice_from j s = sep ++ post.

(** [Index] finds the first occurrence. *)
Lemma Index_Some (s sep : string) (j : nat) :
  Index s sep = Some j ->
  occurs_at sep s j /\ forall i, i < j -> ~ occurs_at sep s i.
Proof.
  revert j; induction s as [|c s IH]; intros j; cbn [Index].
  - destruct (HasPrefix "" sep) eqn:E; [|discriminate].
    intros [= <-]. apply HasPrefix_app in E. split; [|lia].
    split; [simpl; lia | exact E].
  - destruct (HasPrefix (String c s) sep) eqn:E.
    + intros [= <-]. apply HasPrefix_app in E. split; [|lia].
      split; [simpl; lia | exact E].
    + destruct (Index s sep) as [j'|] eqn:Ei; [|discriminate].
      simpl. intros [= <-]. destruct (IH j' eq_refl) as [[Hle Hocc] Hfirst].
      split; [split; [simpl; lia | exact Hocc]|].
      intros [|i] Hi [_ Hi'].
      * cbn [slice_from] in Hi'. apply HasPrefix_app in Hi'. congruence.
      * apply (Hfirst i); [lia|]. split; [lia | exact Hi'].
Qed.

Lemma Index_None (s sep : string) :
  Index s sep = None -> forall i, ~ occurs_at sep s i.
Proof.
  induction s as [|c s IH]; cbn [Index].
  - destruct (HasPrefix "" sep) eqn:E; [discriminate|].
    intros _ i [Hi Hocc]. simpl in Hi. assert (i = 0) as -> by lia.
    cbn [slice_from] in Hocc. apply HasPrefix_app in Hocc. congruence.
  - destruct (HasPrefix (String c s) sep) eqn:E; [discriminate|].
    destruct (Index s sep) eqn:Ei; [discriminate|]. intros _ [|i] [Hi Hocc].
    + cbn [slice_from] in Hocc. apply HasPrefix_app in Hocc. congruence.
    + apply (IH eq_refl i). split; [simpl in Hi; lia | exact Hocc].
Qed.

(** [name] is [pre ++ sep ++ post] and that is the first place where [sep]
    occurs in it. *)
Definition first_occurrence (sep name pre post : string) : Prop :=
  name = pre ++ sep ++ post
  /\ forall i, i < len pre -> ~ occurs_at sep name i.

Lemma append_assoc (a b c : string) : (a ++ b) ++ c = a ++ b ++ c.
Proof. induction a; simpl; congruence. Qed.

Lemma len_app (a b : string) : len (a ++ b) = len a + len b.
Proof. unfold len. induction a; simpl; auto. Qed.

Lemma occurs_at_split (sep pre post : string) :
  occurs_at sep (pre ++ sep ++ post) (len pre).
Proof.
  split; [rewrite len_app; lia|]. exists post. apply slice_from_app_len.
Qed.

Lemma Index_first_occurrence (sep name pre post : string) :
  first_occurrence sep name pre post -> Index name sep = Some (len pre).
Proof.
  intros [-> Hfirst]. destruct (Index _ sep) as [j|] eqn:E.
  - destruct (Index_Some _ _ _ E) as [Hocc Hmin]. f_equal.
    destruct (Nat.lt_trichotomy j (len pre)) as [Hlt|[Heq|Hgt]]; [|exact Heq|].
    + exfalso. exact (Hfirst j Hlt Hocc).
    + exfalso. exact (Hmin (len pre) Hgt (occurs_at_split sep pre post)).
  - exfalso. exact (Index_None _ _ E _ (occurs_at_split sep pre post)).
Qed.

Lemma Contains_iff (s sep : string) :
  Contains s sep = true <-> exists pre post, s = pre ++ sep ++ post.
Proof.
  unfold Contains. split.
  - destruct (Index s sep) as [j|] eqn:E; [|discriminate]. intros _.
    destruct (Index_Some _ _ _ E) as [[_ [post Hp]] _].
    exists (slice_to j s), post. now rewrite <- Hp, slice_to_from.
  - intros (pre & post & ->). destruct (Index _ sep) eqn:E; [reflexivity|].
    exfalso. exact (Index_None _ _ E _ (occurs_at_split sep pre post)).
Qed.

(** [strings.Replace(name, old, new, 1)] replaces the first occurrence. *)
Lemma Replace1_first (old new name pre post : string) :
  first_occurrence old name pre post ->
  Replace1 name old new = pre ++ new ++ post.
Proof.
  intros Hf. pose proof (Index_first_occurrence _ _ _ _ Hf) as Hi.
  destruct Hf as [-> _]. unfold Replace1.
  destruct (String.eqb old new) eqn:E; [apply String.eqb_eq in E; now subst|].
  rewrite Hi, slice_to_app_len, slice_from_add, slice_from_app_len.
  now rewrite slice_from_app_len.
Qed.

(** A text that contains [sep] has a first occurrence of it. *)
Lemma Contains_first (s sep : string) :
  Contains s sep = true -> exists pre post, first_occurrence sep s pre post.
Proof.
  unfold Contains. destruct (Index s sep) as [j|] eqn:E; [|discriminate].
  intros _. destruct (Index_Some _ _ _ E) as [[Hle [post Hp]] Hmin].
  exists (slice_to j s), post. split.
  - now rewrite <- Hp, slice_to_from.
  - intros i Hi. apply Hmin.
    assert (len (slice_to j s) <= j); [|lia].
    clear. revert s; induction j as [|j IHj]; intros [|c s]; simpl; auto with arith.
    all: try (specialize (IHj s); unfold len in *; simpl; lia).
Qed.

End GoStringFacts.

(** ** The mapping builder: [addMapping] *)

Section AddMapping.
Import GoString.

Variable Upper : N -> bool.

Lemma bytes_cons (c : ascii) (s : string) :
  utf8.bytes (String c s) = byte_of c :: utf8.bytes s.
Proof. reflexivity. Qed.

Lemma byte_of_ascii_of_N (b : N) : (b < 256)%N -> byte_of (ascii_of_N b) = b.
Proof. intros H. unfold byte_of. now apply N_ascii_embedding. Qed.

(** On a name that starts with an ASCII byte, [ast.IsExported] tests that
    byte for [A]-[Z]. *)
Lemma IsExported_ascii (c : ascii) (rest : string) :
  (byte_of c < 128)%N ->
  ast.IsExported Upper (String c rest)
  = ((65 <=? byte_of c) && (byte_of c <=? 90))%N.
Proof.
  intros H. unfold ast.IsExported, utf8.DecodeRuneInString.
  rewrite bytes_cons. cbn [utf8.DecodeRune].
  apply N.ltb_lt in H as H'. rewrite H'. cbn [fst].
  unfold unicode.IsUpper, unicode.MaxLatin1, unicode.latin1_Lu.
  replace (byte_of c <=? 255)%N with true by (symmetry; apply N.leb_le; lia).
  replace (192 <=? byte_of c)%N with false by (symmetry; apply N.leb_gt; lia).
  replace (216 <=? byte_of c)%N with false by (symmetry; apply N.leb_gt; lia).
  cbn [andb orb]. now rewrite !orb_false_r.
Qed.

(** After [strings.ToLower] on its first byte a name is never exported,
    U+FFFD not being an upper-case letter. *)
Lemma IsExported_ToLower1 (c : ascii) (rest : string) :
  Upper utf8.RuneError = false ->
  ast.IsExported Upper (strings.ToLower1 c ++ rest) = false.
Proof.
  intros HU. unfold strings.ToLower1.
  destruct (byte_of c <? 128)%N eqn:E.
  - apply N.ltb_lt in E. cbn [String.append].
    destruct ((65 <=? byte_of c) && (byte_of c <=? 90))%N eqn:Eu.
    + apply andb_true_iff in Eu as [H1 H2].
      apply N.leb_le in H1, H2.
      rewrite IsExported_ascii; rewrite byte_of_ascii_of_N; try lia.
      apply andb_false_iff. right. apply N.leb_gt. lia.
    + rewrite IsExported_ascii by assumption. exact Eu.
  - unfold ast.IsExported, utf8.DecodeRuneInString.
    change (utf8.bytes (utf8.EncodeRuneError ++ rest))
      with (239 :: 191 :: 189 :: utf8.bytes rest)%N.
    change (fst (utf8.DecodeRune (239 :: 191 :: 189 :: utf8.bytes rest)%N))
      with utf8.RuneError.
    unfold unicode.IsUpper. exact HU.
Qed.

(** The name [addMapping] computes before it looks at the visibility. *)
Definition mangled (templateName tiName name : string) : string :=
  if negb (Contains name templateName) then name ++ tiName
  else Replace1 name templateName tiName.

(** The first two rules of the mapping builder: the first occurrence of
    the template's name is replaced, and a name without it gets the
    instantiation's name as a suffix. *)
Lemma mangled_rules (templateName tiName name : string) :
  (Contains name templateName = false ->
   mangled templateName tiName name = name ++ tiName)
  /\ (forall pre post,
         first_occurrence templateName name pre post ->
         mangled templateName tiName name = pre ++ tiName ++ post).
Proof.
  unfold mangled. split.
  - now intros ->.
  - intros pre post Hf.
    assert (Hc : Contains name templateName = true).
    { apply Contains_iff. destruct Hf as [-> _]. now exists pre, post. }
    rewrite Hc. cbn [negb]. now apply Replace1_first.
Qed.

(** The third rule, where the replacement starts with an ASCII byte: for
    an instantiation that is not exported, a leading [A]-[Z] is
    lower-cased and nothing else changes. *)
Lemma replacementName_ascii (templateName tiName name : string)
    (c : ascii) (rest : string) :
  mangled templateName tiName name = String c rest ->
  (byte_of c < 128)%N ->
  replacementName Upper templateName tiName name
  = Some (if negb (ast.IsExported Upper tiName)
             && (65 <=? byte_of c)%N && (byte_of c <=? 90)%N
          then String (ascii_of_N (byte_of c + 32)) rest
          else String c rest).
Proof.
  intros Hm Hc. unfold replacementName. fold (mangled templateName tiName name).
  rewrite Hm, IsExported_ascii by assumption.
  destruct (negb (ast.IsExported Upper tiName)); cbn [andb]; [|reflexivity].
  destruct ((65 <=? byte_of c) && (byte_of c <=? 90))%N eqn:Eu; [|reflexivity].
  unfold strings.ToLower1. apply N.ltb_lt in Hc. now rewrite Hc, Eu.
Qed.

(** Whatever the name, the replacement of an instantiation that is not
    exported is not exported. *)
Lemma replacementName_not_exported (templateName tiName name : string) :
  Upper utf8.RuneError = false ->
  ast.IsExported Upper tiName = false ->
  exists r, replacementName Upper templateName tiName name = Some r
            /\ ast.IsExported Upper r = false.
Proof.
  intros HU Hti. unfold replacementName. fold (mangled templateName tiName name).
  rewrite Hti. cbn [negb andb].
  destruct (ast.IsExported Upper (mangled templateName tiName name)) eqn:E.
  - destruct (mangled templateName tiName name) as [|c rest].
    + exfalso. unfold ast.IsExported in E. cbn in E.
      unfold unicode.IsUpper in E. cbn in E. congruence.
    + eexists; split; [reflexivity|]. now apply IsExported_ToLower1.
  - eexists; split; [reflexivity | exact E].
Qed.

End AddMapping.

(** ** The loop over the names to mangle *)

Section MangleLoop.

Variable Upper : N -> bool.
Variables templateName tiName : string.

Hypothesis Upper_RuneError : Upper utf8.RuneError = false.
Hypothesis target_not_exported : ast.IsExported Upper tiName = false.

Definition mentions (names : list string) (k : string) : bool :=
  existsb (String.eqb k) names.

Lemma addMapping_ret (m : gmap string string) (name : string) (w : World) :
  exists r, replacementName Upper templateName tiName name = Some r
            /\ ast.IsExported Upper r = false
            /\ addMapping Upper templateName tiName m name w
               = (Ret (<[name := r]> m), w).
Proof.
  destruct (replacementName_not_exported Upper templateName tiName name
              Upper_RuneError target_not_exported) as (r & Hr & Hx).
  exists r. repeat split; try assumption.
  unfold addMapping. now rewrite Hr.
Qed.

(** The loop neither exits nor panics, leaves the world alone, and ends
    with this table: a name of the list that is the template's name, or
    that had no entry, has its computed replacement; every other key is
    as it was. *)
Lemma mangle_loop (names : list string) :
  forall (found : bool) (m : gmap string string) (w : World),
  exists m',
    foldM (mangle Upper templateName tiName) names (found, m) w
    = (Ret (found || mentions names templateName, m'), w)
    /\ forall k,
        m' !! k
        = if mentions names k
             && (String.eqb k templateName || bool_decide (m !! k = None))
          then replacementName Upper templateName tiName k
          else m !! k.
Proof.
  induction names as [|name rest IH]; intros found m w.
  - exists m. split; [cbn; now rewrite orb_false_r | reflexivity].
  - cbn [foldM]. unfold bind at 1. unfold mangle at 1.
    destruct (addMapping_ret m name w) as (r & Hr & _ & Ha).
    assert (Hstep : forall f' m1,
               (forall k, m1 !! k
                  = if String.eqb k name
                       && (String.eqb k templateName || bool_decide (m !! k = None))
                    then replacementName Upper templateName tiName k
                    else m !! k) ->
               f' || mentions rest templateName
               = found || mentions (name :: rest) templateName ->
               exists m',
                 foldM (mangle Upper templateName tiName) rest (f', m1) w
                 = (Ret (found || mentions (name :: rest) templateName, m'), w)
                 /\ forall k,
                     m' !! k
                     = if mentions (name :: rest) k
                          && (String.eqb k templateName
                              || bool_decide (m !! k = None))
                       then replacementName Upper templateName tiName k
                       else m !! k).
    { intros f' m1 Hm1 Hf. destruct (IH f' m1 w) as (m' & Hrun & Hlk).
      exists m'. split; [now rewrite Hrun, Hf|].
      intros k. rewrite Hlk, Hm1. cbn [mentions existsb].
      destruct (String.eqb k name) eqn:Ekn; cbn [orb andb]; [|reflexivity].
      destruct (String.eqb k templateName) eqn:Ekt; cbn [orb andb].
      - now destruct (mentions rest k && true).
      - destruct (bool_decide (m !! k = None)) eqn:Ed; cbn [orb andb].
        + now destruct (mentions rest k && _).
        + rewrite ?Ed, ?andb_false_r. reflexivity. }
    destruct (String.eqb name templateName) eqn:Ent.
    + unfold bind. rewrite Ha. unfold ret.
      apply Hstep.
      * intros k. rewrite lookup_insert. case_decide as Hk.
        -- subst k. rewrite String.eqb_refl, Ent. cbn. exact (eq_sym Hr).
        -- replace (String.eqb k name) with false; [reflexivity|].
           symmetry. apply String.eqb_neq. congruence.
      * cbn [mentions existsb]. apply String.eqb_eq in Ent. subst name.
        rewrite String.eqb_refl. cbn. now rewrite orb_true_r.
    + assert (Hf : found || mentions rest templateName
                   = found || mentions (name :: rest) templateName).
      { cbn [mentions existsb]. rewrite (String.eqb_sym templateName name), Ent.
        reflexivity. }
      destruct (m !! name) as [old|] eqn:El.
      * unfold ret. apply Hstep; [|exact Hf].
        intros k. destruct (String.eqb k name) eqn:Ekn; [|reflexivity].
        apply String.eqb_eq in Ekn. subst k. rewrite Ent, El. reflexivity.
      * unfold bind. rewrite Ha. unfold ret. apply Hstep; [|exact Hf].
        intros k. rewrite lookup_insert. case_decide as Hk.
        -- subst k. rewrite String.eqb_refl, Ent, El. cbn. exact (eq_sym Hr).
        -- replace (String.eqb k name) with false; [reflexivity|].
           symmetry. apply String.eqb_neq. congruence.
Qed.

End MangleLoop.

(** The identifier [Élan], in UTF-8: a Go identifier may start with any
    Unicode letter. *)
Definition Elan : string := GoString.of_bytes [195; 137; 108; 97; 110]%N.

(** C1, at an input where the code leaves it. The claim has the first
    character of the replacement lower-cased when the instantiation is not
    exported. For the top-level name [Élan], template [Set] and instantiation
    [intSet] the replacement [ÉlanintSet] starts with an upper-case letter;
    [replacementName[:1]] is its first byte and not its first character, so
    the result is U+FFFD followed by the second byte of [É], and not
    [élanintSet]. (The first two rules of the claim, and the third one on
    names that start with an ASCII letter, are [mangled_rules] and
    [replacementName_ascii].) *)
Theorem C1_first_byte_not_first_character :
  forall Upper : N -> bool,
    ast.IsExported Upper "intSet" = false
    /\ ast.IsExported Upper (mangled "Set" "intSet" Elan) = true
    /\ replacementName Upper "Set" "intSet" Elan
       = Some (GoString.of_bytes [239; 191; 189; 137]%N ++ "lanintSet")
    /\ replacementName Upper "Set" "intSet" Elan
       <> Some (GoString.of_bytes [195; 169]%N ++ "lanintSet").
Proof.
  intros Upper. repeat split; try reflexivity.
  vm_compute. discriminate.
Qed.

(** ** Visibility *)

(** The names a top-level declaration declares. *)
Definition declNames (d : Decl) : list string :=
  match d with
  | GenDecl _ specs =>
      flat_map (fun sp => match sp with
                          | ImportSpec _ _ => []
                          | ValueSpec names _ _ => names
                          | TypeSpec name _ => [name]
                          end) specs
  | FuncDecl _ name _ _ => [name]
  | BadDecl => []
  end.

(** The name starts with one of [a]-[z]. *)
Definition startsLower (s : string) : bool :=
  match s with
  | String c _ =>
      ((97 <=? GoString.byte_of c) && (GoString.byte_of c <=? 122))%N
  | EmptyString => false
  end.

(** The template of the specification's scenario, with a method: stub type
    [A], type [Set], function [NewSet] and method [Add]. *)
Definition setTemplate : File :=
  mkFile "set"
    [GenDecl token.IMPORT [ImportSpec None "fmt"];
     GenDecl token.TYPE [TypeSpec "A" (Ident "int")];
     GenDecl token.TYPE [TypeSpec "Set" (Tree "map" [Ident "A"; Ident "bool"])];
     FuncDecl None "NewSet" (Tree "func" [Tree "star" [Ident "Set"]])
              (Some (Tree "block" [Ident "make"; Ident "Set"]));
     FuncDecl (Some [Ident "s"; Tree "star" [Ident "Set"]]) "Add"
              (Tree "func" [Ident "a"; Ident "A"])
              (Some (Tree "block" [Ident "s"; Ident "a"]))]
    [["// Package set is a template"]; ["// template type Set(A)"]].

Definition emptyWorld : World := mkWorld [] [] ∅.

(** C4 as stated fails: instantiated as [intSet], the template above keeps
    its method [Add] under that name in the output. *)
Lemma C4_counterexample :
  ~ (forall Upper parser_ParseFile format_Node ioutil_WriteFile range ti inputFile
            w w' p out name,
        startsLower (ti_Name ti) = true ->
        parse Upper parser_ParseFile format_Node ioutil_WriteFile range ti inputFile w
        = (Ret tt, w') ->
        heap w' !! p = Some out ->
        In name (flat_map declNames (Decls out)) ->
        ast.IsExported Upper name = false).
Proof.
  intros H.
  assert (E : ast.IsExported (fun _ => false) "Add" = false).
  { eapply (H (fun _ => false) (fun _ => Some setTemplate)
              (fun _ => Some "") (fun _ _ => WriteOk) map_to_list
              (templateInstantiation.mk "set" "intSet" ["int"] "mypkg" ".")
              "set.go" emptyWorld _ 0 _ "Add").
    - reflexivity.
    - vm_compute. reflexivity.
    - reflexivity.
    - vm_compute. tauto. }
  discriminate E.
Qed.

(** ** The declaration classifier *)

Section Classifier.
Local Open Scope list_scope.

Variable templateArgs : list string.

(** The names a declaration registers as rename candidates. *)
Definition candidates (d : Decl) : list string :=
  match d with
  | GenDecl (token.CONST | token.VAR) (ValueSpec names _ _ :: _) => names
  | GenDecl token.TYPE (TypeSpec name _ :: _) => [name]
  | FuncDecl None name _ _ => [name]
  | _ => []
  end.

(** The declaration is removed: a type, or a function without receiver,
    named after a formal parameter. *)
Definition stub (d : Decl) : bool :=
  match d with
  | GenDecl token.TYPE (TypeSpec name _ :: _) => containsString name templateArgs
  | FuncDecl None name _ _ => containsString name templateArgs
  | _ => false
  end.

(** What the loop body does with a declaration, apart from the lists: go
    on (with the messages it logs), exit with a message, or panic, which
    is how a failed type assertion on [d.Specs[0]] ends. *)
Definition verdict (d : Decl) : outcome unit * list Msg :=
  match d with
  | GenDecl token.IMPORT _ => (Ret tt, [])
  | GenDecl (token.CONST | token.VAR) specs =>
      match specs with
      | [ValueSpec _ _ _] => (Ret tt, [])
      | [_] => (Panic, [])
      | _ => (Exit 1, [UnexpectedSpecsConstVar])
      end
  | GenDecl token.TYPE specs =>
      match specs with
      | [TypeSpec _ _] => (Ret tt, [])
      | [_] => (Panic, [])
      | _ => (Exit 1, [UnexpectedSpecsType])
      end
  | GenDecl (token.OtherToken name) _ =>
      (Ret tt, [UnknownType (token.OtherToken name)])
  | FuncDecl _ _ _ _ => (Ret tt, [])
  | BadDecl => (Exit 1, [UnknownDecl])
  end.

Definition addLog (msgs : list Msg) (w : World) : World :=
  mkWorld (log w ++ msgs) (heap w) (disk w).

Lemma addLog_nil (w : World) : addLog [] w = w.
Proof. destruct w. unfold addLog. cbn. now rewrite app_nil_r. Qed.

Lemma addLog_app (a b : list Msg) (w : World) :
  addLog b (addLog a w) = addLog (a ++ b) w.
Proof. unfold addLog. cbn. now rewrite app_assoc. Qed.

Definition keep (newDecls : list Decl) (d : Decl) : list Decl :=
  if stub d then newDecls else newDecls ++ [d].

Lemma classifyDecl_verdict (names : list string) (newDecls : list Decl)
    (d : Decl) (w : World) :
  classifyDecl templateArgs (names, newDecls) d w
  = (match fst (verdict d) with
     | Ret _ => Ret (names ++ candidates d, keep newDecls d)
     | Exit n => Exit n
     | Panic => Panic
     end, addLog (snd (verdict d)) w).
Proof.
  unfold classifyDecl, keep.
  destruct d as [tok specs | recv name ty body |].
  - destruct tok; cbn.
    + unfold bind, ret. now rewrite addLog_nil, app_nil_r.
    + destruct specs as [|[] [|]]; cbn; unfold bind, ret, fatalf, logf, os_Exit, panic;
        cbn; rewrite ?addLog_nil, ?app_nil_r; reflexivity.
    + destruct specs as [|[] [|]]; cbn; unfold bind, ret, fatalf, logf, os_Exit, panic;
        cbn; rewrite ?addLog_nil, ?app_nil_r; try reflexivity.
      now destruct (containsString Name0 templateArgs).
    + destruct specs as [|[] [|]]; cbn; unfold bind, ret, fatalf, logf, os_Exit, panic;
        cbn; rewrite ?addLog_nil, ?app_nil_r; reflexivity.
    + unfold bind, ret, logf. cbn. now rewrite app_nil_r.
  - destruct recv; cbn; unfold bind, ret; cbn; rewrite addLog_nil, ?app_nil_r;
      [reflexivity|]. now destruct (containsString name templateArgs).
  - reflexivity.
Qed.

Definition supported (d : Decl) : bool :=
  match fst (verdict d) with Ret _ => true | _ => false end.

(** The classifier on declarations it supports: it returns, with the
    candidates of every declaration in order and every declaration that
    is not a stub. *)
Lemma classify_supported (decls : list Decl) :
  forall names newDecls w,
    forallb supported decls = true ->
    foldM (classifyDecl templateArgs) decls (names, newDecls) w
    = (Ret (names ++ flat_map candidates decls,
            newDecls ++ List.filter (fun d => negb (stub d)) decls),
       addLog (flat_map (fun d => snd (verdict d)) decls) w).
Proof.
  induction decls as [|d decls IH]; intros names newDecls w Hs.
  - cbn. unfold ret. now rewrite addLog_nil, !app_nil_r.
  - cbn in Hs. apply andb_true_iff in Hs as [Hd Hs].
    cbn [foldM]. unfold bind. rewrite classifyDecl_verdict.
    unfold supported in Hd. destruct (fst (verdict d)); try discriminate.
    rewrite IH by assumption. cbn [flat_map List.filter].
    rewrite addLog_app, <- !app_assoc. unfold keep.
    destruct (stub d); cbn [negb]; rewrite <- ?app_assoc; reflexivity.
Qed.

(** The classifier at the first declaration it does not support: it ends
    there, as the declaration's verdict says. *)
Lemma classify_unsupported (before after : list Decl) (d : Decl) :
  forall names newDecls w,
    forallb supported before = true ->
    supported d = false ->
    foldM (classifyDecl templateArgs) (before ++ d :: after) (names, newDecls) w
    = (match fst (verdict d) with
       | Exit n => Exit n
       | _ => Panic
       end,
       addLog (flat_map (fun d => snd (verdict d)) before ++ snd (verdict d)) w).
Proof.
  induction before as [|b before IH]; intros names newDecls w Hs Hd.
  - cbn [app foldM flat_map]. unfold bind. rewrite classifyDecl_verdict.
    unfold supported in Hd. now destruct (fst (verdict d)).
  - cbn in Hs. apply andb_true_iff in Hs as [Hb Hs].
    cbn [app foldM]. unfold bind. rewrite classifyDecl_verdict.
    unfold supported in Hb. destruct (fst (verdict b)); try discriminate.
    rewrite IH by assumption. cbn [flat_map].
    now rewrite addLog_app, <- app_assoc.
Qed.

(** A list is all supported, or has a first declaration that is not. *)
Lemma supported_split (decls : list Decl) :
  forallb supported decls = true
  \/ exists before d after,
      decls = before ++ d :: after
      /\ forallb supported before = true /\ supported d = false.
Proof.
  induction decls as [|d decls IH]; [now left|].
  destruct (supported d) eqn:Ed.
  - destruct IH as [IH | (before & x & after & -> & Hb & Hx)].
    + left. cbn. now rewrite Ed.
    + right. exists (d :: before), x, after. cbn. now rewrite Ed.
  - right. now exists [], d, decls.
Qed.

(** If the classifier returns, every declaration was supported. *)
Lemma classify_Ret (decls : list Decl) (names : list string)
    (newDecls : list Decl) (w w' : World) :
  classify templateArgs decls w = (Ret (names, newDecls), w') ->
  forallb supported decls = true
  /\ names = flat_map candidates decls
  /\ newDecls = List.filter (fun d => negb (stub d)) decls.
Proof.
  unfold classify. intros H.
  destruct (supported_split decls) as [Hs | (before & d & after & -> & Hb & Hd)].
  - rewrite classify_supported in H by assumption.
    injection H as <- <- _. auto.
  - rewrite classify_unsupported in H by assumption.
    destruct (fst (verdict d)); discriminate H.
Qed.

End Classifier.

Section ClassifierClaims.
Local Open Scope list_scope.

Lemma containsString_In (needle : string) (haystack : list string) :
  containsString needle haystack = true <-> In needle haystack.
Proof.
  induction haystack as [|item rest IH]; cbn; [split; [discriminate | tauto]|].
  destruct (String.eqb item needle) eqn:E.
  - apply String.eqb_eq in E. tauto.
  - apply String.eqb_neq in E. rewrite IH. split; [tauto | intros [H|H]; [contradiction | exact H]].
Qed.

(** A type declaration that declares [p]. *)
Definition isTypeDeclOf (p : string) (d : Decl) : bool :=
  match d with
  | GenDecl token.TYPE specs =>
      existsb (fun sp => match sp with
                         | TypeSpec name _ => String.eqb name p
                         | _ => false
                         end) specs
  | _ => false
  end.

(** A function declaration without receiver that declares [p]. *)
Definition isPlainFuncOf (p : string) (d : Decl) : bool :=
  match d with
  | FuncDecl None name _ _ => String.eqb name p
  | _ => false
  end.


(** The shapes the classifier ends the run on. *)
Definition fatalShape (d : Decl) : bool :=
  match d with
  | BadDecl => true
  | GenDecl (token.CONST | token.VAR | token.TYPE) specs =>
      negb (Nat.eqb (length specs) 1)
  | _ => false
  end.

Definition fatalMsg (d : Decl) : Msg :=
  match d with
  | GenDecl token.TYPE _ => UnexpectedSpecsType
  | GenDecl _ _ => UnexpectedSpecsConstVar
  | _ => UnknownDecl
  end.

Lemma fatalShape_verdict (d : Decl) :
  fatalShape d = true -> verdict d = (Exit 1, [fatalMsg d]).
Proof.
  destruct d as [[] [|[] [|sp' specs]] | |]; cbn; try discriminate; reflexivity.
Qed.



End ClassifierClaims.

(** C7, as amended. A top-level declaration that is neither a general nor a
    function declaration, and a constant, variable or type declaration that
    does not have exactly one specification, end the run: the classifier
    logs the error and exits with status 1, so that no declaration list is
    produced. *)
Theorem C7_unsupported_shape_is_fatal
    (templateArgs : list string) (before after : list Decl) (d : Decl)
    (w : World)
    (Hbefore : forallb supported before = true)
    (Hd : fatalShape d = true) :
  classify templateArgs (before ++ d :: after) w
  = (Exit 1,
     addLog (flat_map (fun d => snd (verdict d)) before ++ [fatalMsg d])%list w).
Proof.
  unfold classify. pose proof (fatalShape_verdict d Hd) as Hv.
  rewrite classify_unsupported; [now rewrite Hv | assumption |].
  unfold supported. now rewrite Hv.
Qed.

Lemma C7_unsupported_shape_is_fatal_witness :
  classify ["A"]
    ([GenDecl token.IMPORT [ImportSpec None "fmt"]]
       ++ GenDecl token.VAR [ValueSpec ["x"] None []; ValueSpec ["y"] None []]
       :: [BadDecl]) emptyWorld
  = (Exit 1, addLog [UnexpectedSpecsConstVar] emptyWorld).
Proof.
  apply (C7_unsupported_shape_is_fatal ["A"]
           [GenDecl token.IMPORT [ImportSpec None "fmt"]] [BadDecl]
           (GenDecl token.VAR [ValueSpec ["x"] None []; ValueSpec ["y"] None []])
           emptyWorld); reflexivity.
Defined.

(** The declaration is a general declaration whose keyword is none of
    [import], [const], [type] and [var]. *)
Definition unrecognizedToken (d : Decl) : bool :=
  match d with
  | GenDecl (token.OtherToken _) _ => true
  | _ => false
  end.

(** C7 as stated fails: on a general declaration with an unrecognized
    keyword the classifier logs "Unknown type" and goes on, and the
    declaration is in the list it returns. *)
Lemma C7_counterexample :
  ~ (forall templateArgs d w r w',
        unrecognizedToken d = true ->
        classify templateArgs [d] w <> (Ret r, w')).
Proof.
  intros H.
  apply (H ["A"] (GenDecl (token.OtherToken "func") []) emptyWorld
           ([], [GenDecl (token.OtherToken "func") []])
           (addLog [UnknownType (token.OtherToken "func")] emptyWorld));
    reflexivity.
Qed.



(** ** The run as a whole *)

Section Run.
Local Open Scope list_scope.

(** A loop whose body leaves the world alone when it returns leaves the
    world alone when it returns. *)
Lemma foldM_world {A B} (body : A -> B -> M A) :
  (forall a x w r w', body a x w = (Ret r, w') -> w' = w) ->
  forall l a w r w', foldM body l a w = (Ret r, w') -> w' = w.
Proof.
  intros Hbody l. induction l as [|x l IH]; intros a w r w' H.
  - cbn in H. unfold ret in H. congruence.
  - cbn [foldM] in H. unfold bind in H.
    destruct (body a x w) as [[a1|n|] w1] eqn:E; try discriminate H.
    apply Hbody in E. subst w1. now apply IH in H.
Qed.

Lemma scanComment_world (inputFile : string) (st : string * list string)
    (text : string) (w : World) r w' :
  scanComment inputFile st text w = (Ret r, w') -> w' = w.
Proof.
  unfold scanComment.
  destruct (Regexp.FindStringSubmatch text) as [[name params]|].
  - unfold bind, fatalf, logf, os_Exit, ret.
    destruct (negb (String.eqb st.1 "")); [discriminate | congruence].
  - unfold ret. congruence.
Qed.

Lemma scanComments_world (inputFile : string) (comments : list (list string))
    (w : World) r w' :
  scanComments inputFile comments w = (Ret r, w') -> w' = w.
Proof.
  unfold scanComments. apply foldM_world.
  intros a cg. apply foldM_world. intros. eapply scanComment_world; eassumption.
Qed.

(** The world after [parseFile] has put the parsed file in the heap. *)
Definition parsed (file : File) (w : World) : World :=
  mkWorld (log w) (heap w ++ [file]) (disk w).

Lemma load_parsed (file : File) (w : World) :
  load (length (heap w)) (parsed file w) = (Ret file, parsed file w).
Proof.
  unfold load, parsed. cbn [heap].
  now rewrite list_lookup_middle.
Qed.

End Run.

(** C3. When the annotation gives a number of formal parameters that is not
    the number of arguments of the request, the run logs the
    wrong-number-of-arguments error and exits with status 1. At that point
    the heap holds the parsed file as the parser gave it, whatever its
    declarations are, and the disk is as it was: nothing has been
    classified, mapped, rewritten or written. *)
Theorem C3_wrong_number_of_arguments
    (Upper : N -> bool) (parser_ParseFile : string -> option File)
    (format_Node : File -> option string) (ioutil_WriteFile : string -> string -> WriteResult)
    (range : gmap string string -> list (string * string))
    (ti : templateInstantiation.t) (inputFile : string) (w w1 : World)
    (file : File) (templateName : string) (templateArgs : list string)
    (Hparse : parser_ParseFile inputFile = Some file)
    (Hscan : scanComments inputFile (Comments file) (parsed file w)
             = (Ret (templateName, templateArgs), w1))
    (Hname : templateName <> "")
    (Hlen : length templateArgs <> length (ti_Args ti)) :
  parse Upper parser_ParseFile format_Node ioutil_WriteFile range ti inputFile w
  = (Exit 1,
     mkWorld (log w ++ [WrongNumberOfArguments (length (ti_Args ti))
                                               (length templateArgs)])%list
             (heap w ++ [file])%list (disk w)).
Proof.
  pose proof (scanComments_world _ _ _ _ _ Hscan) as ->.
  unfold parse, parseFile. rewrite Hparse.
  unfold bind at 1. unfold alloc at 1. fold (parsed file w).
  unfold bind at 1. rewrite load_parsed.
  unfold bind at 1. rewrite Hscan.
  apply String.eqb_neq in Hname. rewrite Hname.
  apply Nat.eqb_neq in Hlen. rewrite Hlen. reflexivity.
Qed.

Lemma C3_wrong_number_of_arguments_witness :
  parse (fun _ => false) (fun _ => Some setTemplate) (fun _ => Some "")
        (fun _ _ => WriteOk) map_to_list
        (templateInstantiation.mk "set" "IntSet" ["int"; "string"] "mypkg" ".")
        "set.go" emptyWorld
  = (Exit 1, mkWorld [WrongNumberOfArguments 2 1] [setTemplate] ∅).
Proof.
  eapply (C3_wrong_number_of_arguments (fun _ => false)
            (fun _ => Some setTemplate) (fun _ => Some "") (fun _ _ => WriteOk)
            map_to_list
            (templateInstantiation.mk "set" "IntSet" ["int"; "string"] "mypkg" ".")
            "set.go" emptyWorld _ setTemplate "Set" ["A"]).
  - reflexivity.
  - vm_compute. reflexivity.
  - discriminate.
  - cbn. lia.
Defined.

(** ** The rewriting loop *)

Section Rewriting.
Local Open Scope list_scope.
Import Rewrite.

(** Induction on trees, with the hypothesis on every child. *)
Lemma Node_induction (P : Node -> Prop) :
  (forall name, P (Ident name)) ->
  (forall text, P (Lit text)) ->
  (forall kind children, Forall P children -> P (Tree kind children)) ->
  forall n, P n.
Proof.
  intros HI HL HT. fix rec 1. intros [name | text | kind children].
  - apply HI.
  - apply HL.
  - apply HT. induction children as [|c children IH]; constructor.
    + apply rec.
    + exact IH.
Qed.

(** The identifiers of a tree, of a declaration and of a file's
    declarations, in the order of the source. *)
Fixpoint identsOfNode (n : Node) : list string :=
  match n with
  | Ident name => [name]
  | Lit _ => []
  | Tree _ children => flat_map identsOfNode children
  end.

Definition identsOfOption (n : option Node) : list string :=
  match n with Some n => identsOfNode n | None => [] end.

Definition identsOfSpec (sp : Spec) : list string :=
  match sp with
  | ImportSpec name _ => match name with Some n => [n] | None => [] end
  | ValueSpec names ty values =>
      names ++ identsOfOption ty ++ flat_map identsOfNode values
  | TypeSpec name ty => name :: identsOfNode ty
  end.

Definition identsOfDecl (d : Decl) : list string :=
  match d with
  | GenDecl _ specs => flat_map identsOfSpec specs
  | FuncDecl recv name ty body =>
      match recv with Some r => flat_map identsOfNode r | None => [] end
      ++ name :: identsOfNode ty ++ identsOfOption body
  | BadDecl => []
  end.

Definition identsOf (f : File) : list string :=
  flat_map identsOfDecl (Decls f).

Lemma flat_map_map {A B C} (f : B -> list C) (g : A -> B) (l : list A) :
  flat_map f (map g l) = flat_map (fun x => f (g x)) l.
Proof. induction l; cbn; congruence. Qed.

Lemma map_flat_map {A B C} (f : A -> list B) (g : B -> C) (l : list A) :
  map g (flat_map f l) = flat_map (fun x => map g (f x)) l.
Proof. induction l; cbn; [reflexivity|]. now rewrite map_app, IHl. Qed.

Lemma flat_map_ext_Forall {A B} (f g : A -> list B) (l : list A) :
  Forall (fun x => f x = g x) l -> flat_map f l = flat_map g l.
Proof. induction 1; cbn; congruence. Qed.

Variables pattern replacement : string.

Lemma identsOfNode_rewrite (n : Node) :
  identsOfNode (rewriteNode pattern replacement n)
  = map (subst1 pattern replacement) (identsOfNode n).
Proof.
  induction n as [name | text | kind children IH] using Node_induction;
    try reflexivity.
  cbn [rewriteNode identsOfNode].
  rewrite flat_map_map, map_flat_map. now apply flat_map_ext_Forall.
Qed.

Lemma identsOfNodes_rewrite (l : list Node) :
  flat_map identsOfNode (map (rewriteNode pattern replacement) l)
  = map (subst1 pattern replacement) (flat_map identsOfNode l).
Proof.
  rewrite flat_map_map, map_flat_map. apply flat_map_ext_Forall.
  apply Forall_forall. intros n _. apply identsOfNode_rewrite.
Qed.

Lemma identsOfOption_rewrite (n : option Node) :
  identsOfOption (option_map (rewriteNode pattern replacement) n)
  = map (subst1 pattern replacement) (identsOfOption n).
Proof. destruct n; cbn; [apply identsOfNode_rewrite | reflexivity]. Qed.

Lemma identsOfSpec_rewrite (sp : Spec) :
  identsOfSpec (rewriteSpec pattern replacement sp)
  = map (subst1 pattern replacement) (identsOfSpec sp).
Proof.
  destruct sp as [[name|] path | names ty values | name ty]; cbn;
    try reflexivity.
  - now rewrite !map_app, identsOfOption_rewrite, identsOfNodes_rewrite.
  - now rewrite identsOfNode_rewrite.
Qed.

Lemma identsOfDecl_rewrite (d : Decl) :
  identsOfDecl (rewriteDecl pattern replacement d)
  = map (subst1 pattern replacement) (identsOfDecl d).
Proof.
  destruct d as [tok specs | recv name ty body |]; cbn; try reflexivity.
  - rewrite flat_map_map, map_flat_map. apply flat_map_ext_Forall.
    apply Forall_forall. intros sp _. apply identsOfSpec_rewrite.
  - rewrite map_app. cbn [map]. rewrite map_app.
    rewrite identsOfNode_rewrite, identsOfOption_rewrite.
    destruct recv as [r|]; cbn; [now rewrite identsOfNodes_rewrite | reflexivity].
Qed.

(** One rewrite is the substitution on every identifier of the file. *)
Lemma identsOf_rewritten (f : File) :
  identsOf (rewritten pattern replacement f)
  = map (subst1 pattern replacement) (identsOf f).
Proof.
  unfold identsOf, rewritten. cbn [Decls].
  rewrite flat_map_map, map_flat_map. apply flat_map_ext_Forall.
  apply Forall_forall. intros d _. apply identsOfDecl_rewrite.
Qed.

Lemma rewriteFile_run (p : nat) (w : World) (f : File) :
  heap w !! p = Some f ->
  rewriteFile pattern replacement p w
  = (Ret p, mkWorld (log w) (<[p := rewritten pattern replacement f]> (heap w))
                    (disk w)).
Proof.
  intros H. unfold rewriteFile, bind, load, store, ret. now rewrite H, H.
Qed.

Lemma rewriteFile_Ret (p q : nat) (w w' : World) :
  rewriteFile pattern replacement p w = (Ret q, w') ->
  q = p /\ exists f, heap w !! p = Some f.
Proof.
  unfold rewriteFile, bind, load, store, ret.
  destruct (heap w !! p) as [f|] eqn:E; [|discriminate].
  rewrite E. intros [= <- _]. eauto.
Qed.

End Rewriting.

Section RewriteAll.
Local Open Scope list_scope.
Import Rewrite.

(** The rewrites of the loop, one after the other, on the tree and on one
    identifier. *)
Definition rewrittenAll (l : list (string * string)) (f : File) : File :=
  fold_left (fun f kv => rewritten kv.1 kv.2 f) l f.

Definition substAll (l : list (string * string)) (name : string) : string :=
  fold_left (fun name kv => subst1 kv.1 kv.2 name) l name.

Lemma identsOf_rewrittenAll (l : list (string * string)) (f : File) :
  identsOf (rewrittenAll l f) = map (substAll l) (identsOf f).
Proof.
  revert f; induction l as [|kv l IH]; intros f; cbn.
  - now rewrite map_id.
  - unfold rewrittenAll in IH. rewrite IH, identsOf_rewritten, map_map.
    reflexivity.
Qed.

Lemma rewrittenAll_shape (l : list (string * string)) (f : File) :
  Comments (rewrittenAll l f) = Comments f
  /\ length (Decls (rewrittenAll l f)) = length (Decls f).
Proof.
  revert f; induction l as [|kv l IH]; intros f; [split; reflexivity|].
  change (rewrittenAll (kv :: l) f) with (rewrittenAll l (rewritten kv.1 kv.2 f)).
  destruct (IH (rewritten kv.1 kv.2 f)) as [-> ->]. cbn.
  now rewrite length_map.
Qed.

(** A name that is no pattern of the loop goes through it unchanged. *)
Lemma substAll_other (l : list (string * string)) (name : string) :
  (forall k v, In (k, v) l -> k <> name) -> substAll l name = name.
Proof.
  induction l as [|[k v] l IH]; intros H; [reflexivity|]. cbn.
  unfold subst1 at 2. cbn.
  destruct (String.eqb name k) eqn:E.
  - apply String.eqb_eq in E. exfalso. apply (H k v); [now left | auto].
  - apply IH. intros k' v' Hin. apply (H k' v'). now right.
Qed.

Variable range : gmap string string -> list (string * string).

(** The loop returns the address it was given, and the file at that
    address has gone through the rewrites in the order of [range]. *)
Lemma rewriteAll_run (mappings : gmap string string) (p : nat) (w : World)
    (f : File) :
  heap w !! p = Some f ->
  rewriteAll range mappings p w
  = (Ret p, mkWorld (log w) (<[p := rewrittenAll (range mappings) f]> (heap w))
                    (disk w)).
Proof.
  unfold rewriteAll. generalize (range mappings) as l.
  intros l; revert w f; induction l as [|kv l IH]; intros w f H.
  - cbn. unfold ret. rewrite list_insert_id by assumption. now destruct w.
  - cbn [foldM]. unfold bind. unfold parseExpr.
    rewrite (rewriteFile_run _ _ p w f H).
    erewrite IH.
    + cbn [log heap disk]. rewrite list_insert_insert_eq. reflexivity.
    + cbn [heap]. apply list_lookup_insert_eq. now apply lookup_lt_Some in H.
Qed.

End RewriteAll.

(** C9. The rewriting loop, in whatever order it visits the entries of the
    mapping, leaves every occurrence of an identifier [X] that is not a key
    of the mapping where it is and as it is (also when [X] is a part of a
    key, or a key a part of [X]): the loop returns, and the identifiers of
    the output tree are as many as those of the input tree, with [X] at
    every place where the input tree has [X]. *)
Theorem C9_other_identifiers_unchanged
    (range : gmap string string -> list (string * string))
    (mappings : gmap string string) (p : nat) (w : World) (f : File)
    (X : string)
    (Hfile : heap w !! p = Some f)
    (Hrange : forall k v, In (k, v) (range mappings) -> mappings !! k = Some v)
    (HX : mappings !! X = None) :
  exists out w',
    rewriteAll range mappings p w = (Ret p, w')
    /\ heap w' !! p = Some out
    /\ length (identsOf out) = length (identsOf f)
    /\ forall i : nat, identsOf f !! i = Some X -> identsOf out !! i = Some X.
Proof.
  exists (rewrittenAll (range mappings) f). eexists.
  split; [apply rewriteAll_run; exact Hfile|].
  split; [cbn [heap]; apply list_lookup_insert_eq; now apply lookup_lt_Some in Hfile|].
  rewrite identsOf_rewrittenAll. split; [apply length_map|].
  intros i Hi. rewrite list_lookup_fmap, Hi. cbn. f_equal.
  apply substAll_other. intros k v Hin ->.
  apply Hrange in Hin. congruence.
Qed.

(** The specification's example: mapping [Set] to [IntSet] does not alter
    [SetUp]. *)
Definition setUpFile : File :=
  mkFile "set"
    [GenDecl token.TYPE [TypeSpec "Set" (Tree "map" [Ident "int"; Ident "bool"])];
     FuncDecl None "SetUp" (Tree "func" [Tree "star" [Ident "Set"]])
              (Some (Tree "block" [Ident "SetUp"; Ident "Set"]))]
    [].

Lemma C9_other_identifiers_unchanged_witness :
  exists out w',
    rewriteAll (fun _ => [("Set", "IntSet")]) {["Set" := "IntSet"]} 0
               (mkWorld [] [setUpFile] ∅)
    = (Ret 0, w')
    /\ heap w' !! 0 = Some out
    /\ length (identsOf out) = length (identsOf setUpFile)
    /\ forall i : nat,
        identsOf setUpFile !! i = Some "SetUp" -> identsOf out !! i = Some "SetUp".
Proof.
  apply (C9_other_identifiers_unchanged (fun _ => [("Set", "IntSet")])
           {["Set" := "IntSet"]} 0 (mkWorld [] [setUpFile] ∅) setUpFile "SetUp").
  - reflexivity.
  - intros k v [[= <- <-]|[]]. reflexivity.
  - reflexivity.
Defined.

(** ** A run that succeeds *)

Section Success.
Local Open Scope list_scope.

Variable Upper : N -> bool.
Variable parser_ParseFile : string -> option File.
Variable format_Node : File -> option string.
Variable ioutil_WriteFile : string -> string -> WriteResult.
Variable range : gmap string string -> list (string * string).

Lemma mangle_world (templateName tiName : string)
    (st : bool * gmap string string) (name : string) (w : World) r w' :
  mangle Upper templateName tiName st name w = (Ret r, w') -> w' = w.
Proof.
  unfold mangle, addMapping, bind, ret, panic. destruct st as [found m].
  destruct (String.eqb name templateName);
    [|destruct (m !! name)];
    try destruct (replacementName Upper templateName tiName name);
    congruence.
Qed.

(** A computation that does not look at the world and leaves it as it
    is. *)
Definition pureM {A} (m : M A) : Prop := exists o, forall w, m w = (o, w).

Lemma foldM_pure {A B} (body : A -> B -> M A) :
  (forall a x, pureM (body a x)) -> forall l a, pureM (foldM body l a).
Proof.
  intros Hbody l. induction l as [|x l IH]; intros a.
  - exists (Ret a). reflexivity.
  - cbn [foldM]. destruct (Hbody a x) as [[a'|n|] Ho].
    + destruct (IH a') as [o' Ho']. exists o'. intros w.
      unfold bind. now rewrite Ho, Ho'.
    + exists (Exit n). intros w. unfold bind. now rewrite Ho.
    + exists Panic. intros w. unfold bind. now rewrite Ho.
Qed.

Lemma mangle_pure (templateName tiName : string)
    (st : bool * gmap string string) (name : string) :
  pureM (mangle Upper templateName tiName st name).
Proof.
  unfold mangle, addMapping, bind, ret, panic. destruct st as [found m].
  destruct (String.eqb name templateName);
    [|destruct (m !! name)];
    try destruct (replacementName Upper templateName tiName name);
    eexists; intros w; reflexivity.
Qed.

Lemma insert_last {A} (l : list A) (x y : A) :
  <[length l := y]> (l ++ [x]) = l ++ [y].
Proof. induction l as [|a l IH]; cbn; [reflexivity | f_equal; exact IH]. Qed.

(** The tree a run formats, given the parsed file, the declarations the
    classifier kept and the mapping. *)
Definition outputTree (ti : templateInstantiation.t) (file : File)
    (newDecls : list Decl) (mappings : gmap string string) : File :=
  let rewritten :=
    rewrittenAll (range mappings)
                 (mkFile (Name file) newDecls (Comments file)) in
  mkFile (ti_NewPackage ti) (Decls rewritten) (Comments rewritten).

(** What a run that returns has gone through. *)
Lemma parse_Ret (ti : templateInstantiation.t) (inputFile : string)
    (w w' : World) :
  parse Upper parser_ParseFile format_Node ioutil_WriteFile range ti inputFile w
  = (Ret tt, w') ->
  exists file templateName templateArgs mappings source,
    let w1 := parsed file w in
    let newDecls :=
      List.filter (fun d => negb (stub templateArgs d)) (Decls file) in
    let out := outputTree ti file newDecls mappings in
    parser_ParseFile inputFile = Some file
    /\ scanComments inputFile (Comments file) w1
       = (Ret (templateName, templateArgs), w1)
    /\ length templateArgs = length (ti_Args ti)
    /\ forallb supported (Decls file) = true
    /\ (forall w2,
          foldM (mangle Upper templateName (ti_Name ti))
                (flat_map candidates (Decls file))
                (false, mapArgs templateArgs (ti_Args ti)) w2
          = (Ret (true, mappings), w2))
    /\ format_Node out = Some source
    /\ ioutil_WriteFile (outputFileName (ti_Name ti)) source = WriteOk
    /\ heap w' = heap w ++ [out]
    /\ disk w' = <[outputFileName (ti_Name ti) := source]> (disk w).
Proof.
  unfold parse, parseFile. intros H.
  destruct (parser_ParseFile inputFile) as [file|] eqn:Hpf;
    [|discriminate H].
  unfold bind at 1 in H. unfold alloc at 1 in H. fold (parsed file w) in H.
  unfold bind at 1 in H. rewrite load_parsed in H.
  unfold bind at 1 in H.
  destruct (scanComments inputFile (Comments file) (parsed file w))
    as [[[templateName templateArgs]|n|] w1] eqn:Hscan; try discriminate H.
  pose proof (scanComments_world _ _ _ _ _ Hscan) as ->.
  destruct (String.eqb templateName ""); [discriminate H|].
  destruct (Nat.eqb (length templateArgs) (length (ti_Args ti))) eqn:Hlen;
    [|discriminate H].
  apply Nat.eqb_eq in Hlen.
  unfold bind at 1 in H. unfold ret at 1 in H.
  unfold bind at 1 in H. cbn [negb] in H. unfold ret at 1 in H.
  unfold bind at 1 in H. unfold classify in H.
  destruct (supported_split (Decls file))
    as [Hs | (before & d & after & Hd & Hb & Hu)].
  2:{ rewrite Hd, (classify_unsupported templateArgs before after d) in H
        by assumption.
      destruct (fst (verdict d)); discriminate H. }
  rewrite (classify_supported templateArgs) in H by assumption.
  cbn [app] in H.
  set (names := flat_map candidates (Decls file)) in *.
  set (newDecls := List.filter _ (Decls file)) in *.
  unfold bind at 1 in H. unfold store at 1 in H.
  cbn [heap addLog parsed log disk] in H.
  rewrite list_lookup_middle in H by reflexivity.
  unfold bind at 1 in H.
  destruct (foldM_pure _ (mangle_pure templateName (ti_Name ti)) names
              (false, mapArgs templateArgs (ti_Args ti))) as [o Ho].
  rewrite Ho in H. destruct o as [[found mappings]|n|]; try discriminate H.
  destruct found; [|discriminate H].
  unfold bind at 1 in H. cbn [negb] in H. unfold ret at 1 in H.
  unfold bind at 1 in H. rewrite insert_last in H.
  erewrite rewriteAll_run in H by (cbn [heap]; apply list_lookup_middle; reflexivity).
  cbn [log heap disk] in H. rewrite insert_last in H.
  unfold bind at 1 in H. unfold load at 1 in H. cbn [heap] in H.
  rewrite list_lookup_middle in H by reflexivity.
  unfold bind at 1 in H. unfold store at 1 in H. cbn [heap log disk] in H.
  rewrite list_lookup_middle in H by reflexivity. rewrite insert_last in H.
  unfold bind at 1 in H. unfold outputFile at 1 in H.
  unfold bind at 1 in H. unfold load at 1 in H. cbn [heap] in H.
  rewrite list_lookup_middle in H by reflexivity.
  fold (outputTree ti file newDecls mappings) in H.
  unfold gofmtFile in H.
  destruct (format_Node (outputTree ti file newDecls mappings))
    as [source|] eqn:Hfmt; [|discriminate H].
  destruct (ioutil_WriteFile (outputFileName (ti_Name ti)) source) eqn:Hw;
    [|discriminate H|discriminate H].
  unfold logf in H. cbn [log heap disk] in H. injection H as <-.
  exists file, templateName, templateArgs, mappings, source.
  cbn zeta. repeat split; try assumption; try reflexivity.
Qed.

End Success.

(** C5. After a run that succeeds, the tree at the file's address, which is
    the tree that was formatted, has the request's package name as its
    package clause, and the formatted text is on the disk under the name
    [gotemplate_] + the instantiation's name + [.go]. (The rewriter is
    modelled as returning the address it is given; the package clause is set
    through [f] and the tree is written through [newFile].) *)
Theorem C5_package_clause_and_file_name
    (Upper : N -> bool) (parser_ParseFile : string -> option File)
    (format_Node : File -> option string) (ioutil_WriteFile : string -> string -> WriteResult)
    (range : gmap string string -> list (string * string))
    (ti : templateInstantiation.t) (inputFile : string) (w w' : World)
    (Hrun : parse Upper parser_ParseFile format_Node ioutil_WriteFile range ti
                  inputFile w = (Ret tt, w')) :
  exists out source,
    heap w' = (heap w ++ [out])%list
    /\ Name out = ti_NewPackage ti
    /\ format_Node out = Some source
    /\ disk w' = <["gotemplate_" ++ ti_Name ti ++ ".go" := source]> (disk w).
Proof.
  apply parse_Ret in Hrun
    as (file & tn & targs & mappings & source & _ & _ & _ & _ & _ & Hf & _ & Hh & Hd).
  eexists _, source. split; [exact Hh|]. split; [reflexivity|].
  split; [exact Hf | exact Hd].
Qed.

Lemma C5_package_clause_and_file_name_witness :
  exists out source,
    heap (snd (parse (fun _ => false) (fun _ => Some setTemplate)
                     (fun f => Some (Name f)) (fun _ _ => WriteOk) map_to_list
                     (templateInstantiation.mk "set" "IntSet" ["int"] "mypkg" ".")
                     "set.go" emptyWorld))
    = ([] ++ [out])%list
    /\ Name out = "mypkg"
    /\ Some (Name out) = Some source
    /\ disk (snd (parse (fun _ => false) (fun _ => Some setTemplate)
                        (fun f => Some (Name f)) (fun _ _ => WriteOk) map_to_list
                        (templateInstantiation.mk "set" "IntSet" ["int"] "mypkg" ".")
                        "set.go" emptyWorld))
       = <["gotemplate_IntSet.go" := source]> ∅.
Proof.
  apply (C5_package_clause_and_file_name (fun _ => false)
           (fun _ => Some setTemplate) (fun f => Some (Name f)) (fun _ _ => WriteOk)
           map_to_list
           (templateInstantiation.mk "set" "IntSet" ["int"] "mypkg" ".")
           "set.go" emptyWorld).
  vm_compute. reflexivity.
Defined.

(** ** The order of the rewrites *)

(** A request that instantiates the set template on a type that is itself
    called [Set]: [IntSet(Set)]. *)
Definition setOfSet : templateInstantiation.t :=
  templateInstantiation.mk "set" "IntSet" ["Set"] "mypkg" ".".

(** The mapping the run builds for it. *)
Definition setOfSetMappings : gmap string string :=
  <["NewSet" := "NewIntSet"]> (<["Set" := "IntSet"]> {["A" := "Set"]}).

(** Two orders in which [range] may visit that mapping. *)
Definition rangeA (m : gmap string string) : list (string * string) :=
  [("A", "Set"); ("Set", "IntSet"); ("NewSet", "NewIntSet")].
Definition rangeB (m : gmap string string) : list (string * string) :=
  [("Set", "IntSet"); ("NewSet", "NewIntSet"); ("A", "Set")].

(** The trees the two runs format: [type IntSet map[IntSet]bool] with
    [Add(a IntSet)], and [type IntSet map[Set]bool] with [Add(a Set)]. *)
Definition treeA : File :=
  mkFile "mypkg"
    [GenDecl token.IMPORT [ImportSpec None "fmt"];
     GenDecl token.TYPE
       [TypeSpec "IntSet" (Tree "map" [Ident "IntSet"; Ident "bool"])];
     FuncDecl None "NewIntSet" (Tree "func" [Tree "star" [Ident "IntSet"]])
              (Some (Tree "block" [Ident "make"; Ident "IntSet"]));
     FuncDecl (Some [Ident "s"; Tree "star" [Ident "IntSet"]]) "Add"
              (Tree "func" [Ident "a"; Ident "IntSet"])
              (Some (Tree "block" [Ident "s"; Ident "a"]))]
    [["// Package set is a template"]; ["// template type Set(A)"]].

Definition treeB : File :=
  mkFile "mypkg"
    [GenDecl token.IMPORT [ImportSpec None "fmt"];
     GenDecl token.TYPE
       [TypeSpec "IntSet" (Tree "map" [Ident "Set"; Ident "bool"])];
     FuncDecl None "NewIntSet" (Tree "func" [Tree "star" [Ident "IntSet"]])
              (Some (Tree "block" [Ident "make"; Ident "IntSet"]));
     FuncDecl (Some [Ident "s"; Tree "star" [Ident "IntSet"]]) "Add"
              (Tree "func" [Ident "a"; Ident "Set"])
              (Some (Tree "block" [Ident "s"; Ident "a"]))]
    [["// Package set is a template"]; ["// template type Set(A)"]].

Lemma setOfSet_mappings (Upper : N -> bool) (w : World) :
  foldM (mangle Upper "Set" "IntSet") (flat_map candidates (Decls setTemplate))
        (false, mapArgs ["A"] ["Set"]) w
  = (Ret (true, setOfSetMappings), w).
Proof. reflexivity. Qed.

Lemma rangeA_valid : rangeA setOfSetMappings ≡ₚ map_to_list setOfSetMappings.
Proof.
  symmetry. change setOfSetMappings with (list_to_map (rangeA ∅) : gmap string string).
  apply map_to_list_to_map. apply (bool_decide_unpack _). vm_compute. exact I.
Qed.

Lemma rangeB_valid : rangeB setOfSetMappings ≡ₚ map_to_list setOfSetMappings.
Proof.
  symmetry. change setOfSetMappings with (list_to_map (rangeB ∅) : gmap string string).
  apply map_to_list_to_map. apply (bool_decide_unpack _). vm_compute. exact I.
Qed.

(** C8, at an input where the code leaves it. The order in which [range]
    visits the mapping is not fixed, and the rewrites are applied one after
    the other. For the request [IntSet(Set)] on the set template the mapping
    has [A -> Set] and [Set -> IntSet]: visiting [A] first turns the
    template's [A] into [IntSet], visiting [Set] first leaves it [Set]. Both
    orders are orders of that mapping; with the same file, the same request
    and a formatter that prints the two trees differently, the two runs
    write different contents to the same file. *)
Theorem C8_iteration_order_changes_output
    (Upper : N -> bool) (format_Node : File -> option string)
    (sourceA sourceB : string)
    (HA : format_Node treeA = Some sourceA)
    (HB : format_Node treeB = Some sourceB)
    (Hdiff : sourceA <> sourceB) :
  let run range :=
    parse Upper (fun _ => Some setTemplate) format_Node (fun _ _ => WriteOk) range
          setOfSet "set.go" emptyWorld in
  rangeA setOfSetMappings ≡ₚ map_to_list setOfSetMappings
  /\ rangeB setOfSetMappings ≡ₚ map_to_list setOfSetMappings
  /\ fst (run rangeA) = Ret tt /\ fst (run rangeB) = Ret tt
  /\ disk (snd (run rangeA)) !! "gotemplate_IntSet.go" = Some sourceA
  /\ disk (snd (run rangeB)) !! "gotemplate_IntSet.go" = Some sourceB
  /\ disk (snd (run rangeA)) <> disk (snd (run rangeB)).
Proof.
  intros run.
  assert (EA : run rangeA
               = (Ret tt, mkWorld [Written "gotemplate_IntSet.go"] [treeA]
                                  (<["gotemplate_IntSet.go" := sourceA]> ∅))).
  { unfold run. vm_compute in HA |- *. rewrite HA. reflexivity. }
  assert (EB : run rangeB
               = (Ret tt, mkWorld [Written "gotemplate_IntSet.go"] [treeB]
                                  (<["gotemplate_IntSet.go" := sourceB]> ∅))).
  { unfold run. vm_compute in HB |- *. rewrite HB. reflexivity. }
  rewrite EA, EB. cbn [fst snd disk].
  split; [exact rangeA_valid|]. split; [exact rangeB_valid|].
  repeat split; try apply lookup_insert_eq.
  intros E. apply Hdiff.
  assert (L : (<["gotemplate_IntSet.go" := sourceA]> ∅ : gmap string string)
              !! "gotemplate_IntSet.go" = Some sourceA) by apply lookup_insert_eq.
  rewrite E, lookup_insert_eq in L. congruence.
Qed.

(** A formatter that prints the identifiers of the declarations. *)
Definition printIdents (f : File) : option string :=
  Some (String.concat " " (identsOf f)).

Lemma C8_iteration_order_changes_output_witness :
  disk (snd (parse (fun _ => false) (fun _ => Some setTemplate) printIdents
                   (fun _ _ => WriteOk) rangeA setOfSet "set.go" emptyWorld))
  <> disk (snd (parse (fun _ => false) (fun _ => Some setTemplate) printIdents
                      (fun _ _ => WriteOk) rangeB setOfSet "set.go" emptyWorld)).
Proof.
  refine (proj2 (proj2 (proj2 (proj2 (proj2 (proj2
    (C8_iteration_order_changes_output (fun _ => false) printIdents
       "IntSet IntSet bool NewIntSet IntSet make IntSet s IntSet Add a IntSet s a"
       "IntSet Set bool NewIntSet IntSet make IntSet s IntSet Add a Set s a"
       _ _ _))))))).
  - reflexivity.
  - reflexivity.
  - discriminate.
Defined.

(** * Further properties of the code *)

(** ** The annotation pattern *)

Section AnnotationPattern.
Import GoString Regexp.

(** Every byte of the text satisfies [p]. *)
Fixpoint every (p : ascii -> bool) (s : string) : bool :=
  match s with
  | EmptyString => true
  | String c s' => p c && every p s'
  end.

(** The text does not start with a byte that satisfies [p]. *)
Definition stops (p : ascii -> bool) (s : string) : bool :=
  match s with
  | EmptyString => true
  | String c _ => negb (p c)
  end.

Lemma list_ascii_app (a b : string) :
  list_ascii_of_string (a ++ b)
  = (list_ascii_of_string a ++ list_ascii_of_string b)%list.
Proof. induction a; simpl; [reflexivity | now f_equal]. Qed.

Lemma string_of_list_app (a b : list ascii) :
  string_of_list_ascii (a ++ b)%list
  = string_of_list_ascii a ++ string_of_list_ascii b.
Proof. induction a; simpl; [reflexivity | now f_equal]. Qed.

Lemma reverse_app (a b : string) : reverse (a ++ b) = reverse b ++ reverse a.
Proof.
  unfold reverse. now rewrite list_ascii_app, rev_app_distr, string_of_list_app.
Qed.

Lemma reverse_reverse (s : string) : reverse (reverse s) = s.
Proof.
  unfold reverse.
  now rewrite list_ascii_of_string_of_list_ascii, rev_involutive,
    string_of_list_ascii_of_string.
Qed.

Lemma reverse_cons (c : ascii) (s : string) :
  reverse (String c s) = reverse s ++ String c "".
Proof. change (String c s) with (String c "" ++ s). now rewrite reverse_app. Qed.

Lemma every_app (p : ascii -> bool) (a b : string) :
  every p (a ++ b) = every p a && every p b.
Proof.
  induction a as [|c a IH]; simpl; [reflexivity|].
  now rewrite IH, andb_assoc.
Qed.

Lemma every_reverse (p : ascii -> bool) (s : string) :
  every p (reverse s) = every p s.
Proof.
  induction s as [|c s IH]; [reflexivity|].
  rewrite reverse_cons, every_app, IH. simpl.
  now rewrite andb_true_r, andb_comm.
Qed.

Lemma hasNewline_every (s : string) :
  hasNewline s = negb (every (fun c => negb (byte_of c =? 10)%N) s).
Proof.
  unfold hasNewline. induction s as [|c s IH]; simpl; [reflexivity|].
  rewrite IH. now destruct (byte_of c =? 10)%N.
Qed.

Lemma skipWhile_app (p : ascii -> bool) (a b : string) :
  every p a = true -> stops p b = true -> skipWhile p (a ++ b) = b.
Proof.
  induction a as [|c a IH]; simpl.
  - intros _ H. destruct b as [|c b]; [reflexivity|].
    simpl in *. apply negb_true_iff in H. now rewrite H.
  - intros H Hb. apply andb_true_iff in H as [-> H]. now apply IH.
Qed.

Lemma skipWhile_split (p : ascii -> bool) (s : string) :
  exists a, s = a ++ skipWhile p s /\ every p a = true
            /\ stops p (skipWhile p s) = true.
Proof.
  induction s as [|c s (a & Hs & Ha & Hst)].
  - now exists "".
  - simpl. destruct (p c) eqn:E.
    + exists (String c a). simpl. rewrite E, Ha. now rewrite <- Hs.
    + exists "". simpl. now rewrite E.
Qed.

Lemma takeWhile_app (p : ascii -> bool) (a b : string) :
  every p a = true -> stops p b = true -> takeWhile p (a ++ b) = a.
Proof.
  induction a as [|c a IH]; simpl.
  - intros _ H. destruct b as [|c b]; [reflexivity|].
    simpl in *. apply negb_true_iff in H. now rewrite H.
  - intros H Hb. apply andb_true_iff in H as [-> H]. now rewrite IH.
Qed.

Lemma takeWhile_split (p : ascii -> bool) (s : string) :
  s = takeWhile p s ++ slice_from (len (takeWhile p s)) s
  /\ every p (takeWhile p s) = true
  /\ stops p (slice_from (len (takeWhile p s)) s) = true.
Proof.
  induction s as [|c s (Hs & Ha & Hst)]; [now cbn|].
  simpl. destruct (p c) eqn:E; simpl.
  - rewrite E, Ha. repeat split; try assumption. now rewrite <- Hs.
  - rewrite E. auto.
Qed.

Lemma lit_app (l s : string) : lit l (l ++ s) = Some s.
Proof.
  unfold lit. replace (HasPrefix (l ++ s) l) with true.
  - now rewrite slice_from_app_len.
  - symmetry. apply HasPrefix_app. now exists s.
Qed.

Lemma lit_inv (l s s' : string) : lit l s = Some s' -> s = l ++ s'.
Proof.
  unfold lit. destruct (HasPrefix s l) eqn:E; [|discriminate].
  apply HasPrefix_app in E as [post ->]. rewrite slice_from_app_len.
  congruence.
Qed.

Lemma spaces1_app (ws s : string) :
  every isSpace ws = true -> ws <> "" -> stops isSpace s = true ->
  spaces1 (ws ++ s) = Some s.
Proof.
  destruct ws as [|c ws]; [congruence|]. simpl.
  intros H _ Hs. apply andb_true_iff in H as [-> H].
  now rewrite skipWhile_app.
Qed.

Lemma spaces1_inv (s s' : string) :
  spaces1 s = Some s' ->
  exists ws, s = ws ++ s' /\ every isSpace ws = true /\ ws <> ""
             /\ stops isSpace s' = true.
Proof.
  destruct s as [|c s]; [discriminate|]. simpl.
  destruct (isSpace c) eqn:E; [|discriminate]. intros [= <-].
  destruct (skipWhile_split isSpace s) as (a & Hs & Ha & Hst).
  exists (String c a). simpl. rewrite E, Ha. repeat split; try assumption.
  - now rewrite <- Hs.
  - discriminate.
Qed.

Lemma lazyToClose_app (params ws : string) :
  hasNewline params = false -> every isSpace ws = true ->
  lazyToClose (params ++ ")" ++ ws) = Some params.
Proof.
  intros Hn Hw. unfold lazyToClose.
  rewrite !reverse_app. change (reverse ")") with ")".
  rewrite append_assoc.
  rewrite skipWhile_app; [|now rewrite every_reverse|reflexivity].
  cbn [String.append]. change (byte_of ")" =? 41)%N with true. cbn [andb].
  rewrite hasNewline_every, every_reverse, <- hasNewline_every, Hn.
  cbn [negb]. now rewrite reverse_reverse.
Qed.

Lemma lazyToClose_inv (s params : string) :
  lazyToClose s = Some params ->
  exists ws, s = params ++ ")" ++ ws /\ hasNewline params = false
             /\ every isSpace ws = true.
Proof.
  unfold lazyToClose.
  destruct (skipWhile_split isSpace (reverse s)) as (a & Hs & Ha & _).
  destruct (skipWhile isSpace (reverse s)) as [|c r]; [discriminate|].
  destruct (byte_of c =? 41)%N eqn:Ec; [|discriminate].
  destruct (hasNewline r) eqn:Hn; [discriminate|]. cbn [andb negb].
  intros [= <-]. exists (reverse a).
  assert (c = ")"%char) as ->.
  { apply N.eqb_eq in Ec. unfold byte_of in Ec.
    rewrite <- (ascii_N_embedding c), Ec. reflexivity. }
  split; [|split].
  - rewrite <- (reverse_reverse s), Hs, reverse_app, reverse_cons.
    now rewrite append_assoc.
  - rewrite hasNewline_every, every_reverse, <- hasNewline_every. exact Hn.
  - now rewrite every_reverse.
Qed.

End AnnotationPattern.

(** The form of an annotation comment: a comment marker, then the words
    [template] and [type] and the name, each after white space, then the
    parameter text in parentheses, then white space to the end. *)
Definition annotationForm (text name params : string) : Prop :=
  exists (c : ascii) (ws1 ws2 ws3 ws4 : string),
    text = "/" ++ String c (ws1 ++ "template" ++ ws2 ++ "type" ++ ws3
                              ++ name ++ "(" ++ params ++ ")" ++ ws4)
    /\ (c = "*"%char \/ c = "/"%char)
    /\ (every Regexp.isSpace ws1 = true /\ ws1 <> "")
    /\ (every Regexp.isSpace ws2 = true /\ ws2 <> "")
    /\ (every Regexp.isSpace ws3 = true /\ ws3 <> "")
    /\ (every Regexp.isWord name = true /\ name <> "")
    /\ Regexp.hasNewline params = false
    /\ every Regexp.isSpace ws4 = true.

Lemma isWord_not_isSpace (c : ascii) :
  Regexp.isWord c = true -> Regexp.isSpace c = false.
Proof.
  destruct c as [[] [] [] [] [] [] [] []]; vm_compute; intros H;
    first [reflexivity | discriminate H].
Qed.

Lemma isWord_ascii (c : ascii) :
  Regexp.isWord c = true ->
  (GoString.byte_of c <? 128)%N = true
  /\ unicode.IsSpace (GoString.byte_of c) = false
  /\ Ascii.eqb c "," = false.
Proof.
  destruct c as [[] [] [] [] [] [] [] []]; vm_compute; intros H;
    first [discriminate H | repeat split].
Qed.

Lemma word_stops_space (name rest : string) :
  every Regexp.isWord name = true -> name <> "" ->
  stops Regexp.isSpace (name ++ rest) = true.
Proof.
  destruct name as [|c name]; [congruence|]. simpl. intros H _.
  apply andb_true_iff in H as [H _]. now rewrite (isWord_not_isSpace c H).
Qed.

Lemma FindStringSubmatch_complete (text name params : string) :
  annotationForm text name params ->
  Regexp.FindStringSubmatch text = Some (name, params).
Proof.
  intros (c & ws1 & ws2 & ws3 & ws4 & -> & Hc & [H1 N1] & [H2 N2] & [H3 N3]
          & [Hn Nn] & Hp & H4).
  unfold Regexp.FindStringSubmatch. rewrite lit_app. cbn [mbind option_bind].
  replace ((GoString.byte_of c =? 42) || (GoString.byte_of c =? 47))%N with true
    by (destruct Hc as [-> | ->]; reflexivity).
  cbn [mbind option_bind].
  rewrite spaces1_app by (assumption || reflexivity). cbn [mbind option_bind].
  rewrite lit_app. cbn [mbind option_bind].
  rewrite spaces1_app by (assumption || reflexivity). cbn [mbind option_bind].
  rewrite lit_app. cbn [mbind option_bind].
  rewrite spaces1_app by (assumption || now apply word_stops_space).
  cbn [mbind option_bind].
  rewrite takeWhile_app by (assumption || reflexivity).
  replace (Nat.eqb (GoString.len name) 0) with false
    by (destruct name; [congruence | reflexivity]).
  rewrite slice_from_app_len, lit_app. cbn [mbind option_bind].
  now rewrite lazyToClose_app.
Qed.

Lemma FindStringSubmatch_sound (text name params : string) :
  Regexp.FindStringSubmatch text = Some (name, params) ->
  annotationForm text name params.
Proof.
  unfold Regexp.FindStringSubmatch. intros H.
  destruct (Regexp.lit "/" text) as [s0|] eqn:E0; [|discriminate H].
  apply lit_inv in E0. cbn [mbind option_bind] in H.
  destruct s0 as [|c s1]; [discriminate H|].
  destruct ((GoString.byte_of c =? 42) || (GoString.byte_of c =? 47))%N eqn:Ec;
    [|discriminate H].
  cbn [mbind option_bind] in H.
  destruct (Regexp.spaces1 s1) as [s2|] eqn:E1; [|discriminate H].
  apply spaces1_inv in E1 as (ws1 & -> & H1 & N1 & _). cbn [mbind option_bind] in H.
  destruct (Regexp.lit "template" s2) as [s3|] eqn:E2; [|discriminate H].
  apply lit_inv in E2 as ->. cbn [mbind option_bind] in H.
  destruct (Regexp.spaces1 s3) as [s4|] eqn:E3; [|discriminate H].
  apply spaces1_inv in E3 as (ws2 & -> & H2 & N2 & _). cbn [mbind option_bind] in H.
  destruct (Regexp.lit "type" s4) as [s5|] eqn:E4; [|discriminate H].
  apply lit_inv in E4 as ->. cbn [mbind option_bind] in H.
  destruct (Regexp.spaces1 s5) as [s6|] eqn:E5; [|discriminate H].
  apply spaces1_inv in E5 as (ws3 & -> & H3 & N3 & _). cbn [mbind option_bind] in H.
  destruct (takeWhile_split Regexp.isWord s6) as (Hs6 & Hw & _).
  destruct (Nat.eqb (GoString.len (Regexp.takeWhile Regexp.isWord s6)) 0) eqn:El;
    [discriminate H|].
  destruct (Regexp.lit "(" _) as [s7|] eqn:E6; [|discriminate H].
  apply lit_inv in E6. cbn [mbind option_bind] in H.
  destruct (Regexp.lazyToClose s7) as [ps|] eqn:E7; [|discriminate H].
  apply lazyToClose_inv in E7 as (ws4 & -> & Hp & H4).
  cbn [mbind option_bind] in H. injection H as <- <-.
  exists c, ws1, ws2, ws3, ws4. split.
  - rewrite E0. simpl. do 2 f_equal. rewrite Hs6 at 1. now rewrite E6.
  - split.
    { apply orb_true_iff in Ec as [Ec|Ec]; apply N.eqb_eq in Ec;
        unfold GoString.byte_of in Ec;
        rewrite <- (ascii_N_embedding c), Ec; auto. }
    repeat split; try assumption.
    intros Hz. rewrite Hz in El. discriminate El.
Qed.

(** X1. A comment is recognised as the annotation exactly when it has the
    annotation's form, and then the two groups are the name and the
    parameter text: what is between the parenthesis after the name and the
    last closing parenthesis of the comment. *)
Theorem annotation_recognised_iff (text name params : string) :
  Regexp.FindStringSubmatch text = Some (name, params)
  <-> annotationForm text name params.
Proof.
  split; [apply FindStringSubmatch_sound | apply FindStringSubmatch_complete].
Qed.

(** X2. A comment that ends with the closing marker of a block comment is
    never recognised as the annotation, although the pattern accepts the
    opening marker of one: only white space may follow the closing
    parenthesis. *)
Theorem block_comment_never_matches (body : string) :
  Regexp.FindStringSubmatch (body ++ "*/") = None.
Proof.
  destruct (Regexp.FindStringSubmatch (body ++ "*/")) as [[name params]|] eqn:E;
    [|reflexivity].
  exfalso. apply FindStringSubmatch_sound in E
    as (c & ws1 & ws2 & ws3 & ws4 & Ht & _ & _ & _ & _ & _ & _ & H4).
  apply (f_equal Regexp.reverse) in Ht.
  change ("/" ++ String c ?x) with (String "/" (String c "") ++ x) in Ht.
  rewrite !reverse_app in Ht. change (Regexp.reverse "*/") with "/*" in Ht.
  change (Regexp.reverse ")") with ")" in Ht.
  rewrite <- every_reverse in H4.
  destruct (Regexp.reverse ws4) as [|d r]; cbn in Ht.
  - discriminate Ht.
  - injection Ht as <- _. cbn in H4. discriminate H4.
Qed.

(** ** The directive scanner *)

Section Scanner.
Local Open Scope list_scope.

(** The annotations among the comments, in the order of the file. *)
Definition annotations (texts : list string) : list (string * string) :=
  flat_map (fun text => match Regexp.FindStringSubmatch text with
                        | Some m => [m]
                        | None => []
                        end) texts.

Lemma foldM_app {A B} (body : A -> B -> M A) (l1 l2 : list B) (a : A) (w : World) :
  foldM body (l1 ++ l2) a w = bind (foldM body l1 a) (foldM body l2) w.
Proof.
  revert a w; induction l1 as [|x l1 IH]; intros a w; [reflexivity|].
  cbn [app foldM]. unfold bind.
  destruct (body a x w) as [[a'|n|] w1]; try reflexivity.
  rewrite IH. reflexivity.
Qed.

Lemma foldM_concat {A B} (body : A -> B -> M A) (groups : list (list B))
    (a : A) (w : World) :
  foldM (fun st g => foldM body g st) groups a w = foldM body (concat groups) a w.
Proof.
  revert a w; induction groups as [|g groups IH]; intros a w; [reflexivity|].
  cbn [foldM concat]. rewrite foldM_app. unfold bind.
  destruct (foldM body g a w) as [[a'|n|] w1]; try reflexivity.
  apply IH.
Qed.

Lemma annotation_name_nonempty (text name params : string) :
  Regexp.FindStringSubmatch text = Some (name, params) -> name <> "".
Proof.
  intros H. apply FindStringSubmatch_sound in H
    as (c & ws1 & ws2 & ws3 & ws4 & _ & _ & _ & _ & _ & [_ Hn] & _).
  exact Hn.
Qed.

(** The loop over the comments, by the annotations it meets. *)
Lemma scan_annotations (inputFile : string) (texts : list string) :
  forall (st : string * list string) (w : World),
    foldM (scanComment inputFile) texts st w
    = match annotations texts with
      | [] => (Ret st, w)
      | (name, params) :: rest =>
          if String.eqb (fst st) "" && Nat.eqb (length rest) 0
          then (Ret (name, parseArgs params), w)
          else (Exit 1, addLog [MultipleTemplateDefinitions inputFile] w)
      end.
Proof.
  induction texts as [|text texts IH]; intros st w; [reflexivity|].
  cbn [foldM annotations flat_map]. unfold bind. unfold scanComment at 1.
  fold (annotations texts).
  destruct (Regexp.FindStringSubmatch text) as [[name params]|] eqn:E.
  - cbn [app]. unfold bind, fatalf, logf, os_Exit, ret.
    destruct (String.eqb (fst st) ""); cbn [negb andb]; [|reflexivity].
    rewrite IH. cbn [fst].
    apply annotation_name_nonempty in E. apply String.eqb_neq in E. rewrite E.
    destruct (annotations texts) as [|[n p] rest]; reflexivity.
  - unfold ret. cbn [app]. apply IH.
Qed.

End Scanner.

(** X3. When exactly one comment of the file is an annotation, wherever it
    stands among the comments, the scanner returns its name and the parsed
    parameters, and changes nothing. *)
Theorem scan_single_annotation
    (inputFile : string) (comments : list (list string)) (w : World)
    (name params : string)
    (Hone : annotations (concat comments) = [(name, params)]) :
  scanComments inputFile comments w = (Ret (name, parseArgs params), w).
Proof.
  unfold scanComments. rewrite foldM_concat, scan_annotations, Hone.
  reflexivity.
Qed.

Lemma scan_single_annotation_witness :
  scanComments "set.go" (Comments setTemplate) emptyWorld
  = (Ret ("Set", parseArgs "A"), emptyWorld).
Proof.
  apply (scan_single_annotation "set.go" (Comments setTemplate) emptyWorld
           "Set" "A").
  reflexivity.
Defined.

Lemma parse_no_annotation_exit
    (Upper : N -> bool) (parser_ParseFile : string -> option File)
    (format_Node : File -> option string) (ioutil_WriteFile : string -> string -> WriteResult)
    (range : gmap string string -> list (string * string))
    (ti : templateInstantiation.t) (inputFile : string) (w : World)
    (file : File)
    (Hparse : parser_ParseFile inputFile = Some file)
    (Hnone : annotations (concat (Comments file)) = []) :
  parse Upper parser_ParseFile format_Node ioutil_WriteFile range ti inputFile w
  = (Exit 1, mkWorld (log w ++ [NoTemplateDefinition inputFile])%list
                     (heap w ++ [file])%list (disk w)).
Proof.
  unfold parse, parseFile. rewrite Hparse.
  unfold bind at 1. unfold alloc at 1. fold (parsed file w).
  unfold bind at 1. rewrite load_parsed.
  unfold bind at 1. unfold scanComments.
  rewrite foldM_concat, scan_annotations, Hnone. reflexivity.
Qed.


(** X4. A file without an annotation comment ends the run: "Didn't find
    template definition" is logged, the exit status is 1, and nothing is
    classified or written. *)
Theorem parse_without_annotation
    (Upper : N -> bool) (parser_ParseFile : string -> option File)
    (format_Node : File -> option string) (ioutil_WriteFile : string -> string -> WriteResult)
    (range : gmap string string -> list (string * string))
    (ti : templateInstantiation.t) (inputFile : string) (w : World)
    (file : File)
    (Hparse : parser_ParseFile inputFile = Some file)
    (Hnone : annotations (concat (Comments file)) = []) :
  parse Upper parser_ParseFile format_Node ioutil_WriteFile range ti inputFile w
  = (Exit 1, mkWorld (log w ++ [NoTemplateDefinition inputFile])%list
                     (heap w ++ [file])%list (disk w)).
Proof.
  now apply parse_no_annotation_exit.
Qed.

Lemma parse_without_annotation_witness :
  parse (fun _ => false)
        (fun _ => Some (mkFile "set" (Decls setTemplate) [["// Package set"]]))
        (fun _ => Some "") (fun _ _ => WriteOk) map_to_list
        (templateInstantiation.mk "set" "IntSet" ["int"] "mypkg" ".")
        "set.go" emptyWorld
  = (Exit 1, mkWorld [NoTemplateDefinition "set.go"]
                     [mkFile "set" (Decls setTemplate) [["// Package set"]]] ∅).
Proof.
  apply (parse_without_annotation (fun _ => false)
           (fun _ => Some (mkFile "set" (Decls setTemplate) [["// Package set"]]))
           (fun _ => Some "") (fun _ _ => WriteOk) map_to_list
           (templateInstantiation.mk "set" "IntSet" ["int"] "mypkg" ".")
           "set.go" emptyWorld); reflexivity.
Defined.

(** X5. A file with two or more annotation comments ends the run: "Found
    multiple template definitions" is logged, the exit status is 1, and
    nothing is classified or written. *)
Theorem parse_with_several_annotations
    (Upper : N -> bool) (parser_ParseFile : string -> option File)
    (format_Node : File -> option string) (ioutil_WriteFile : string -> string -> WriteResult)
    (range : gmap string string -> list (string * string))
    (ti : templateInstantiation.t) (inputFile : string) (w : World)
    (file : File)
    (Hparse : parser_ParseFile inputFile = Some file)
    (Hmany : 2 <= length (annotations (concat (Comments file)))) :
  parse Upper parser_ParseFile format_Node ioutil_WriteFile range ti inputFile w
  = (Exit 1, mkWorld (log w ++ [MultipleTemplateDefinitions inputFile])%list
                     (heap w ++ [file])%list (disk w)).
Proof.
  unfold parse, parseFile. rewrite Hparse.
  unfold bind at 1. unfold alloc at 1. fold (parsed file w).
  unfold bind at 1. rewrite load_parsed.
  unfold bind at 1. unfold scanComments.
  rewrite foldM_concat, scan_annotations.
  destruct (annotations (concat (Comments file))) as [|[n p] [|m rest]];
    cbn in Hmany; try lia.
  reflexivity.
Qed.

Lemma parse_with_several_annotations_witness :
  parse (fun _ => false)
        (fun _ => Some (mkFile "set" (Decls setTemplate)
                          [["// template type Set(A)"];
                           ["// doc"; "// template type Map(K, V)"]]))
        (fun _ => Some "") (fun _ _ => WriteOk) map_to_list
        (templateInstantiation.mk "set" "IntSet" ["int"] "mypkg" ".")
        "set.go" emptyWorld
  = (Exit 1, mkWorld [MultipleTemplateDefinitions "set.go"]
                     [mkFile "set" (Decls setTemplate)
                        [["// template type Set(A)"];
                         ["// doc"; "// template type Map(K, V)"]]] ∅).
Proof.
  apply (parse_with_several_annotations (fun _ => false)
           (fun _ => Some (mkFile "set" (Decls setTemplate)
                             [["// template type Set(A)"];
                              ["// doc"; "// template type Map(K, V)"]]))
           (fun _ => Some "") (fun _ _ => WriteOk) map_to_list
           (templateInstantiation.mk "set" "IntSet" ["int"] "mypkg" ".")
           "set.go" emptyWorld); [reflexivity | vm_compute; lia].
Defined.

(** ** Splitting and trimming the parameter text *)

Section Fields.
Import GoString.

Fixpoint countByte (sep : ascii) (s : string) : nat :=
  match s with
  | EmptyString => 0
  | String c s' => (if Ascii.eqb c sep then 1 else 0) + countByte sep s'
  end.

Lemma SplitByte_length (s : string) (sep : ascii) :
  length (SplitByte s sep) = S (countByte sep s).
Proof.
  induction s as [|c s IH]; [reflexivity|]. simpl.
  destruct (Ascii.eqb c sep); simpl; [now rewrite IH|].
  destruct (SplitByte s sep) as [|fld rest]; simpl in *; lia.
Qed.

Lemma SplitByte_app (a b : string) (sep : ascii) :
  countByte sep a = 0 ->
  SplitByte (a ++ String sep b) sep = a :: SplitByte b sep.
Proof.
  induction a as [|c a IH]; simpl.
  - intros _. now rewrite Ascii.eqb_refl.
  - destruct (Ascii.eqb c sep); [discriminate|]. intros H.
    now rewrite (IH H).
Qed.

Lemma SplitByte_none (a : string) (sep : ascii) :
  countByte sep a = 0 -> SplitByte a sep = [a].
Proof.
  induction a as [|c a IH]; simpl; [reflexivity|].
  destruct (Ascii.eqb c sep); [discriminate|]. intros H. now rewrite (IH H).
Qed.

(** Joining fields that have no comma with commas and splitting again
    gives the fields. *)
Lemma SplitByte_concat (fields : list string) :
  fields <> [] ->
  Forall (fun f => countByte "," f = 0) fields ->
  SplitByte (String.concat "," fields) "," = fields.
Proof.
  induction fields as [|f fields IH]; [congruence|]. intros _ H.
  inversion H as [|? ? Hf Hrest]; subst.
  destruct fields as [|g fields].
  - simpl. now apply SplitByte_none.
  - cbn [String.concat]. change ("," ++ ?x) with (String "," x).
    rewrite SplitByte_app by assumption. f_equal. now apply IH.
Qed.

Lemma bytes_app (a b : string) :
  utf8.bytes (a ++ b) = (utf8.bytes a ++ utf8.bytes b)%list.
Proof. unfold utf8.bytes. now rewrite list_ascii_app, map_app. Qed.

Lemma of_bytes_bytes (s : string) : of_bytes (utf8.bytes s) = s.
Proof.
  induction s as [|c s IH]; [reflexivity|].
  rewrite bytes_cons. simpl. unfold byte_of. now rewrite ascii_N_embedding, IH.
Qed.

Lemma length_bytes (s : string) : length (utf8.bytes s) = String.length s.
Proof. induction s; simpl; auto. Qed.

Lemma blank_app (a b : string) : blank (a ++ b) = blank a && blank b.
Proof.
  induction a as [|c a IH]; simpl; [reflexivity|]. now rewrite IH, andb_assoc.
Qed.

(** The first rune of the bytes is no white space (or there is none). *)
Definition startsSolid (l : list N) : bool :=
  match l with
  | [] => true
  | _ => negb (unicode.IsSpace (fst (utf8.DecodeRune l)))
  end.

Definition endsSolid (rl : list N) : bool :=
  match rl with
  | [] => true
  | _ => negb (unicode.IsSpace (fst (strings.DecodeLastRune rl)))
  end.

Lemma trimLeft_blank_prefix (pre : string) (rest : list N) (fuel : nat) :
  blank pre = true -> startsSolid rest = true -> String.length pre <= fuel ->
  strings.trimLeft fuel (utf8.bytes pre ++ rest)%list = rest.
Proof.
  revert fuel; induction pre as [|c pre IH]; intros fuel Hb Hr Hf.
  - cbn [utf8.bytes list_ascii_of_string map app].
    change (utf8.bytes "") with (@nil N). cbn [app].
    destruct fuel; [reflexivity|]. cbn [strings.trimLeft].
    destruct rest as [|b rest]; [reflexivity|].
    unfold startsSolid in Hr. apply negb_true_iff in Hr.
    destruct (utf8.DecodeRune (b :: rest)) as [r wid]. cbn [fst] in Hr.
    now rewrite Hr.
  - simpl in Hb. apply andb_true_iff in Hb as [Hc Hb].
    destruct (asciiSpace_cases c Hc) as (Hlt & Hsp & _).
    destruct fuel as [|fuel]; [simpl in Hf; lia|].
    rewrite bytes_cons. cbn [app strings.trimLeft utf8.DecodeRune].
    apply N.ltb_lt in Hlt. rewrite Hlt, Hsp. simpl drop.
    apply IH; [assumption | assumption | simpl in Hf; lia].
Qed.

Definition spaceByte (b : N) : Prop :=
  (b < 128)%N /\ unicode.IsSpace b = true.

Lemma blank_spaceBytes (s : string) :
  blank s = true -> Forall spaceByte (utf8.bytes s).
Proof.
  induction s as [|c s IH]; [constructor|]. simpl. intros H.
  apply andb_true_iff in H as [Hc Hs].
  destruct (asciiSpace_cases c Hc) as (Hlt & Hsp & _).
  rewrite bytes_cons. constructor; [now split | now apply IH].
Qed.

Lemma trimRight_spaces (bl rrest : list N) (fuel : nat) :
  Forall spaceByte bl -> endsSolid rrest = true -> length bl <= fuel ->
  strings.trimRight fuel (bl ++ rrest)%list = rrest.
Proof.
  intros Hbl Hr. revert fuel. induction Hbl as [|b bl [Hlt Hsp] _ IH]; intros fuel Hf.
  - cbn [app]. destruct fuel; [reflexivity|]. cbn [strings.trimRight].
    destruct rrest as [|b rrest]; [reflexivity|].
    unfold endsSolid in Hr. apply negb_true_iff in Hr.
    destruct (strings.DecodeLastRune (b :: rrest)) as [r wid]. cbn [fst] in Hr.
    now rewrite Hr.
  - destruct fuel as [|fuel]; [simpl in Hf; lia|].
    cbn [app strings.trimRight strings.DecodeLastRune].
    apply N.ltb_lt in Hlt. rewrite Hlt, Hsp. simpl drop.
    apply IH. simpl in Hf. lia.
Qed.

(** A name of word characters starts and ends with a rune that is no white
    space. *)
Lemma word_startsSolid (name : string) (rest : list N) :
  every Regexp.isWord name = true -> name <> "" ->
  startsSolid (utf8.bytes name ++ rest)%list = true.
Proof.
  destruct name as [|c name]; [congruence|]. intros H _.
  simpl in H. apply andb_true_iff in H as [Hc _].
  destruct (isWord_ascii c Hc) as (Hlt & Hsp & _).
  rewrite bytes_cons. cbn [app startsSolid utf8.DecodeRune].
  rewrite Hlt. cbn [fst]. now rewrite Hsp.
Qed.

Lemma word_endsSolid (name : string) :
  every Regexp.isWord name = true ->
  endsSolid (rev (utf8.bytes name)) = true.
Proof.
  intros H. rewrite <- every_reverse in H. unfold utf8.bytes.
  rewrite <- map_rev.
  replace (rev (list_ascii_of_string name))
    with (list_ascii_of_string (Regexp.reverse name))
    by (unfold Regexp.reverse; apply list_ascii_of_string_of_list_ascii).
  destruct (Regexp.reverse name) as [|c r]; [reflexivity|].
  simpl in H. apply andb_true_iff in H as [Hc _].
  destruct (isWord_ascii c Hc) as (Hlt & Hsp & _).
  cbn [list_ascii_of_string map endsSolid strings.DecodeLastRune].
  rewrite Hlt. cbn [fst]. now rewrite Hsp.
Qed.

(** Blanks around a name of word characters are trimmed away, and nothing
    else. *)
Lemma TrimSpace_padded (pre name post : string) :
  blank pre = true -> every Regexp.isWord name = true -> blank post = true ->
  strings.TrimSpace (pre ++ name ++ post) = name.
Proof.
  intros Hpre Hname Hpost.
  destruct (String.eqb name "") eqn:En.
  - apply String.eqb_eq in En. subst name. cbn [String.append].
    apply TrimSpace_blank. now rewrite blank_app, Hpre, Hpost.
  - apply String.eqb_neq in En. unfold strings.TrimSpace.
    rewrite !bytes_app.
    rewrite trimLeft_blank_prefix;
      [| assumption | now apply word_startsSolid
       | rewrite !length_app, !length_bytes; lia].
    rewrite rev_app_distr.
    rewrite trimRight_spaces;
      [| apply Forall_rev; now apply blank_spaceBytes
       | now apply word_endsSolid
       | rewrite length_rev, length_app; lia].
    now rewrite rev_involutive, of_bytes_bytes.
Qed.

End Fields.

Section FieldsRoundTrip.
Import GoString.

Lemma countByte_app (sep : ascii) (a b : string) :
  countByte sep (a ++ b) = countByte sep a + countByte sep b.
Proof. induction a as [|c a IH]; simpl; [reflexivity | rewrite IH; lia]. Qed.

Lemma countByte_blank (s : string) : blank s = true -> countByte "," s = 0.
Proof.
  induction s as [|c s IH]; [reflexivity|]. simpl. intros H.
  apply andb_true_iff in H as [Hc Hs].
  destruct (asciiSpace_cases c Hc) as (_ & _ & ->). now rewrite IH.
Qed.

Lemma countByte_word (s : string) :
  every Regexp.isWord s = true -> countByte "," s = 0.
Proof.
  induction s as [|c s IH]; [reflexivity|]. simpl. intros H.
  apply andb_true_iff in H as [Hc Hs]. rewrite (IH Hs).
  destruct (isWord_ascii c Hc) as (_ & _ & ->). reflexivity.
Qed.

(** A field of the parameter text: a name of word characters between
    blanks. *)
Definition paddedName (f : string * string * string) : Prop :=
  blank f.1.1 = true /\ every Regexp.isWord f.1.2 = true /\ blank f.2 = true.

Definition fieldText (f : string * string * string) : string :=
  f.1.1 ++ f.1.2 ++ f.2.

End FieldsRoundTrip.

(** X6. [parseArgs] returns one more parameter than the text has commas:
    never none, and an empty field between two commas counts. *)
Theorem parseArgs_counts_commas (s : string) :
  length (parseArgs s) = S (countByte "," s).
Proof. now rewrite parseArgs_fields, length_map, SplitByte_length. Qed.

Lemma parseArgs_padded_fields (fields : list (string * string * string))
    (Hne : fields <> [])
    (Hfields : Forall paddedName fields) :
  parseArgs (String.concat "," (map fieldText fields))
  = map (fun f => f.1.2) fields.
Proof.
  rewrite parseArgs_fields, SplitByte_concat.
  - rewrite map_map. induction Hfields as [|f fields (Hpre & Hname & Hpost) _ IH];
      [reflexivity|].
    cbn [map]. f_equal.
    + unfold fieldText. now apply TrimSpace_padded.
    + destruct fields as [|g fields]; [reflexivity|]. now apply IH.
  - destruct fields; [congruence | discriminate].
  - apply Forall_map. eapply List.Forall_impl; [|exact Hfields].
    intros f (Hpre & Hname & Hpost). unfold fieldText. cbn.
    rewrite !countByte_app, (countByte_blank _ Hpre), (countByte_blank _ Hpost),
      (countByte_word _ Hname). reflexivity.
Qed.


(** X7. Writing names of word characters with commas between them and any
    blanks around them, and parsing the text, gives the names back, in
    order. *)
Theorem parseArgs_round_trip (fields : list (string * string * string))
    (Hne : fields <> [])
    (Hfields : Forall paddedName fields) :
  parseArgs (String.concat "," (map fieldText fields))
  = map (fun f => f.1.2) fields.
Proof. now apply parseArgs_padded_fields. Qed.

Lemma parseArgs_round_trip_witness :
  parseArgs (String.concat "," (map fieldText [("", "K", ""); (" ", "V", "  ")]))
  = ["K"; "V"].
Proof.
  apply (parseArgs_round_trip [("", "K", ""); (" ", "V", "  ")]).
  - discriminate.
  - repeat constructor.
Defined.

Section Trimming.
Import GoString.
Local Open Scope list_scope.

Lemma DecodeRune_width (l : list N) :
  l <> [] -> 1 <= snd (utf8.DecodeRune l).
Proof.
  destruct l as [|b0 t]; [congruence|]. intros _. unfold utf8.DecodeRune.
  repeat match goal with
         | |- context [if ?b then _ else _] => destruct b
         | |- context [match ?x with [] => _ | _ :: _ => _ end] => destruct x
         end; cbn; lia.
Qed.

Lemma DecodeLastRune_width (rl : list N) :
  rl <> [] -> 1 <= snd (strings.DecodeLastRune rl).
Proof.
  destruct rl as [|l before]; [congruence|]. intros _.
  unfold strings.DecodeLastRune.
  repeat match goal with
         | |- context [if ?b then _ else _] => destruct b eqn:?
         | |- context [match ?x with [] => _ | _ :: _ => _ end] => destruct x
         | |- context [let '(_, _) := ?p in _] => destruct p eqn:?
         end; cbn; try lia.
  all: match goal with H : Nat.eqb _ _ = true |- _ => apply Nat.eqb_eq in H; lia end.
Qed.

Lemma trimLeft_drop (fuel : nat) (l : list N) :
  exists k, strings.trimLeft fuel l = drop k l.
Proof.
  revert l; induction fuel as [|fuel IH]; intros l; [now exists 0|].
  cbn [strings.trimLeft]. destruct l as [|b t]; [now exists 0|].
  destruct (utf8.DecodeRune (b :: t)) as [r wid].
  destruct (unicode.IsSpace r); [|now exists 0].
  destruct (IH (drop wid (b :: t))) as [k ->]. exists (wid + k).
  apply drop_drop.
Qed.

Lemma trimRight_drop (fuel : nat) (l : list N) :
  exists k, strings.trimRight fuel l = drop k l.
Proof.
  revert l; induction fuel as [|fuel IH]; intros l; [now exists 0|].
  cbn [strings.trimRight]. destruct l as [|b t]; [now exists 0|].
  destruct (strings.DecodeLastRune (b :: t)) as [r wid].
  destruct (unicode.IsSpace r); [|now exists 0].
  destruct (IH (drop wid (b :: t))) as [k ->]. exists (wid + k).
  apply drop_drop.
Qed.

Lemma trimLeft_solid (fuel : nat) (l : list N) :
  length l <= fuel -> startsSolid (strings.trimLeft fuel l) = true.
Proof.
  revert l; induction fuel as [|fuel IH]; intros l Hf.
  - destruct l; [reflexivity | simpl in Hf; lia].
  - cbn [strings.trimLeft]. destruct l as [|b t]; [reflexivity|].
    pose proof (DecodeRune_width (b :: t) ltac:(discriminate)) as Hw.
    destruct (utf8.DecodeRune (b :: t)) as [r wid] eqn:E. cbn [snd] in Hw.
    destruct (unicode.IsSpace r) eqn:Er.
    + apply IH. rewrite length_drop. simpl in *. lia.
    + unfold startsSolid. rewrite E. cbn [fst]. now rewrite Er.
Qed.

Lemma trimRight_solid (fuel : nat) (l : list N) :
  length l <= fuel -> endsSolid (strings.trimRight fuel l) = true.
Proof.
  revert l; induction fuel as [|fuel IH]; intros l Hf.
  - destruct l; [reflexivity | simpl in Hf; lia].
  - cbn [strings.trimRight]. destruct l as [|b t]; [reflexivity|].
    pose proof (DecodeLastRune_width (b :: t) ltac:(discriminate)) as Hw.
    destruct (strings.DecodeLastRune (b :: t)) as [r wid] eqn:E. cbn [snd] in Hw.
    destruct (unicode.IsSpace r) eqn:Er.
    + apply IH. rewrite length_drop. simpl in *. lia.
    + unfold endsSolid. rewrite E. cbn [fst]. now rewrite Er.
Qed.

Lemma of_bytes_map (cs : list ascii) :
  of_bytes (map byte_of cs) = string_of_list_ascii cs.
Proof.
  induction cs as [|c cs IH]; [reflexivity|]. simpl.
  unfold byte_of at 1. now rewrite ascii_N_embedding, IH.
Qed.

(** A rune that starts with an ASCII blank is white space. *)
Lemma startsSolid_ascii (c : ascii) (t : list N) :
  startsSolid (byte_of c :: t) = true -> asciiSpace c = false.
Proof.
  destruct (asciiSpace c) eqn:E; [|reflexivity].
  destruct (asciiSpace_cases c E) as (Hlt & Hsp & _).
  cbn [startsSolid utf8.DecodeRune]. apply N.ltb_lt in Hlt.
  rewrite Hlt. cbn [fst]. now rewrite Hsp.
Qed.

Lemma endsSolid_ascii (c : ascii) (t : list N) :
  endsSolid (byte_of c :: t) = true -> asciiSpace c = false.
Proof.
  destruct (asciiSpace c) eqn:E; [|reflexivity].
  destruct (asciiSpace_cases c E) as (Hlt & Hsp & _).
  cbn [endsSolid strings.DecodeLastRune]. apply N.ltb_lt in Hlt.
  rewrite Hlt. cbn [fst]. now rewrite Hsp.
Qed.

(** What [strings.TrimSpace] returns: a piece of the text that neither
    starts nor ends with an ASCII blank. *)
Lemma TrimSpace_piece (s : string) :
  exists pre post,
    s = (pre ++ strings.TrimSpace s ++ post)%string
    /\ stops asciiSpace (strings.TrimSpace s) = true
    /\ stops asciiSpace (Regexp.reverse (strings.TrimSpace s)) = true.
Proof.
  unfold strings.TrimSpace.
  set (chars := list_ascii_of_string s).
  change (utf8.bytes s) with (map byte_of chars).
  pose proof (trimLeft_solid (length (map byte_of chars)) (map byte_of chars)
                (le_n _)) as HL.
  destruct (trimLeft_drop (length (map byte_of chars)) (map byte_of chars))
    as [k1 E1].
  rewrite E1 in HL |- *. rewrite skipn_map in HL |- *.
  set (D := drop k1 chars) in *.
  pose proof (trimRight_solid (length (map byte_of D)) (rev (map byte_of D))
                ltac:(rewrite length_rev; lia)) as HR.
  destruct (trimRight_drop (length (map byte_of D)) (rev (map byte_of D)))
    as [k2 E2].
  rewrite E2 in HR |- *. rewrite <- map_rev, skipn_map in HR |- *.
  rewrite <- map_rev, of_bytes_map.
  set (cs := rev (drop k2 (rev D))).
  assert (HD : D = cs ++ rev (take k2 (rev D))).
  { unfold cs. rewrite <- rev_app_distr, take_drop. now rewrite rev_involutive. }
  exists (string_of_list_ascii (take k1 chars)),
         (string_of_list_ascii (rev (take k2 (rev D)))).
  split; [|split].
  - rewrite <- !string_of_list_app, <- HD. unfold D. rewrite take_drop.
    unfold chars. now rewrite string_of_list_ascii_of_string.
  - destruct cs as [|c cs'] eqn:Ecs; [reflexivity|].
    cbn [string_of_list_ascii stops]. apply negb_true_iff.
    rewrite HD in HL. cbn [app map] in HL.
    now apply startsSolid_ascii in HL.
  - unfold Regexp.reverse. rewrite list_ascii_of_string_of_list_ascii.
    unfold cs. rewrite rev_involutive.
    destruct (drop k2 (rev D)) as [|c r] eqn:Er; [reflexivity|].
    cbn [string_of_list_ascii stops]. apply negb_true_iff.
    cbn [map] in HR. now apply endsSolid_ascii in HR.
Qed.

Definition pieceOf (s f : string) : Prop :=
  exists pre post, s = (pre ++ f ++ post)%string.

Lemma SplitByte_pieces (s : string) (sep : ascii) :
  exists fld rest post,
    SplitByte s sep = fld :: rest
    /\ s = (fld ++ post)%string /\ countByte sep fld = 0
    /\ Forall (fun f => countByte sep f = 0 /\ pieceOf s f) rest.
Proof.
  induction s as [|c s (fld & rest & post & E & Hs & Hc & Hrest)]; simpl.
  - exists "", [], "". repeat split. constructor.
  - assert (Hshift : forall f, pieceOf s f -> pieceOf (String c s) f).
    { intros f (pre & post' & ->). now exists (String c pre), post'. }
    destruct (Ascii.eqb c sep) eqn:Ec.
    + exists "", (SplitByte s sep), (String c s). repeat split.
      rewrite E. constructor.
      * split; [exact Hc|]. apply Hshift. exists "", post. exact Hs.
      * eapply List.Forall_impl; [|exact Hrest]. cbn. intros f [? ?]. auto.
    + rewrite E. exists (String c fld), rest, post. repeat split.
      * simpl. now rewrite <- Hs.
      * simpl. now rewrite Ec.
      * eapply List.Forall_impl; [|exact Hrest]. cbn. intros f [? ?]. auto.
Qed.

End Trimming.

(** X8. Every parameter [parseArgs] returns is a piece of the text, has no
    comma in it, and neither starts nor ends with an ASCII blank. *)
Theorem parseArgs_parameters (s : string) :
  Forall (fun arg =>
            pieceOf s arg /\ countByte "," arg = 0
            /\ stops asciiSpace arg = true
            /\ stops asciiSpace (Regexp.reverse arg) = true)
         (parseArgs s).
Proof.
  rewrite parseArgs_fields.
  assert (Hall : Forall (fun f => countByte "," f = 0 /\ pieceOf s f)
                        (GoString.SplitByte s ",")).
  { destruct (SplitByte_pieces s ",") as (fld & rest & post & -> & Hs & Hc & Hr).
    constructor; [|exact Hr]. split; [exact Hc|]. now exists "", post. }
  apply Forall_map. eapply List.Forall_impl; [|exact Hall]. cbn.
  intros f [Hc (pre & post & ->)].
  destruct (TrimSpace_piece f) as (p1 & p2 & Hf & Hl & Hr).
  split; [|split; [|split; assumption]].
  - exists (pre ++ p1), (p2 ++ post). rewrite Hf at 1.
    now rewrite !append_assoc.
  - rewrite Hf, !countByte_app in Hc. lia.
Qed.

(** ** The request on the command line: [parseTemplateAndArgs] *)

(** The fatal errors of the functions around [parse], which end the
    program before [parse] is called. *)
Inductive CliFatal : Type :=
| BadTemplateReplacementString (s : string).

(** [matchTemplateWithArgs], the regular expression
    [^(\w+)\((.*?)\)\s*$]: the two groups of a match. *)
Definition matchTemplateWithArgs (s : string) : option (string * string) :=
  let name := Regexp.takeWhile Regexp.isWord s in
  if Nat.eqb (GoString.len name) 0 then None
  else
    rest ← Regexp.lit "(" (GoString.slice_from (GoString.len name) s);
    params ← Regexp.lazyToClose rest;
    Some (name, params).

(** [parseTemplateAndArgs]; the left injection is [fatalf]. *)
Definition parseTemplateAndArgs (s : string)
    : CliFatal + (string * list string) :=
  match matchTemplateWithArgs s with
  | None => inl (BadTemplateReplacementString s)
  | Some (name, params) => inr (name, parseArgs params)
  end.

Section Request.
Import GoString.

Lemma matchTemplateWithArgs_sound (s name params : string) :
  matchTemplateWithArgs s = Some (name, params) ->
  exists ws, s = name ++ "(" ++ params ++ ")" ++ ws
             /\ every Regexp.isWord name = true /\ name <> ""
             /\ Regexp.hasNewline params = false
             /\ every Regexp.isSpace ws = true.
Proof.
  unfold matchTemplateWithArgs. intros H.
  destruct (takeWhile_split Regexp.isWord s) as (Hs & Hw & _).
  destruct (Nat.eqb (len (Regexp.takeWhile Regexp.isWord s)) 0) eqn:El;
    [discriminate H|].
  destruct (Regexp.lit "(" _) as [rest|] eqn:E1; [|discriminate H].
  apply lit_inv in E1. cbn [mbind option_bind] in H.
  destruct (Regexp.lazyToClose rest) as [ps|] eqn:E2; [|discriminate H].
  apply lazyToClose_inv in E2 as (ws & -> & Hp & H4).
  cbn [mbind option_bind] in H. injection H as <- <-.
  exists ws. repeat split; try assumption.
  - rewrite Hs at 1. now rewrite E1.
  - intros Hz. rewrite Hz in El. discriminate El.
Qed.

Lemma matchTemplateWithArgs_complete (name params ws : string) :
  every Regexp.isWord name = true -> name <> "" ->
  Regexp.hasNewline params = false -> every Regexp.isSpace ws = true ->
  matchTemplateWithArgs (name ++ "(" ++ params ++ ")" ++ ws)
  = Some (name, params).
Proof.
  intros Hw Hn Hp Hs. unfold matchTemplateWithArgs.
  rewrite takeWhile_app by (assumption || reflexivity).
  replace (Nat.eqb (len name) 0) with false
    by (destruct name; [congruence | reflexivity]).
  rewrite slice_from_app_len, lit_app. cbn [mbind option_bind].
  now rewrite lazyToClose_app.
Qed.

Lemma countByte_slash_word (s : string) :
  every Regexp.isWord s = true -> countByte "/" s = 0.
Proof.
  induction s as [|c s IH]; [reflexivity|]. simpl. intros H.
  apply andb_true_iff in H as [Hc Hs]. rewrite (IH Hs).
  replace (Ascii.eqb c "/") with false; [reflexivity|].
  revert Hc. destruct c as [[] [] [] [] [] [] [] []]; vm_compute; intros H;
    first [reflexivity | discriminate H].
Qed.

End Request.

(** X9. A request of the form [Name(a, b, ...)], with a name of word
    characters, names of word characters as arguments, any blanks around the
    arguments that are not newlines, and white space after the closing
    parenthesis, is accepted and gives the name and the arguments. *)
Theorem parseTemplateAndArgs_round_trip
    (name ws : string) (fields : list (string * string * string))
    (Hname : every Regexp.isWord name = true)
    (Hne : name <> "")
    (Hfields : Forall paddedName fields)
    (Hsome : fields <> [])
    (Hline : Regexp.hasNewline (String.concat "," (map fieldText fields)) = false)
    (Hws : every Regexp.isSpace ws = true) :
  parseTemplateAndArgs
    (name ++ "(" ++ String.concat "," (map fieldText fields) ++ ")" ++ ws)
  = inr (name, map (fun f => f.1.2) fields).
Proof.
  unfold parseTemplateAndArgs.
  rewrite matchTemplateWithArgs_complete by assumption.
  now rewrite parseArgs_padded_fields.
Qed.

Lemma parseTemplateAndArgs_round_trip_witness :
  parseTemplateAndArgs
    ("Map" ++ "(" ++ String.concat "," (map fieldText [("", "string", ""); (" ", "int", "")])
       ++ ")" ++ " ")
  = inr ("Map", ["string"; "int"]).
Proof.
  apply (parseTemplateAndArgs_round_trip "Map" " "
           [("", "string", ""); (" ", "int", "")]);
    try reflexivity; try discriminate.
  repeat constructor.
Defined.

(** X10. When a request is accepted, the instantiation name is a non-empty
    word, there is at least one argument, and the name of the output file
    has no path separator in it: the file is created in the current
    directory. *)
Theorem parseTemplateAndArgs_name
    (s name : string) (args : list string)
    (Hok : parseTemplateAndArgs s = inr (name, args)) :
  every Regexp.isWord name = true /\ name <> ""
  /\ 1 <= length args
  /\ countByte "/" (outputFileName name) = 0.
Proof.
  unfold parseTemplateAndArgs in Hok.
  destruct (matchTemplateWithArgs s) as [[n params]|] eqn:E; [|discriminate Hok].
  injection Hok as -> <-.
  apply matchTemplateWithArgs_sound in E as (ws & _ & Hw & Hn & _ & _).
  repeat split; try assumption.
  - rewrite parseArgs_fields, length_map, SplitByte_length. lia.
  - unfold outputFileName. rewrite !countByte_app, (countByte_slash_word _ Hw).
    reflexivity.
Qed.

Lemma parseTemplateAndArgs_name_witness :
  every Regexp.isWord "IntSet" = true /\ "IntSet" <> ""
  /\ 1 <= length (parseArgs "int")
  /\ countByte "/" (outputFileName "IntSet") = 0.
Proof.
  apply (parseTemplateAndArgs_name "IntSet(int)" "IntSet" (parseArgs "int")).
  reflexivity.
Defined.

(** ** The table of the formal parameters *)

Section MapArgs.
Local Open Scope list_scope.

Lemma find_snoc {A} (p : A -> bool) (l : list A) (x : A) :
  find p (l ++ [x])
  = match find p l with
    | Some y => Some y
    | None => if p x then Some x else None
    end.
Proof.
  induction l as [|a l IH]; cbn; [reflexivity|].
  destruct (p a); [reflexivity | exact IH].
Qed.

Lemma fold_insert_lookup (l : list (string * string))
    (m0 : gmap string string) (k : string) :
  fold_left (fun m kv => <[kv.1 := kv.2]> m) l m0 !! k
  = match find (fun kv => String.eqb kv.1 k) (rev l) with
    | Some kv => Some kv.2
    | None => m0 !! k
    end.
Proof.
  revert m0; induction l as [|x l IH]; intros m0; [reflexivity|].
  cbn [fold_left rev]. rewrite IH, find_snoc.
  destruct (find _ (rev l)); [reflexivity|].
  rewrite lookup_insert. destruct (String.eqb x.1 k) eqn:E.
  - apply String.eqb_eq in E. now rewrite decide_True.
  - apply String.eqb_neq in E. now rewrite decide_False.
Qed.

End MapArgs.

(** X11. The table that maps the formal parameters to the caller's
    arguments pairs them by position; a parameter that is listed more than
    once gets the argument of its last position, and a name that is no
    formal parameter has no entry. *)
Theorem mapArgs_lookup (templateArgs args : list string) (k : string) :
  mapArgs templateArgs args !! k
  = option_map snd
      (find (fun kv => String.eqb kv.1 k) (rev (zip templateArgs args))).
Proof.
  unfold mapArgs. rewrite fold_insert_lookup.
  now destruct (find _ (rev (zip templateArgs args))).
Qed.

Section MapArgsPositional.
Local Open Scope list_scope.

Lemma find_unique_key (l : list (string * string)) (k v : string) :
  NoDup (map fst l) -> In (k, v) l ->
  find (fun kv => String.eqb kv.1 k) l = Some (k, v).
Proof.
  induction l as [|[k' v'] l IH]; [intros _ []|]. cbn [map fst].
  intros Hnd [Heq|Hin].
  - injection Heq as -> ->. cbn. now rewrite String.eqb_refl.
  - apply NoDup_cons in Hnd as [Hnotin Hnd].
    cbn. destruct (String.eqb k' k) eqn:E.
    + apply String.eqb_eq in E. subst k'. exfalso. apply Hnotin.
      apply list_elem_of_In. apply (in_map fst) in Hin. exact Hin.
    + now apply IH.
Qed.

Lemma zip_keys (a b : list string) (k : string) :
  In k (map fst (zip a b)) -> In k a.
Proof.
  revert b; induction a as [|x a IH]; intros [|y b]; cbn; try tauto.
  intros [->|H]; [now left | right; now apply (IH b)].
Qed.

Lemma zip_keys_NoDup (a b : list string) :
  NoDup a -> NoDup (map fst (zip a b)).
Proof.
  revert b; induction a as [|x a IH]; intros [|y b] H; cbn; try constructor.
  - apply NoDup_cons in H as [Hx _]. intros Hin. apply Hx.
    apply list_elem_of_In. apply (zip_keys a b). now apply list_elem_of_In.
  - apply IH. now apply NoDup_cons in H as [_ H].
Qed.

Lemma zip_lookup_In (a b : list string) (i : nat) (k v : string) :
  a !! i = Some k -> b !! i = Some v -> In (k, v) (zip a b).
Proof.
  revert b i; induction a as [|x a IH]; intros [|y b] [|i]; cbn;
    try discriminate.
  - intros [= ->] [= ->]. now left.
  - intros Ha Hb. right. now apply (IH b i).
Qed.

End MapArgsPositional.

(** X12. With formal parameters that are all different, the parameter at a
    position is mapped to the argument at that position, and a name that is
    no formal parameter has no entry. *)
Theorem mapArgs_positional
    (templateArgs args : list string) (i : nat) (param arg other : string)
    (Hdistinct : NoDup templateArgs)
    (Hparam : templateArgs !! i = Some param)
    (Harg : args !! i = Some arg)
    (Hother : ~ In other templateArgs) :
  mapArgs templateArgs args !! param = Some arg
  /\ mapArgs templateArgs args !! other = None.
Proof.
  unfold mapArgs. rewrite !fold_insert_lookup. split.
  - rewrite (find_unique_key _ param arg); [reflexivity| |].
    + rewrite map_rev. apply NoDup_ListNoDup, List.NoDup_rev, NoDup_ListNoDup.
      now apply zip_keys_NoDup.
    + apply in_rev. rewrite rev_involutive. now apply (zip_lookup_In _ _ i).
  - destruct (find _ (rev (zip templateArgs args))) as [[k v]|] eqn:E;
      [|apply lookup_empty].
    exfalso. apply find_some in E as [Hin Hk]. cbn in Hk.
    apply String.eqb_eq in Hk. subst k. apply Hother.
    apply (zip_keys templateArgs args). apply in_rev in Hin.
    change other with (fst (other, v)). now apply in_map.
Qed.

Lemma mapArgs_positional_witness :
  mapArgs ["K"; "V"] ["string"; "int"] !! "V" = Some "int"
  /\ mapArgs ["K"; "V"] ["string"; "int"] !! "Map" = None.
Proof.
  apply (mapArgs_positional ["K"; "V"] ["string"; "int"] 1 "V" "int" "Map").
  - apply (bool_decide_unpack _). vm_compute. exact I.
  - reflexivity.
  - reflexivity.
  - cbn. intros [H|[H|[]]]; discriminate H.
Defined.

(** ** The new names *)

Section NewNames.
Import GoString.

Variable Upper : N -> bool.

Lemma append_empty (s : string) : s ++ "" = s.
Proof. induction s; simpl; congruence. Qed.

(** Under both rules the new name has the instantiation's name in it. *)
Lemma mangled_split (templateName tiName name : string) :
  exists pre post, mangled templateName tiName name = pre ++ tiName ++ post.
Proof.
  destruct (Contains name templateName) eqn:E.
  - destruct (Contains_first _ _ E) as (pre & post & Hf).
    exists pre, post. now apply mangled_rules.
  - exists name, "". rewrite append_empty. now apply mangled_rules.
Qed.

Lemma replacementName_nonempty (templateName tiName name : string) :
  tiName <> "" ->
  exists r, replacementName Upper templateName tiName name = Some r.
Proof.
  intros Hne. unfold replacementName. fold (mangled templateName tiName name).
  destruct (mangled_split templateName tiName name) as (pre & post & ->).
  destruct (negb _ && _); [|eauto].
  destruct pre as [|c pre]; [|cbn; eauto].
  destruct tiName as [|c ti]; [congruence | cbn; eauto].
Qed.

End NewNames.

(** X13. With a non-empty instantiation name, [addMapping] computes a
    replacement for every name, whatever the table of upper-case letters:
    the slice [replacementName[:1]] is never taken of an empty string. *)
Theorem addMapping_never_panics
    (Upper : N -> bool) (templateName tiName name : string)
    (mappings : gmap string string) (w : World)
    (Hne : tiName <> "") :
  exists r,
    addMapping Upper templateName tiName mappings name w
    = (Ret (<[name := r]> mappings), w).
Proof.
  destruct (replacementName_nonempty Upper templateName tiName name Hne)
    as [r Hr].
  exists r. unfold addMapping. now rewrite Hr.
Qed.

Lemma addMapping_never_panics_witness :
  exists r,
    addMapping (fun _ => true) "Set" "intSet" ∅ "" emptyWorld
    = (Ret (<["" := r]> ∅), emptyWorld).
Proof.
  apply (addMapping_never_panics (fun _ => true) "Set" "intSet" "" ∅ emptyWorld).
  discriminate.
Defined.

(** X14. With an instantiation name of word characters, as the command line
    gives it, every replacement has the instantiation name in it: after the
    change of the first byte too. *)
Theorem replacement_has_instantiation_name
    (Upper : N -> bool) (templateName tiName name : string)
    (Hword : every Regexp.isWord tiName = true)
    (Hne : tiName <> "") :
  exists r,
    replacementName Upper templateName tiName name = Some r
    /\ GoString.Contains r tiName = true.
Proof.
  unfold replacementName. fold (mangled templateName tiName name).
  destruct (mangled_split templateName tiName name) as (pre & post & Hm).
  rewrite Hm.
  assert (Hhere : GoString.Contains (pre ++ tiName ++ post) tiName = true)
    by (apply Contains_iff; now exists pre, post).
  destruct (negb (ast.IsExported Upper tiName)
            && ast.IsExported Upper (pre ++ tiName ++ post)) eqn:E;
    [|eauto].
  destruct pre as [|c pre].
  - exfalso. destruct tiName as [|c ti]; [congruence|].
    simpl in Hword. apply andb_true_iff in Hword as [Hc _].
    destruct (isWord_ascii c Hc) as (Hlt & _ & _). apply N.ltb_lt in Hlt.
    cbn [String.append] in E.
    rewrite !(IsExported_ascii Upper c) in E by assumption.
    now destruct ((65 <=? GoString.byte_of c)
                  && (GoString.byte_of c <=? 90))%N.
  - cbn [String.append]. eexists. split; [reflexivity|].
    apply Contains_iff. exists (strings.ToLower1 c ++ pre), post.
    now rewrite append_assoc.
Qed.

Lemma replacement_has_instantiation_name_witness :
  exists r,
    replacementName (fun _ => false) "Set" "intSet" "NewSet" = Some r
    /\ GoString.Contains r "intSet" = true.
Proof.
  apply (replacement_has_instantiation_name (fun _ => false) "Set" "intSet"
           "NewSet"); [reflexivity | discriminate].
Defined.

(** ** The loop over the names to mangle, in general *)

Section MangleLoopGeneral.

Variable Upper : N -> bool.
Variables templateName tiName : string.

(** The loop gives [k] a new name: [k] is in the list, and is the
    template's name or has no entry yet. *)
Definition renamed (names : list string) (m : gmap string string)
    (k : string) : bool :=
  mentions names k
  && (String.eqb k templateName || bool_decide (m !! k = None)).

Lemma mangle_step_Ret (found : bool) (m : gmap string string) (name : string)
    (w : World) (f' : bool) (m1 : gmap string string) (w' : World) :
  mangle Upper templateName tiName (found, m) name w = (Ret (f', m1), w') ->
  w' = w /\ f' = found || String.eqb name templateName
  /\ (renamed [name] m name = true ->
      exists r, replacementName Upper templateName tiName name = Some r)
  /\ forall k, m1 !! k
               = if renamed [name] m k
                 then replacementName Upper templateName tiName k
                 else m !! k.
Proof.
  unfold mangle, addMapping, bind, ret, panic, renamed, mentions.
  cbn [existsb]. rewrite String.eqb_refl. cbn [orb andb].
  assert (Hins : forall r,
             replacementName Upper templateName tiName name = Some r ->
             forall k cond,
               (String.eqb k name = true -> cond k = true) ->
               <[name := r]> m !! k
               = if (String.eqb k name || false) && cond k
                 then replacementName Upper templateName tiName k
                 else m !! k).
  { intros r Hr k cond Hc. rewrite lookup_insert, orb_false_r. case_decide as Hk.
    - subst k. rewrite String.eqb_refl. cbn. rewrite Hc by apply String.eqb_refl.
      now rewrite Hr.
    - replace (String.eqb k name) with false; [reflexivity|].
      symmetry. apply String.eqb_neq. congruence. }
  destruct (String.eqb name templateName) eqn:Ent.
  - destruct (replacementName Upper templateName tiName name) as [r|] eqn:Hr;
      [|discriminate].
    intros [= <- <- <-]. split; [reflexivity|].
    split; [now rewrite orb_true_r|]. split; [eauto|].
    intros k. apply (Hins r eq_refl k
                       (fun k => String.eqb k templateName
                                 || bool_decide (m !! k = None))).
    intros Hk. apply String.eqb_eq in Hk. subst k. now rewrite Ent.
  - destruct (m !! name) as [old|] eqn:El.
    + intros [= <- <- <-]. split; [reflexivity|].
      split; [now rewrite orb_false_r|]. split; [discriminate|].
      intros k. rewrite orb_false_r.
      destruct (String.eqb k name) eqn:Ekn; [|reflexivity].
      apply String.eqb_eq in Ekn. subst k. now rewrite Ent, El.
    + destruct (replacementName Upper templateName tiName name) as [r|] eqn:Hr;
        [|discriminate].
      intros [= <- <- <-]. split; [reflexivity|].
      split; [now rewrite orb_false_r|]. split; [eauto|].
      intros k. apply (Hins r eq_refl k
                         (fun k => String.eqb k templateName
                                   || bool_decide (m !! k = None))).
      intros Hk. apply String.eqb_eq in Hk. subst k. now rewrite El, orb_true_r.
Qed.

(** What the loop has done when it returns. *)
Lemma mangle_loop_Ret (names : list string) :
  forall (found : bool) (m : gmap string string) (w : World)
         (found' : bool) (m' : gmap string string) (w' : World),
    foldM (mangle Upper templateName tiName) names (found, m) w
    = (Ret (found', m'), w') ->
    w' = w /\ found' = found || mentions names templateName
    /\ (forall k, renamed names m k = true ->
                  exists r, replacementName Upper templateName tiName k = Some r)
    /\ forall k, m' !! k
                 = if renamed names m k
                   then replacementName Upper templateName tiName k
                   else m !! k.
Proof.
  induction names as [|name rest IH]; intros found m w found' m' w' H.
  - cbn in H. unfold ret in H. injection H as <- <- <-.
    split; [reflexivity|]. split; [now rewrite orb_false_r|].
    split; [discriminate | reflexivity].
  - cbn [foldM] in H. unfold bind in H.
    destruct (mangle Upper templateName tiName (found, m) name w)
      as [[[f1 m1]|n|] w1] eqn:E; try discriminate H.
    apply mangle_step_Ret in E as (-> & -> & Hsome1 & Hm1).
    apply IH in H as (-> & -> & Hsome & Hm').
    assert (Hcond : forall k, String.eqb k name = false ->
                              renamed rest m1 k = renamed rest m k).
    { intros k Hk. unfold renamed. rewrite Hm1. unfold renamed, mentions.
      cbn [existsb]. now rewrite Hk. }
    assert (Hsplit : forall k, renamed (name :: rest) m k
                               = renamed [name] m k || renamed rest m k).
    { intros k. unfold renamed, mentions. cbn [existsb].
      destruct (String.eqb k name), (existsb (String.eqb k) rest),
        (String.eqb k templateName || bool_decide (m !! k = None)); reflexivity. }
    split; [reflexivity|]. split; [|split].
    + cbn [mentions existsb]. rewrite (String.eqb_sym templateName name).
      now rewrite orb_assoc.
    + intros k Hk. rewrite Hsplit in Hk. apply orb_true_iff in Hk as [Hk|Hk].
      * assert (k = name) as ->; [|now apply Hsome1].
        unfold renamed, mentions in Hk. cbn [existsb] in Hk.
        rewrite orb_false_r in Hk. apply andb_true_iff in Hk as [Hk _].
        now apply String.eqb_eq in Hk.
      * destruct (String.eqb k name) eqn:Ekn.
        -- apply String.eqb_eq in Ekn. subst k. apply Hsome1.
           unfold renamed, mentions in Hk |- *. cbn [existsb].
           rewrite String.eqb_refl. cbn [orb andb].
           apply andb_true_iff in Hk as [_ Hk]. exact Hk.
        -- apply Hsome. now rewrite Hcond.
    + intros k. rewrite Hm', Hm1, Hsplit.
      destruct (String.eqb k name) eqn:Ekn.
      * destruct (renamed [name] m k) eqn:E1; cbn [orb].
        -- now destruct (renamed rest m1 k).
        -- unfold renamed in E1 |- *. unfold mentions in E1. cbn [existsb] in E1.
           rewrite Ekn in E1. cbn [orb andb] in E1. rewrite E1.
           rewrite andb_false_r.
           replace (mentions rest k && _) with false; [reflexivity|].
           symmetry. apply andb_false_iff. right.
           rewrite Hm1. unfold renamed, mentions. cbn [existsb].
           rewrite Ekn. cbn [orb andb]. now rewrite E1.
      * rewrite (Hcond k Ekn).
        replace (renamed [name] m k) with false; [reflexivity|].
        unfold renamed, mentions. cbn [existsb]. now rewrite Ekn.
Qed.

End MangleLoopGeneral.

Lemma mentions_In (names : list string) (k : string) :
  mentions names k = true <-> In k names.
Proof.
  unfold mentions. rewrite existsb_exists. split.
  - intros (x & Hin & Hx). apply String.eqb_eq in Hx. now subst x.
  - intros Hin. exists k. split; [exact Hin | apply String.eqb_refl].
Qed.

(** X15. When the loop over the names returns, its flag [found] says
    whether the template's own name is among the names: the run goes on
    exactly when the annotation names something the file declares. *)
Theorem found_iff_template_declared
    (Upper : N -> bool) (templateName tiName : string) (names : list string)
    (m0 m : gmap string string) (w w' : World) (found : bool)
    (Hrun : foldM (mangle Upper templateName tiName) names (false, m0) w
            = (Ret (found, m), w')) :
  w' = w /\ (found = true <-> In templateName names).
Proof.
  apply mangle_loop_Ret in Hrun as (-> & -> & _ & _).
  split; [reflexivity|]. cbn [orb]. apply mentions_In.
Qed.

Lemma found_iff_template_declared_witness :
  emptyWorld = emptyWorld /\ (true = true <-> In "Set" ["A"; "Set"; "NewSet"]).
Proof.
  apply (found_iff_template_declared (fun _ => false) "Set" "IntSet"
           ["A"; "Set"; "NewSet"] (mapArgs ["A"] ["Set"])
           setOfSetMappings emptyWorld emptyWorld true).
  reflexivity.
Defined.

(** X16. First registration wins, except for the template's name. When the
    loop returns, a name that had an entry before the loop (a formal
    parameter, mapped to the caller's argument) and is not the template's
    name keeps that entry, also when the file declares it; the template's
    name, when the file declares it, gets its computed replacement even if
    it is a formal parameter too. *)
Theorem first_registration_wins
    (Upper : N -> bool) (templateName tiName : string) (names : list string)
    (m0 m : gmap string string) (w w' : World) (found : bool)
    (Hrun : foldM (mangle Upper templateName tiName) names (false, m0) w
            = (Ret (found, m), w')) :
  (forall k v, k <> templateName -> m0 !! k = Some v -> m !! k = Some v)
  /\ (In templateName names ->
      m !! templateName = replacementName Upper templateName tiName templateName).
Proof.
  apply mangle_loop_Ret in Hrun as (_ & _ & _ & Hm). split.
  - intros k v Hk Hv. rewrite Hm. unfold renamed.
    apply String.eqb_neq in Hk. rewrite Hk, Hv. cbn [orb].
    rewrite bool_decide_eq_false_2 by discriminate.
    now rewrite andb_false_r.
  - intros Hin. rewrite Hm. unfold renamed.
    apply mentions_In in Hin. now rewrite Hin, String.eqb_refl.
Qed.

Lemma first_registration_wins_witness :
  (forall k v, k <> "Set" -> mapArgs ["A"] ["Set"] !! k = Some v ->
               setOfSetMappings !! k = Some v)
  /\ (In "Set" ["A"; "Set"; "NewSet"] ->
      setOfSetMappings !! "Set"
      = replacementName (fun _ => false) "Set" "IntSet" "Set").
Proof.
  apply (first_registration_wins (fun _ => false) "Set" "IntSet"
           ["A"; "Set"; "NewSet"] (mapArgs ["A"] ["Set"])
           setOfSetMappings emptyWorld emptyWorld true).
  reflexivity.
Defined.

(** X17. When the loop returns, the mapping has an entry for exactly the
    names that had one before (the formal parameters) and the names of the
    list (the top-level names the classifier registered): nothing else is
    ever renamed. *)
Theorem mapping_keys
    (Upper : N -> bool) (templateName tiName : string) (names : list string)
    (m0 m : gmap string string) (w w' : World) (found : bool)
    (Hrun : foldM (mangle Upper templateName tiName) names (false, m0) w
            = (Ret (found, m), w')) :
  forall k, m !! k = None <-> (m0 !! k = None /\ ~ In k names).
Proof.
  apply mangle_loop_Ret in Hrun as (_ & _ & Hsome & Hm).
  intros k. rewrite Hm. destruct (renamed templateName names m0 k) eqn:E.
  - destruct (Hsome k E) as [r ->]. split; [discriminate|].
    intros [_ Hnot]. exfalso. apply Hnot. apply mentions_In.
    unfold renamed in E. now apply andb_true_iff in E as [E _].
  - unfold renamed in E. split.
    + intros Hnone. split; [exact Hnone|]. intros Hin.
      apply mentions_In in Hin. rewrite Hin, Hnone in E.
      rewrite bool_decide_eq_true_2, orb_true_r in E by reflexivity.
      discriminate E.
    + tauto.
Qed.

Lemma mapping_keys_witness :
  setOfSetMappings !! "Add" = None
  <-> (mapArgs ["A"] ["Set"] !! "Add" = None
       /\ ~ In "Add" ["A"; "Set"; "NewSet"]).
Proof.
  refine (mapping_keys (fun _ => false) "Set" "IntSet"
            ["A"; "Set"; "NewSet"] (mapArgs ["A"] ["Set"])
            setOfSetMappings emptyWorld emptyWorld true _ "Add").
  reflexivity.
Defined.

(** ** The classifier on methods and on what it keeps *)

Section ClassifierMore.
Local Open Scope list_scope.

Definition isMethod (d : Decl) : bool :=
  match d with
  | FuncDecl (Some _) _ _ _ => true
  | _ => false
  end.

Lemma candidates_method_free (decls : list Decl) :
  flat_map candidates decls
  = flat_map candidates (List.filter (fun d => negb (isMethod d)) decls).
Proof.
  induction decls as [|d decls IH]; [reflexivity|]. cbn [flat_map List.filter].
  destruct (isMethod d) eqn:E; cbn [negb flat_map]; rewrite IH; [|reflexivity].
  destruct d as [| [] ? ? ? |]; try discriminate E. reflexivity.
Qed.

Lemma methods_kept (templateArgs : list string) (decls : list Decl) :
  List.filter isMethod (List.filter (fun d => negb (stub templateArgs d)) decls)
  = List.filter isMethod decls.
Proof.
  induction decls as [|d decls IH]; [reflexivity|]. cbn [List.filter].
  destruct (stub templateArgs d) eqn:Es; cbn [negb List.filter]; rewrite IH.
  - destruct d as [[] ? | [] ? ? ? |]; try discriminate Es; reflexivity.
  - reflexivity.
Qed.

Lemma filter_sublist {A} (p : A -> bool) (l : list A) :
  sublist (List.filter p l) l.
Proof.
  induction l as [|x l IH]; cbn; [constructor|].
  destruct (p x); now constructor.
Qed.

Lemma filter_lengths {A} (p : A -> bool) (l : list A) :
  length (List.filter p l) + length (List.filter (fun x => negb (p x)) l)
  = length l.
Proof.
  induction l as [|x l IH]; cbn; [reflexivity|].
  destruct (p x); cbn; lia.
Qed.

End ClassifierMore.

(** X18. Methods are left alone. When the classifier returns, no method has
    registered a rename candidate, and the methods of the list it returns
    are those of the file, in order: a method is kept also when its name is
    a formal parameter. *)
Theorem methods_untouched
    (templateArgs : list string) (decls : list Decl) (w w' : World)
    (names : list string) (newDecls : list Decl)
    (Hrun : classify templateArgs decls w = (Ret (names, newDecls), w')) :
  names = flat_map candidates (List.filter (fun d => negb (isMethod d)) decls)
  /\ List.filter isMethod newDecls = List.filter isMethod decls.
Proof.
  apply classify_Ret in Hrun as (_ & -> & ->).
  split; [apply candidates_method_free | apply methods_kept].
Qed.

Lemma methods_untouched_witness :
  List.filter isMethod
    (List.filter (fun d => negb (stub ["A"] d))
       [FuncDecl (Some [Ident "s"; Ident "Set"]) "A" (Tree "func" []) None;
        FuncDecl None "A" (Tree "func" []) None])
  = [FuncDecl (Some [Ident "s"; Ident "Set"]) "A" (Tree "func" []) None].
Proof.
  refine (proj2 (methods_untouched ["A"]
                   [FuncDecl (Some [Ident "s"; Ident "Set"]) "A" (Tree "func" []) None;
                    FuncDecl None "A" (Tree "func" []) None]
                   emptyWorld emptyWorld _ _ _)).
  vm_compute. reflexivity.
Defined.

(** X19. Only stubs are removed. When the classifier returns, every
    declaration that is not a type or a function without receiver named
    after a formal parameter is in the list it returns (a constant or a
    variable named after a formal parameter too); the list has the
    declarations in the order of the file, and it is shorter than the file's
    by the number of stubs. *)
Theorem only_stubs_removed
    (templateArgs : list string) (decls : list Decl) (w w' : World)
    (names : list string) (newDecls : list Decl)
    (Hrun : classify templateArgs decls w = (Ret (names, newDecls), w')) :
  (forall d, In d decls -> stub templateArgs d = false -> In d newDecls)
  /\ sublist newDecls decls
  /\ (length newDecls + length (List.filter (stub templateArgs) decls)
      = length decls)%nat.
Proof.
  apply classify_Ret in Hrun as (_ & _ & ->). split; [|split].
  - intros d Hin Hs. apply filter_In. split; [exact Hin | now rewrite Hs].
  - apply filter_sublist.
  - rewrite Nat.add_comm.
    apply (filter_lengths (stub templateArgs) decls).
Qed.

Lemma only_stubs_removed_witness :
  In (GenDecl token.VAR [ValueSpec ["A"] None []])
     (List.filter (fun d => negb (stub ["A"] d))
        [GenDecl token.TYPE [TypeSpec "A" (Ident "int")];
         GenDecl token.VAR [ValueSpec ["A"] None []]]).
Proof.
  refine (proj1 (only_stubs_removed ["A"]
                   [GenDecl token.TYPE [TypeSpec "A" (Ident "int")];
                    GenDecl token.VAR [ValueSpec ["A"] None []]]
                   emptyWorld emptyWorld _ _ _) _ _ _).
  - vm_compute. reflexivity.
  - cbn. tauto.
  - reflexivity.
Defined.

(** ** What a run does to the disk *)

Section Disk.

Definition keepsDisk {A} (m : M A) : Prop :=
  forall w o w', m w = (o, w') -> disk w' = disk w.

(** The computation leaves the disk alone, or it does not panic and has
    touched the one file [path]. *)
Definition writesOnly (path : string) {A} (m : M A) : Prop :=
  forall w o w',
    m w = (o, w') ->
    disk w' = disk w
    \/ (o <> Panic /\ exists content, disk w' = <[path := content]> (disk w)).

Lemma keepsDisk_ret {A} (a : A) : keepsDisk (ret a).
Proof. intros w o w' [= <- <-]. reflexivity. Qed.

Lemma keepsDisk_logf (msg : Msg) : keepsDisk (logf msg).
Proof. intros w o w' [= <- <-]. reflexivity. Qed.

Lemma keepsDisk_panic {A} : keepsDisk (@panic A).
Proof. intros w o w' [= <- <-]. reflexivity. Qed.

Lemma keepsDisk_fatalf {A} (msg : Msg) : keepsDisk (@fatalf A msg).
Proof. intros w o w' [= <- <-]. reflexivity. Qed.

Lemma keepsDisk_alloc (f : File) : keepsDisk (alloc f).
Proof. intros w o w' [= <- <-]. reflexivity. Qed.

Lemma keepsDisk_load (p : nat) : keepsDisk (load p).
Proof.
  intros w o w'. unfold load. destruct (heap w !! p); intros [= <- <-]; reflexivity.
Qed.

Lemma keepsDisk_store (p : nat) (f : File) : keepsDisk (store p f).
Proof.
  intros w o w'. unfold store. destruct (heap w !! p); intros [= <- <-]; reflexivity.
Qed.

Lemma keepsDisk_bind {A B} (m : M A) (k : A -> M B) :
  keepsDisk m -> (forall a, keepsDisk (k a)) -> keepsDisk (bind m k).
Proof.
  intros Hm Hk w o w'. unfold bind.
  destruct (m w) as [[a|n|] w1] eqn:E; intros H.
  - apply Hk in H. apply Hm in E. congruence.
  - injection H as <- <-. now apply Hm in E.
  - injection H as <- <-. now apply Hm in E.
Qed.

Lemma keepsDisk_foldM {A B} (body : A -> B -> M A) (l : list B) :
  (forall a x, keepsDisk (body a x)) -> forall a, keepsDisk (foldM body l a).
Proof.
  intros Hbody. induction l as [|x l IH]; intros a; cbn [foldM].
  - apply keepsDisk_ret.
  - apply keepsDisk_bind; [apply Hbody | exact IH].
Qed.

Lemma writesOnly_bind (path : string) {A B} (m : M A) (k : A -> M B) :
  keepsDisk m -> (forall a, writesOnly path (k a)) -> writesOnly path (bind m k).
Proof.
  intros Hm Hk w o w'. unfold bind.
  destruct (m w) as [[a|n|] w1] eqn:E; intros H.
  - apply Hk in H. apply Hm in E. rewrite E in H. exact H.
  - injection H as <- <-. left. now apply Hm in E.
  - injection H as <- <-. left. now apply Hm in E.
Qed.

Lemma keepsDisk_scanComments (inputFile : string) (comments : list (list string)) :
  keepsDisk (scanComments inputFile comments).
Proof.
  unfold scanComments. apply keepsDisk_foldM. intros st cg.
  apply keepsDisk_foldM. intros st' text. unfold scanComment.
  destruct (Regexp.FindStringSubmatch text) as [[name params]|];
    [|apply keepsDisk_ret].
  apply keepsDisk_bind; [|intros; apply keepsDisk_ret].
  destruct (negb _); [apply keepsDisk_fatalf | apply keepsDisk_ret].
Qed.

Lemma keepsDisk_classify (templateArgs : list string) (decls : list Decl) :
  keepsDisk (classify templateArgs decls).
Proof.
  unfold classify. apply keepsDisk_foldM. intros [names newDecls] d.
  intros w o w' H. rewrite classifyDecl_verdict in H.
  injection H as <- <-. reflexivity.
Qed.

Lemma keepsDisk_mangle (Upper : N -> bool) (templateName tiName : string)
    (names : list string) (st : bool * gmap string string) :
  keepsDisk (foldM (mangle Upper templateName tiName) names st).
Proof.
  apply keepsDisk_foldM. intros st' name w o w' H.
  destruct (mangle_pure Upper templateName tiName st' name) as [o' Ho].
  rewrite Ho in H. now injection H as <- <-.
Qed.

Lemma keepsDisk_rewriteAll
    (range : gmap string string -> list (string * string))
    (mappings : gmap string string) (p : nat) :
  keepsDisk (rewriteAll range mappings p).
Proof.
  unfold rewriteAll. apply keepsDisk_foldM. intros q kv.
  unfold Rewrite.rewriteFile.
  apply keepsDisk_bind; [apply keepsDisk_load | intros f].
  apply keepsDisk_bind; [apply keepsDisk_store | intros; apply keepsDisk_ret].
Qed.

Lemma writesOnly_output (format_Node : File -> option string)
    (ioutil_WriteFile : string -> string -> WriteResult) (p : nat) (path : string) :
  writesOnly path (outputFile format_Node ioutil_WriteFile p path ;;;
                   logf (Written path)).
Proof.
  intros w o w'. unfold bind, outputFile, bind, load, gofmtFile.
  destruct (heap w !! p) as [f|]; [|intros [= <- <-]; now left].
  destruct (format_Node f) as [source|]; [|intros [= <- <-]; now left].
  destruct (ioutil_WriteFile path source) as [| |n].
  - intros [= <- <-]. right. split; [discriminate | now exists source].
  - intros [= <- <-]. now left.
  - intros [= <- <-]. right. split; [discriminate|].
    now exists (GoString.slice_to n source).
Qed.

End Disk.

(** X20. A run touches no file but its own. Whatever the file, the
    request and the environment: a run that returns has written the file
    [gotemplate_<name>.go] and nothing else; a run that panics has left the
    disk as it was; a run that exits has left the disk as it was or, when
    the write failed after the file had been created or truncated, has left
    some content in that one file. *)
Theorem parse_touches_one_file
    (Upper : N -> bool) (parser_ParseFile : string -> option File)
    (format_Node : File -> option string)
    (ioutil_WriteFile : string -> string -> WriteResult)
    (range : gmap string string -> list (string * string))
    (ti : templateInstantiation.t) (inputFile : string) (w : World) :
  let '(o, w') :=
    parse Upper parser_ParseFile format_Node ioutil_WriteFile range ti inputFile w in
  match o with
  | Ret _ =>
      exists source,
        disk w' = <["gotemplate_" ++ ti_Name ti ++ ".go" := source]> (disk w)
  | Exit _ =>
      disk w' = disk w
      \/ exists content,
          disk w' = <["gotemplate_" ++ ti_Name ti ++ ".go" := content]> (disk w)
  | Panic => disk w' = disk w
  end.
Proof.
  destruct (parse Upper parser_ParseFile format_Node ioutil_WriteFile range ti
                  inputFile w) as [o w'] eqn:Hrun.
  assert (Hcase : disk w' = disk w
                  \/ (o <> Panic
                      /\ exists content,
                          disk w' = <[outputFileName (ti_Name ti) := content]> (disk w))).
  { revert Hrun. generalize w o w'. clear w o w'.
    change (writesOnly (outputFileName (ti_Name ti))
              (parse Upper parser_ParseFile format_Node ioutil_WriteFile range ti
                     inputFile)).
    unfold parse.
    apply writesOnly_bind.
    { unfold parseFile. destruct (parser_ParseFile inputFile);
        [apply keepsDisk_alloc | apply keepsDisk_fatalf]. }
    intros f. apply writesOnly_bind; [apply keepsDisk_load | intros file].
    apply writesOnly_bind; [apply keepsDisk_scanComments | intros [tn targs]].
    apply writesOnly_bind.
    { destruct (String.eqb tn ""); [apply keepsDisk_fatalf | apply keepsDisk_ret]. }
    intros _. apply writesOnly_bind.
    { destruct (negb _); [apply keepsDisk_fatalf | apply keepsDisk_ret]. }
    intros _. apply writesOnly_bind; [apply keepsDisk_classify | intros [names nd]].
    apply writesOnly_bind; [apply keepsDisk_store | intros _].
    apply writesOnly_bind; [apply keepsDisk_mangle | intros [found mappings]].
    apply writesOnly_bind.
    { destruct (negb found); [apply keepsDisk_fatalf | apply keepsDisk_ret]. }
    intros _. apply writesOnly_bind; [apply keepsDisk_rewriteAll | intros newFile].
    apply writesOnly_bind; [apply keepsDisk_load | intros file'].
    apply writesOnly_bind; [apply keepsDisk_store | intros _].
    apply writesOnly_output. }
  destruct o as [a|n|].
  - destruct a. apply parse_Ret in Hrun.
    destruct Hrun as (file & tn & targs & mappings & source & Hrest).
    exists source. apply Hrest.
  - destruct Hcase as [Hsame | [_ Hcontent]]; [now left | now right].
  - destruct Hcase as [Hsame | [Hne _]]; [exact Hsame | congruence].
Qed.

(** ** The run after the classifier *)

Section Endings.
Local Open Scope list_scope.

Variable Upper : N -> bool.
Variable parser_ParseFile : string -> option File.
Variable format_Node : File -> option string.
Variable ioutil_WriteFile : string -> string -> WriteResult.
Variable range : gmap string string -> list (string * string).

Lemma mangle_loop_total (templateName tiName : string) (names : list string) :
  tiName <> "" ->
  forall st, exists st',
    forall w, foldM (mangle Upper templateName tiName) names st w = (Ret st', w).
Proof.
  intros Hne. induction names as [|name rest IH]; intros st.
  - exists st. reflexivity.
  - assert (Hstep : exists st1, forall w,
               mangle Upper templateName tiName st name w = (Ret st1, w)).
    { destruct st as [found m]. unfold mangle, addMapping, bind, ret.
      destruct (replacementName_nonempty Upper templateName tiName name Hne)
        as [r ->].
      destruct (String.eqb name templateName); [eauto|].
      destruct (m !! name); eauto. }
    destruct Hstep as [st1 H1]. destruct (IH st1) as [st' H'].
    exists st'. intros w. cbn [foldM]. unfold bind. now rewrite H1, H'.
Qed.

(** The run from the classifier on, for a file with one annotation, as many
    arguments as parameters and declarations the classifier supports, given
    what the loop over the names returns. *)
Lemma parse_after_loop (ti : templateInstantiation.t) (inputFile : string)
    (w : World) (file : File) (templateName params : string)
    (found : bool) (mappings : gmap string string) :
  let templateArgs := parseArgs params in
  let newDecls :=
    List.filter (fun d => negb (stub templateArgs d)) (Decls file) in
  let msgs := flat_map (fun d => snd (verdict d)) (Decls file) in
  let out := outputTree range ti file newDecls mappings in
  let path := outputFileName (ti_Name ti) in
  parser_ParseFile inputFile = Some file ->
  annotations (concat (Comments file)) = [(templateName, params)] ->
  length templateArgs = length (ti_Args ti) ->
  forallb supported (Decls file) = true ->
  (forall w, foldM (mangle Upper templateName (ti_Name ti))
                   (flat_map candidates (Decls file))
                   (false, mapArgs templateArgs (ti_Args ti)) w
             = (Ret (found, mappings), w)) ->
  parse Upper parser_ParseFile format_Node ioutil_WriteFile range ti inputFile w
  = if found then
      match format_Node out with
      | None =>
          (Exit 1, mkWorld (log w ++ msgs ++ [FailedToOutput path])
                           (heap w ++ [out]) (disk w))
      | Some source =>
          match ioutil_WriteFile path source with
          | WriteOk =>
              (Ret tt, mkWorld (log w ++ msgs ++ [Written path])
                               (heap w ++ [out]) (<[path := source]> (disk w)))
          | OpenFailed =>
              (Exit 1, mkWorld (log w ++ msgs ++ [FailedToWrite path])
                               (heap w ++ [out]) (disk w))
          | WriteFailed n =>
              (Exit 1, mkWorld (log w ++ msgs ++ [FailedToWrite path])
                               (heap w ++ [out])
                               (<[path := GoString.slice_to n source]> (disk w)))
          end
      end
    else
      (Exit 1,
       mkWorld (log w ++ msgs ++ [NoDefinitionForTemplateType templateName])
               (heap w ++ [mkFile (Name file) newDecls (Comments file)])
               (disk w)).
Proof.
  intros templateArgs newDecls msgs out path Hparse Hone Hlen Hsup Hloop.
  unfold parse, parseFile. rewrite Hparse.
  unfold bind at 1. unfold alloc at 1. fold (parsed file w).
  unfold bind at 1. rewrite load_parsed.
  unfold bind at 1. unfold scanComments.
  rewrite foldM_concat, scan_annotations, Hone. cbn [fst andb length Nat.eqb].
  change (String.eqb "" "") with true. cbn [andb].
  fold templateArgs.
  replace (String.eqb templateName "") with false.
  2:{ symmetry. apply String.eqb_neq.
      assert (Hin : In (templateName, params)
                       (annotations (concat (Comments file))))
        by (rewrite Hone; now left).
      unfold annotations in Hin. apply in_flat_map in Hin as (text & _ & Hin).
      destruct (Regexp.FindStringSubmatch text) as [m|] eqn:E; [|destruct Hin].
      destruct Hin as [->|[]]. now apply annotation_name_nonempty in E. }
  apply Nat.eqb_eq in Hlen. rewrite Hlen. cbn [negb].
  unfold bind at 1. unfold ret at 1.
  unfold bind at 1. unfold ret at 1.
  unfold bind at 1. unfold classify.
  rewrite (classify_supported templateArgs) by assumption. cbn [app].
  fold newDecls. fold msgs.
  unfold bind at 1. unfold store at 1.
  cbn [heap addLog parsed log disk].
  rewrite list_lookup_middle by reflexivity.
  unfold bind at 1. rewrite Hloop. rewrite insert_last.
  destruct found; cbn [negb].
  - unfold bind at 1. unfold ret at 1.
    unfold bind at 1.
    erewrite rewriteAll_run by (cbn [heap]; apply list_lookup_middle; reflexivity).
    cbn [log heap disk]. rewrite insert_last.
    unfold bind at 1. unfold load at 1. cbn [heap].
    rewrite list_lookup_middle by reflexivity.
    unfold bind at 1. unfold store at 1. cbn [heap log disk].
    rewrite list_lookup_middle by reflexivity. rewrite insert_last.
    unfold bind at 1. unfold outputFile at 1.
    unfold bind at 1. unfold load at 1. cbn [heap].
    rewrite list_lookup_middle by reflexivity.
    fold (outputTree range ti file newDecls mappings). fold out. fold path.
    unfold gofmtFile.
    destruct (format_Node out) as [source|].
    + destruct (ioutil_WriteFile path source).
      * unfold logf. cbn [log heap disk]. now rewrite <- app_assoc.
      * unfold fatalf, bind, logf, os_Exit. cbn [log heap disk].
        now rewrite <- app_assoc.
      * unfold fatalf, bind, logf, os_Exit. cbn [log heap disk].
        now rewrite <- app_assoc.
    + unfold fatalf, bind, logf, os_Exit. cbn [log heap disk].
      now rewrite <- app_assoc.
  - unfold fatalf, bind, logf, os_Exit. cbn [log heap disk].
    now rewrite <- app_assoc.
Qed.

End Endings.

(** X21. The emitter's endings. For a file with one annotation, as many
    arguments as parameters, declarations the classifier supports, a
    declaration of the template's name and a non-empty instantiation name,
    the run builds the mapping (each registered name that is the template's
    name or no formal parameter has its computed replacement, every other
    key is as the parameters' table has it) and formats the rewritten tree.
    If formatting fails it logs "Failed to output" and exits with status 1,
    the disk as it was. If the file cannot be opened it logs "Failed to
    write" and exits with status 1, the disk as it was. If the write fails
    after [n] bytes it logs "Failed to write" and exits with status 1, and
    the file holds the first [n] bytes of the text. Otherwise the file holds
    the text, "Written" is logged and the run returns. In every case the
    log has the classifier's messages before the last one and the heap
    holds the rewritten tree. *)
Theorem parse_reaches_emitter
    (Upper : N -> bool) (parser_ParseFile : string -> option File)
    (format_Node : File -> option string)
    (ioutil_WriteFile : string -> string -> WriteResult)
    (range : gmap string string -> list (string * string))
    (ti : templateInstantiation.t) (inputFile : string) (w : World)
    (file : File) (templateName params : string)
    (Hparse : parser_ParseFile inputFile = Some file)
    (Hone : annotations (concat (Comments file)) = [(templateName, params)])
    (Hlen : length (parseArgs params) = length (ti_Args ti))
    (Hsup : forallb supported (Decls file) = true)
    (Hdecl : In templateName (flat_map candidates (Decls file)))
    (Hti : ti_Name ti <> "") :
  exists mappings,
    let names := flat_map candidates (Decls file) in
    let table := mapArgs (parseArgs params) (ti_Args ti) in
    let newDecls :=
      List.filter (fun d => negb (stub (parseArgs params) d)) (Decls file) in
    let msgs := flat_map (fun d => snd (verdict d)) (Decls file) in
    let out := outputTree range ti file newDecls mappings in
    let path := outputFileName (ti_Name ti) in
    (forall k,
        mappings !! k
        = if renamed templateName names table k
          then replacementName Upper templateName (ti_Name ti) k
          else table !! k)
    /\ parse Upper parser_ParseFile format_Node ioutil_WriteFile range ti
             inputFile w
       = match format_Node out with
         | None =>
             (Exit 1, mkWorld (log w ++ msgs ++ [FailedToOutput path])%list
                              (heap w ++ [out])%list (disk w))
         | Some source =>
             match ioutil_WriteFile path source with
             | WriteOk =>
                 (Ret tt, mkWorld (log w ++ msgs ++ [Written path])%list
                                  (heap w ++ [out])%list
                                  (<[path := source]> (disk w)))
             | OpenFailed =>
                 (Exit 1, mkWorld (log w ++ msgs ++ [FailedToWrite path])%list
                                  (heap w ++ [out])%list (disk w))
             | WriteFailed n =>
                 (Exit 1, mkWorld (log w ++ msgs ++ [FailedToWrite path])%list
                                  (heap w ++ [out])%list
                                  (<[path := GoString.slice_to n source]> (disk w)))
             end
         end.
Proof.
  destruct (mangle_loop_total Upper templateName (ti_Name ti)
              (flat_map candidates (Decls file)) Hti
              (false, mapArgs (parseArgs params) (ti_Args ti)))
    as [[found mappings] Hloop].
  pose proof (mangle_loop_Ret _ _ _ _ _ _ w _ _ _ (Hloop w)) as (_ & Hf & _ & Hm).
  apply mentions_In in Hdecl. rewrite Hdecl in Hf. cbn in Hf. subst found.
  exists mappings. cbn zeta. split; [exact Hm|].
  now rewrite (parse_after_loop Upper parser_ParseFile format_Node ioutil_WriteFile
                 range ti inputFile w file templateName params true mappings).
Qed.

Lemma parse_reaches_emitter_witness :
  exists mappings,
    (forall k,
        mappings !! k
        = if renamed "Set" (flat_map candidates (Decls setTemplate))
                     (mapArgs (parseArgs "A") ["int"]) k
          then replacementName (fun _ => false) "Set" "IntSet" k
          else mapArgs (parseArgs "A") ["int"] !! k)
    /\ parse (fun _ => false) (fun _ => Some setTemplate)
             (fun _ => Some "package mypkg") (fun _ _ => WriteFailed 7)
             map_to_list
             (templateInstantiation.mk "set" "IntSet" ["int"] "mypkg" ".")
             "set.go" emptyWorld
       = (Exit 1,
          mkWorld ([] ++ [] ++ [FailedToWrite "gotemplate_IntSet.go"])%list
            ([] ++ [outputTree map_to_list
                      (templateInstantiation.mk "set" "IntSet" ["int"] "mypkg" ".")
                      setTemplate
                      (List.filter (fun d => negb (stub (parseArgs "A") d))
                         (Decls setTemplate))
                      mappings])%list
            (<["gotemplate_IntSet.go" := "package"]> ∅)).
Proof.
  apply (parse_reaches_emitter (fun _ => false) (fun _ => Some setTemplate)
           (fun _ => Some "package mypkg") (fun _ _ => WriteFailed 7)
           map_to_list
           (templateInstantiation.mk "set" "IntSet" ["int"] "mypkg" ".")
           "set.go" emptyWorld setTemplate "Set" "A").
  - reflexivity.
  - reflexivity.
  - reflexivity.
  - reflexivity.
  - cbn. tauto.
  - discriminate.
Defined.

(** X22. When no constant, variable, type or function without receiver of
    the file has the template's name, the run ends after the classifier:
    it logs "No definition for template type" and exits with status 1. The
    heap then holds the file with its stubs removed, not yet rewritten, and
    the disk is as it was. *)
Theorem parse_without_definition
    (Upper : N -> bool) (parser_ParseFile : string -> option File)
    (format_Node : File -> option string) (ioutil_WriteFile : string -> string -> WriteResult)
    (range : gmap string string -> list (string * string))
    (ti : templateInstantiation.t) (inputFile : string) (w : World)
    (file : File) (templateName params : string)
    (Hparse : parser_ParseFile inputFile = Some file)
    (Hone : annotations (concat (Comments file)) = [(templateName, params)])
    (Hlen : length (parseArgs params) = length (ti_Args ti))
    (Hsup : forallb supported (Decls file) = true)
    (Hundecl : ~ In templateName (flat_map candidates (Decls file)))
    (Hti : ti_Name ti <> "") :
  parse Upper parser_ParseFile format_Node ioutil_WriteFile range ti inputFile w
  = (Exit 1,
     mkWorld (log w ++ flat_map (fun d => snd (verdict d)) (Decls file)
                ++ [NoDefinitionForTemplateType templateName])%list
             (heap w ++ [mkFile (Name file)
                           (List.filter
                              (fun d => negb (stub (parseArgs params) d))
                              (Decls file))
                           (Comments file)])%list
             (disk w)).
Proof.
  destruct (mangle_loop_total Upper templateName (ti_Name ti)
              (flat_map candidates (Decls file)) Hti
              (false, mapArgs (parseArgs params) (ti_Args ti)))
    as [[found mappings] Hloop].
  pose proof (mangle_loop_Ret _ _ _ _ _ _ w _ _ _ (Hloop w)) as (_ & Hf & _ & _).
  replace (mentions (flat_map candidates (Decls file)) templateName)
    with false in Hf.
  2:{ symmetry. apply not_true_is_false. intros H. apply Hundecl.
      now apply mentions_In. }
  cbn in Hf. subst found.
  now rewrite (parse_after_loop Upper parser_ParseFile format_Node ioutil_WriteFile
                 range ti inputFile w file templateName params false mappings).
Qed.

Lemma parse_without_definition_witness :
  parse (fun _ => false)
        (fun _ => Some (mkFile "set" (Decls setTemplate)
                          [["// template type Bag(A)"]]))
        (fun _ => Some "") (fun _ _ => WriteOk) map_to_list
        (templateInstantiation.mk "set" "IntBag" ["int"] "mypkg" ".")
        "set.go" emptyWorld
  = (Exit 1,
     mkWorld ([] ++ [] ++ [NoDefinitionForTemplateType "Bag"])%list
       ([] ++ [mkFile "set"
                 (List.filter (fun d => negb (stub (parseArgs "A") d))
                    (Decls setTemplate))
                 [["// template type Bag(A)"]]])%list ∅).
Proof.
  apply (parse_without_definition (fun _ => false)
           (fun _ => Some (mkFile "set" (Decls setTemplate)
                             [["// template type Bag(A)"]]))
           (fun _ => Some "") (fun _ _ => WriteOk) map_to_list
           (templateInstantiation.mk "set" "IntBag" ["int"] "mypkg" ".")
           "set.go" emptyWorld
           (mkFile "set" (Decls setTemplate) [["// template type Bag(A)"]])
           "Bag" "A").
  - reflexivity.
  - reflexivity.
  - reflexivity.
  - reflexivity.
  - cbn. intros [H|[H|[H|[]]]]; discriminate H.
  - discriminate.
Defined.

(** ** The rewrites one after the other, and all at once *)

Section Simultaneous.
Local Open Scope list_scope.
Import Rewrite.

(** The substitution [sigma] on every identifier of a tree, at once. *)
Fixpoint renameNode (sigma : string -> string) (n : Node) : Node :=
  match n with
  | Ident name => Ident (sigma name)
  | Lit text => Lit text
  | Tree kind children => Tree kind (map (renameNode sigma) children)
  end.

Definition renameSpec (sigma : string -> string) (sp : Spec) : Spec :=
  match sp with
  | ImportSpec name path => ImportSpec (option_map sigma name) path
  | ValueSpec names ty values =>
      ValueSpec (map sigma names) (option_map (renameNode sigma) ty)
                (map (renameNode sigma) values)
  | TypeSpec name ty => TypeSpec (sigma name) (renameNode sigma ty)
  end.

Definition renameDecl (sigma : string -> string) (d : Decl) : Decl :=
  match d with
  | GenDecl tok specs => GenDecl tok (map (renameSpec sigma) specs)
  | FuncDecl recv name ty body =>
      FuncDecl (option_map (map (renameNode sigma)) recv) (sigma name)
               (renameNode sigma ty) (option_map (renameNode sigma) body)
  | BadDecl => BadDecl
  end.

Definition renameFile (sigma : string -> string) (f : File) : File :=
  mkFile (sigma (Name f)) (map (renameDecl sigma) (Decls f)) (Comments f).

Lemma map_ext_Forall {A B} (f g : A -> B) (l : list A) :
  Forall (fun x => f x = g x) l -> map f l = map g l.
Proof. induction 1; cbn; congruence. Qed.

Lemma option_map_ext {A B} (f g : A -> B) (o : option A) :
  (forall x, f x = g x) -> option_map f o = option_map g o.
Proof. intros H. destruct o; cbn; congruence. Qed.

(** Two substitutions one after the other are their composition. *)
Lemma renameNode_compose (s1 s2 s : string -> string) (n : Node) :
  (forall x, s2 (s1 x) = s x) ->
  renameNode s2 (renameNode s1 n) = renameNode s n.
Proof.
  intros H. induction n as [name | text | kind children IH] using Node_induction;
    cbn; [now rewrite H | reflexivity |].
  f_equal. rewrite map_map. now apply map_ext_Forall.
Qed.

Lemma renameNodes_compose (s1 s2 s : string -> string) (l : list Node) :
  (forall x, s2 (s1 x) = s x) ->
  map (renameNode s2) (map (renameNode s1) l) = map (renameNode s) l.
Proof.
  intros H. rewrite map_map. apply map_ext. intros n.
  now apply renameNode_compose.
Qed.

Lemma renameOption_compose (s1 s2 s : string -> string) (o : option Node) :
  (forall x, s2 (s1 x) = s x) ->
  option_map (renameNode s2) (option_map (renameNode s1) o)
  = option_map (renameNode s) o.
Proof.
  intros H. destruct o; cbn; [|reflexivity].
  now rewrite (renameNode_compose s1 s2 s).
Qed.

Lemma renameSpec_compose (s1 s2 s : string -> string) (sp : Spec) :
  (forall x, s2 (s1 x) = s x) ->
  renameSpec s2 (renameSpec s1 sp) = renameSpec s sp.
Proof.
  intros H. destruct sp as [[name|] path | names ty values | name ty]; cbn.
  - now rewrite H.
  - reflexivity.
  - rewrite (renameOption_compose s1 s2 s), (renameNodes_compose s1 s2 s)
      by assumption.
    rewrite map_map. f_equal. apply map_ext. exact H.
  - now rewrite H, (renameNode_compose s1 s2 s).
Qed.

Lemma renameDecl_compose (s1 s2 s : string -> string) (d : Decl) :
  (forall x, s2 (s1 x) = s x) ->
  renameDecl s2 (renameDecl s1 d) = renameDecl s d.
Proof.
  intros H. destruct d as [tok specs | recv name ty body |]; cbn;
    [| |reflexivity].
  - f_equal. rewrite map_map. apply map_ext. intros sp.
    now apply renameSpec_compose.
  - rewrite H, (renameNode_compose s1 s2 s), (renameOption_compose s1 s2 s)
      by assumption.
    f_equal. destruct recv as [r|]; cbn; [|reflexivity].
    now rewrite (renameNodes_compose s1 s2 s).
Qed.

Lemma renameFile_compose (s1 s2 s : string -> string) (f : File) :
  (forall x, s2 (s1 x) = s x) ->
  renameFile s2 (renameFile s1 f) = renameFile s f.
Proof.
  intros H. unfold renameFile. cbn. rewrite H, map_map. f_equal.
  apply map_ext. intros d. now apply renameDecl_compose.
Qed.

(** One rewrite of the loop is the substitution of one name. *)
Lemma rewriteNode_rename (k v : string) (n : Node) :
  rewriteNode k v n = renameNode (subst1 k v) n.
Proof.
  induction n as [name | text | kind children IH] using Node_induction;
    cbn; try reflexivity.
  f_equal. now apply map_ext_Forall.
Qed.

Lemma rewritten_rename (k v : string) (f : File) :
  rewritten k v f = renameFile (subst1 k v) f.
Proof.
  unfold rewritten, renameFile. f_equal. apply map_ext. intros d.
  destruct d as [tok specs | recv name ty body |]; cbn; [| |reflexivity].
  - f_equal. apply map_ext. intros sp.
    destruct sp as [name path | names ty values | name ty]; cbn.
    + reflexivity.
    + f_equal; [|apply map_ext; intros; apply rewriteNode_rename].
      apply option_map_ext. apply rewriteNode_rename.
    + now rewrite rewriteNode_rename.
  - rewrite rewriteNode_rename. f_equal.
    + destruct recv; cbn; [|reflexivity]. f_equal. apply map_ext.
      apply rewriteNode_rename.
    + apply option_map_ext. apply rewriteNode_rename.
Qed.

Lemma renameNode_id (sigma : string -> string) (n : Node) :
  (forall x, sigma x = x) -> renameNode sigma n = n.
Proof.
  intros H. induction n as [name | text | kind children IH] using Node_induction;
    cbn; [now rewrite H | reflexivity |].
  f_equal. rewrite <- (map_id children) at 2. now apply map_ext_Forall.
Qed.

Lemma map_same {A} (f : A -> A) (l : list A) :
  (forall x, f x = x) -> map f l = l.
Proof. intros H. rewrite <- (map_id l) at 2. now apply map_ext. Qed.

Lemma renameFile_id (sigma : string -> string) (f : File) :
  (forall x, sigma x = x) -> renameFile sigma f = f.
Proof.
  intros H. destruct f as [name decls comments]. unfold renameFile. cbn.
  rewrite H. f_equal. apply map_same. intros d.
  assert (Hn : forall n, renameNode sigma n = n)
    by (intros n; now apply renameNode_id).
  assert (Ho : forall o, option_map (renameNode sigma) o = o)
    by (intros [n|]; cbn; [now rewrite Hn | reflexivity]).
  destruct d as [tok specs | recv name' ty body |]; cbn; [| |reflexivity].
  - f_equal. apply map_same. intros sp.
    destruct sp as [[n|] path | names ty values | n ty]; cbn;
      rewrite ?H, ?Hn, ?Ho, ?(map_same sigma), ?(map_same (renameNode sigma));
      auto.
  - rewrite H, Hn, Ho. f_equal. destruct recv as [r|]; cbn; [|reflexivity].
    now rewrite (map_same (renameNode sigma)).
Qed.

(** The rewrites of the loop, one after the other, are the substitution
    [substAll] of the names. *)
Lemma rewrittenAll_rename (l : list (string * string)) (f : File) :
  rewrittenAll l f = renameFile (substAll l) f.
Proof.
  revert f; induction l as [|[k v] l IH]; intros f.
  - cbn. symmetry. now apply renameFile_id.
  - change (rewrittenAll ((k, v) :: l) f) with (rewrittenAll l (rewritten k v f)).
    rewrite IH, rewritten_rename. now apply renameFile_compose.
Qed.

Lemma renameFile_ext (s1 s2 : string -> string) (f : File) :
  (forall x, s1 x = s2 x) -> renameFile s1 f = renameFile s2 f.
Proof.
  intros H. rewrite <- (renameFile_compose (fun x => x) s1 s2) by exact H.
  now rewrite (renameFile_id (fun x => x)).
Qed.

(** No replacement of the mapping is another key of it. *)
Definition chainFree (m : gmap string string) : Prop :=
  forall k v, m !! k = Some v -> v = k \/ m !! v = None.

Lemma substAll_key (l : list (string * string)) (k v : string) :
  NoDup (map fst l) -> In (k, v) l ->
  (forall k' v', In (k', v') l -> k' <> k -> k' <> v) ->
  substAll l k = v.
Proof.
  induction l as [|[k1 v1] l IH]; [intros _ []|]. cbn [map fst].
  intros Hnd Hin Hfree. apply NoDup_cons in Hnd as [Hk1 Hnd].
  change (substAll ((k1, v1) :: l) k) with (substAll l (subst1 k1 v1 k)).
  unfold subst1. destruct (String.eqb k k1) eqn:E.
  - apply String.eqb_eq in E. subst k1.
    assert (v1 = v) as ->.
    { destruct Hin as [[= ->]|Hin]; [reflexivity|]. exfalso. apply Hk1.
      apply list_elem_of_In. change k with (fst (k, v)). now apply in_map. }
    apply substAll_other. intros k' v' Hin'.
    apply (Hfree k' v'); [now right|].
    intros ->. apply Hk1. apply list_elem_of_In.
    change k with (fst (k, v')). now apply in_map.
  - apply String.eqb_neq in E. apply IH; [assumption| |].
    + destruct Hin as [[= -> ->]|Hin]; [congruence | exact Hin].
    + intros k' v' Hin'. apply (Hfree k' v'). now right.
Qed.

Lemma substAll_lookup (l : list (string * string)) (m : gmap string string)
    (x : string) :
  l ≡ₚ map_to_list m -> chainFree m ->
  substAll l x = default x (m !! x).
Proof.
  intros Hperm Hfree.
  assert (Hin : forall k v, In (k, v) l <-> m !! k = Some v).
  { intros k v. rewrite <- list_elem_of_In, Hperm. apply elem_of_map_to_list. }
  assert (Hnd : NoDup (map fst l)).
  { change (map fst l) with (l.*1). rewrite Hperm. apply NoDup_fst_map_to_list. }
  destruct (m !! x) as [v|] eqn:E; cbn.
  - apply substAll_key; [assumption | now apply Hin |].
    intros k' v' Hin' Hne Heq. subst k'. apply Hin in Hin'.
    destruct (Hfree x v E) as [Hsame|Hnone]; congruence.
  - apply substAll_other. intros k v Hkv ->. apply Hin in Hkv. congruence.
Qed.

End Simultaneous.

(** X23. When no replacement of the mapping is another key of it, the loop
    of rewrites has the effect of one simultaneous substitution, in
    whatever order [range] visits the mapping: every identifier that is a
    key becomes its replacement, every other identifier stays, and the
    order does not matter. (The single rewrite is the exact-name
    substitution the specification describes.) *)
Theorem rewrites_are_simultaneous
    (range : gmap string string -> list (string * string))
    (mappings : gmap string string) (p : nat) (w : World) (f : File)
    (Hrange : range mappings ≡ₚ map_to_list mappings)
    (Hfree : chainFree mappings)
    (Hfile : heap w !! p = Some f) :
  rewriteAll range mappings p w
  = (Ret p,
     mkWorld (log w)
             (<[p := renameFile (fun x => default x (mappings !! x)) f]> (heap w))
             (disk w)).
Proof.
  rewrite (rewriteAll_run range mappings p w f Hfile).
  rewrite rewrittenAll_rename.
  rewrite (renameFile_ext (substAll (range mappings))
             (fun x => default x (mappings !! x))); [reflexivity|].
  intros x. now apply substAll_lookup.
Qed.

Lemma rewrites_are_simultaneous_witness :
  rewriteAll (fun m => rev (map_to_list m)) {["Set" := "IntSet"; "A" := "int"]} 0
             (mkWorld [] [setUpFile] ∅)
  = (Ret 0,
     mkWorld []
       (<[0 := renameFile
                 (fun x => default x
                    (({["Set" := "IntSet"; "A" := "int"]} : gmap string string)
                       !! x))
                 setUpFile]> [setUpFile]) ∅).
Proof.
  apply (rewrites_are_simultaneous (fun m => rev (map_to_list m))
           {["Set" := "IntSet"; "A" := "int"]} 0 (mkWorld [] [setUpFile] ∅)
           setUpFile).
  - cbv beta. symmetry. apply Permutation_rev.
  - intros k v Hk. right.
    apply lookup_insert_Some in Hk as [[<- <-]|[_ Hk]]; [reflexivity|].
    apply lookup_singleton_Some in Hk as [<- <-]. reflexivity.
  - reflexivity.
Defined.

(** X24. A run that succeeds keeps every comment of the template in the
    tree it writes, the annotation among them, and writes as many
    declarations as the template has declarations that are not stubs. *)
Theorem successful_run_shape
    (Upper : N -> bool) (parser_ParseFile : string -> option File)
    (format_Node : File -> option string) (ioutil_WriteFile : string -> string -> WriteResult)
    (range : gmap string string -> list (string * string))
    (ti : templateInstantiation.t) (inputFile : string) (w w' : World)
    (Hrun : parse Upper parser_ParseFile format_Node ioutil_WriteFile range ti
                  inputFile w = (Ret tt, w')) :
  exists file out templateName params,
    parser_ParseFile inputFile = Some file
    /\ annotations (concat (Comments file)) = [(templateName, params)]
    /\ heap w' = (heap w ++ [out])%list
    /\ Comments out = Comments file
    /\ length (Decls out)
       = length (List.filter (fun d => negb (stub (parseArgs params) d))
                             (Decls file)).
Proof.
  pose proof (parse_Ret _ _ _ _ _ _ _ _ _ Hrun)
    as (file & tn & targs & mappings & source & Hpf & Hscan & _ & _ & _ & _
        & _ & Hh & _).
  unfold scanComments in Hscan. rewrite foldM_concat, scan_annotations in Hscan.
  destruct (annotations (concat (Comments file))) as [|[n p] rest] eqn:Ea.
  - exfalso.
    rewrite (parse_no_annotation_exit Upper parser_ParseFile format_Node
               ioutil_WriteFile range ti inputFile w file Hpf Ea) in Hrun.
    discriminate Hrun.
  - cbn [fst] in Hscan. change (String.eqb "" "") with true in Hscan.
    cbn [andb] in Hscan.
    destruct (Nat.eqb (length rest) 0) eqn:El; [|discriminate Hscan].
    destruct rest; [|discriminate El].
    injection Hscan as <- <-.
    eexists file, _, n, p. split; [exact Hpf|]. split; [exact Ea|].
    split; [exact Hh|]. unfold outputTree. cbn [Comments Decls].
    destruct (rewrittenAll_shape (range mappings)
                (mkFile (Name file)
                   (List.filter (fun d => negb (stub (parseArgs p) d)) (Decls file))
                   (Comments file))) as [Hc Hl].
    split; [exact Hc | exact Hl].
Qed.

Lemma successful_run_shape_witness :
  exists file out templateName params,
    Some setTemplate = Some file
    /\ annotations (concat (Comments file)) = [(templateName, params)]
    /\ heap (snd (parse (fun _ => false) (fun _ => Some setTemplate)
                        (fun _ => Some "") (fun _ _ => WriteOk) map_to_list
                        (templateInstantiation.mk "set" "IntSet" ["int"] "mypkg" ".")
                        "set.go" emptyWorld))
       = ([] ++ [out])%list
    /\ Comments out = Comments file
    /\ length (Decls out)
       = length (List.filter (fun d => negb (stub (parseArgs params) d))
                             (Decls file)).
Proof.
  apply (successful_run_shape (fun _ => false) (fun _ => Some setTemplate)
           (fun _ => Some "") (fun _ _ => WriteOk) map_to_list
           (templateInstantiation.mk "set" "IntSet" ["int"] "mypkg" ".")
           "set.go" emptyWorld).
  vm_compute. reflexivity.
Defined.

(** ** The declarations that are written *)

Section Written.
Local Open Scope list_scope.

(** The mapping a run builds: the table of the formal parameters, then
    the loop over the names to mangle. *)
Definition builtMappings (Upper : N -> bool) (templateName tiName : string)
    (names : list string) (table : gmap string string) : gmap string string :=
  match fst (foldM (mangle Upper templateName tiName) names (false, table)
                   emptyWorld) with
  | Ret (_, mappings) => mappings
  | _ => table
  end.

(** A constant, variable or type declaration, or a function without
    receiver. *)
Definition isNamedDecl (d : Decl) : bool :=
  match d with
  | GenDecl (token.CONST | token.VAR | token.TYPE) _ => true
  | FuncDecl None _ _ _ => true
  | _ => false
  end.

Lemma declNames_rename (sigma : string -> string) (d : Decl) :
  declNames (renameDecl sigma d) = map sigma (declNames d).
Proof.
  destruct d as [tok specs | recv name ty body |]; cbn; try reflexivity.
  induction specs as [|sp specs IH]; cbn; [reflexivity|].
  rewrite List.map_app, IH. now destruct sp.
Qed.

Lemma declNames_candidates (d : Decl) :
  supported d = true -> isNamedDecl d = true -> declNames d = candidates d.
Proof.
  destruct d as [[] [|[] [|]] | [] ? ? ? |]; cbn; try discriminate;
    intros _ _; rewrite ?app_nil_r; reflexivity.
Qed.

Lemma isNamedDecl_rename (sigma : string -> string) (d : Decl) :
  isNamedDecl (renameDecl sigma d) = isNamedDecl d.
Proof. now destruct d as [[] ? | [] ? ? ? |]. Qed.

(** What the rewrites make of a name: the name itself, or the replacement
    of one of them. *)
Lemma substAll_range (l : list (string * string)) (x : string) :
  substAll l x = x \/ exists k v, In (k, v) l /\ substAll l x = v.
Proof.
  revert x; induction l as [|[k v] l IH]; intros x; [now left|].
  change (substAll ((k, v) :: l) x) with (substAll l (Rewrite.subst1 k v x)).
  unfold Rewrite.subst1. destruct (String.eqb x k).
  - right. destruct (IH v) as [H|(k' & v' & Hin & H)].
    + exists k, v. split; [now left | exact H].
    + exists k', v'. split; [now right | exact H].
  - destruct (IH x) as [H|(k' & v' & Hin & H)]; [now left|].
    right. exists k', v'. split; [now right | exact H].
Qed.

(** A name that is a pattern of the loop leaves it as the replacement of
    one of the rewrites. *)
Lemma substAll_pattern (l : list (string * string)) (x v : string) :
  In (x, v) l -> exists k' v', In (k', v') l /\ substAll l x = v'.
Proof.
  revert x v; induction l as [|[k1 v1] l IH]; intros x v Hin; [destruct Hin|].
  change (substAll ((k1, v1) :: l) x) with (substAll l (Rewrite.subst1 k1 v1 x)).
  unfold Rewrite.subst1. destruct (String.eqb x k1) eqn:E.
  - destruct (substAll_range l v1) as [H|(k' & v' & Hin' & H)].
    + exists k1, v1. split; [now left | exact H].
    + exists k', v'. split; [now right | exact H].
  - apply String.eqb_neq in E. destruct Hin as [Heq|Hin]; [congruence|].
    destruct (IH x v Hin) as (k' & v' & Hin' & H).
    exists k', v'. split; [now right | exact H].
Qed.

Lemma zip_values (a b : list string) (kv : string * string) :
  In kv (zip a b) -> In kv.2 b.
Proof.
  revert b; induction a as [|x a IH]; intros [|y b]; cbn; try tauto.
  intros [<-|H]; [now left | right; now apply IH].
Qed.

(** An entry of the table of the formal parameters has one of the
    caller's arguments as its value. *)
Lemma mapArgs_value (templateArgs args : list string) (k v : string) :
  mapArgs templateArgs args !! k = Some v -> In v args.
Proof.
  unfold mapArgs. rewrite fold_insert_lookup.
  destruct (find _ (rev (zip templateArgs args))) as [kv|] eqn:E.
  - intros [= <-]. apply find_some in E as [Hin _]. apply in_rev in Hin.
    now apply (zip_values templateArgs args).
  - rewrite lookup_empty. discriminate.
Qed.

Lemma IsExported_ToLower1_ascii (Upper : N -> bool) (c : ascii) (rest : string) :
  (GoString.byte_of c < 128)%N ->
  ast.IsExported Upper (strings.ToLower1 c ++ rest)%string = false.
Proof.
  intros E. unfold strings.ToLower1. apply N.ltb_lt in E as E'. rewrite E'.
  cbn [String.append].
  destruct ((65 <=? GoString.byte_of c) && (GoString.byte_of c <=? 90))%N eqn:Eu.
  - apply andb_true_iff in Eu as [H1 H2]. apply N.leb_le in H1, H2.
    rewrite IsExported_ascii; rewrite byte_of_ascii_of_N; try lia.
    apply andb_false_iff. right. apply N.leb_gt. lia.
  - rewrite IsExported_ascii by assumption. exact Eu.
Qed.

(** The replacement of a name, for an instantiation that is not exported:
    it is not exported, or it starts with U+FFFD, which is what the
    lower-casing of the first byte makes of a capital letter outside
    ASCII. *)
Lemma replacementName_cases (Upper : N -> bool)
    (templateName tiName name r : string) :
  ast.IsExported Upper tiName = false ->
  replacementName Upper templateName tiName name = Some r ->
  ast.IsExported Upper r = false
  \/ exists rest, r = (utf8.EncodeRuneError ++ rest)%string.
Proof.
  intros Hti. unfold replacementName. fold (mangled templateName tiName name).
  rewrite Hti. cbn [negb andb].
  destruct (ast.IsExported Upper (mangled templateName tiName name)) eqn:E.
  - destruct (mangled templateName tiName name) as [|c rest]; [discriminate|].
    intros [= <-]. destruct (GoString.byte_of c <? 128)%N eqn:Ec.
    + left. apply IsExported_ToLower1_ascii. now apply N.ltb_lt.
    + right. exists rest. unfold strings.ToLower1. now rewrite Ec.
  - intros [= <-]. now left.
Qed.

Variable Upper : N -> bool.
Variable parser_ParseFile : string -> option File.
Variable format_Node : File -> option string.
Variable ioutil_WriteFile : string -> string -> WriteResult.
Variable range : gmap string string -> list (string * string).

(** A run that returns, by the file it read: the tree that is formatted
    and written has the declarations that are not stubs, each one
    rewritten. *)
Lemma parse_Ret_written (ti : templateInstantiation.t) (inputFile : string)
    (w w' : World) :
  parse Upper parser_ParseFile format_Node ioutil_WriteFile range ti inputFile w
  = (Ret tt, w') ->
  exists file templateName params source,
    let formal := parseArgs params in
    let names := flat_map candidates (Decls file) in
    let table := mapArgs formal (ti_Args ti) in
    let mappings := builtMappings Upper templateName (ti_Name ti) names table in
    let out :=
      mkFile (ti_NewPackage ti)
             (map (renameDecl (substAll (range mappings)))
                  (List.filter (fun d => negb (stub formal d)) (Decls file)))
             (Comments file) in
    parser_ParseFile inputFile = Some file
    /\ annotations (concat (Comments file)) = [(templateName, params)]
    /\ forallb supported (Decls file) = true
    /\ (forall k, renamed templateName names table k = true ->
                  exists r, replacementName Upper templateName (ti_Name ti) k
                            = Some r)
    /\ (forall k, mappings !! k
                  = if renamed templateName names table k
                    then replacementName Upper templateName (ti_Name ti) k
                    else table !! k)
    /\ format_Node out = Some source
    /\ heap w' = heap w ++ [out]
    /\ disk w' = <[outputFileName (ti_Name ti) := source]> (disk w).
Proof.
  intros Hrun.
  pose proof (parse_Ret _ _ _ _ _ _ _ _ _ Hrun)
    as (file & tn & targs & mappings & source & Hpf & Hscan & _ & Hsup & Hloop
        & Hfmt & _ & Hh & Hd).
  unfold scanComments in Hscan. rewrite foldM_concat, scan_annotations in Hscan.
  destruct (annotations (concat (Comments file))) as [|[n p] rest] eqn:Ea.
  - exfalso.
    rewrite (parse_no_annotation_exit Upper parser_ParseFile format_Node
               ioutil_WriteFile range ti inputFile w file Hpf Ea) in Hrun.
    discriminate Hrun.
  - cbn [fst] in Hscan. change (String.eqb "" "") with true in Hscan.
    cbn [andb] in Hscan.
    destruct (Nat.eqb (length rest) 0) eqn:El; [|discriminate Hscan].
    destruct rest; [|discriminate El].
    injection Hscan as <- <-.
    exists file, n, p, source. cbn zeta.
    assert (Hb : builtMappings Upper n (ti_Name ti)
                   (flat_map candidates (Decls file))
                   (mapArgs (parseArgs p) (ti_Args ti)) = mappings).
    { unfold builtMappings. now rewrite Hloop. }
    rewrite Hb.
    pose proof (mangle_loop_Ret _ _ _ _ _ _ _ _ _ _ (Hloop w))
      as (_ & _ & Hsome & Hm).
    unfold outputTree in Hfmt, Hh. rewrite rewrittenAll_rename in Hfmt, Hh.
    cbn [renameFile Decls Comments Name] in Hfmt, Hh.
    repeat split; assumption.
Qed.

End Written.

(** C2 as stated fails on the tree that is written. The set template has
    the formal parameter [A]; the request [A(int)] names the instantiation
    [A], so that the mapping has [A -> int] and [Set -> A]. Where [range]
    visits [A] before [Set], the stub [type A int] is removed and the run
    writes [type A map[int]bool]: a type declaration named after the formal
    parameter, in the output's declaration list. *)
Lemma C2_counterexample :
  ~ (forall Upper parser_ParseFile format_Node ioutil_WriteFile range ti
            inputFile w w' file templateName params pos out p d,
        (forall m, range m ≡ₚ map_to_list m) ->
        parser_ParseFile inputFile = Some file ->
        annotations (concat (Comments file)) = [(templateName, params)] ->
        parse Upper parser_ParseFile format_Node ioutil_WriteFile range ti
              inputFile w = (Ret tt, w') ->
        heap w' !! pos = Some out ->
        In p (parseArgs params) ->
        In d (Decls out) ->
        isTypeDeclOf p d = false).
Proof.
  intros H.
  assert (E : isTypeDeclOf "A"
                (GenDecl token.TYPE
                   [TypeSpec "A" (Tree "map" [Ident "int"; Ident "bool"])])
              = false).
  { eapply (H (fun _ => false) (fun _ => Some setTemplate) (fun _ => Some "")
              (fun _ _ => WriteOk) (fun m => rev (map_to_list m))
              (templateInstantiation.mk "set" "A" ["int"] "mypkg" ".")
              "set.go" emptyWorld _ setTemplate "Set" "A" 0 _ "A").
    - intros m. cbv beta. symmetry. apply Permutation_rev.
    - reflexivity.
    - reflexivity.
    - vm_compute. reflexivity.
    - reflexivity.
    - cbn. tauto.
    - vm_compute. tauto. }
  discriminate E.
Qed.

(** C2, as amended. In a run that returns, the file has one annotation, and
    the declaration list of the tree that is formatted and written is the
    template's list without the stubs, in the template's order, each
    declaration with its identifiers rewritten. The stubs are the type
    declarations and the functions without receiver that are named after a
    formal parameter. Where no rewrite of the loop has a formal parameter as
    its replacement, the written list has no type declaration and no
    function without receiver named after a formal parameter. *)
Theorem C2_stubs_are_not_written
    (Upper : N -> bool) (parser_ParseFile : string -> option File)
    (format_Node : File -> option string)
    (ioutil_WriteFile : string -> string -> WriteResult)
    (range : gmap string string -> list (string * string))
    (ti : templateInstantiation.t) (inputFile : string) (w w' : World)
    (Hrun : parse Upper parser_ParseFile format_Node ioutil_WriteFile range ti
                  inputFile w = (Ret tt, w')) :
  exists file templateName params out,
    let formal := parseArgs params in
    let mappings :=
      builtMappings Upper templateName (ti_Name ti)
                    (flat_map candidates (Decls file))
                    (mapArgs formal (ti_Args ti)) in
    parser_ParseFile inputFile = Some file
    /\ annotations (concat (Comments file)) = [(templateName, params)]
    /\ heap w' = (heap w ++ [out])%list
    /\ disk w' !! outputFileName (ti_Name ti) = format_Node out
    /\ Decls out
       = map (renameDecl (substAll (range mappings)))
             (List.filter (fun d => negb (stub formal d)) (Decls file))
    /\ (forall d, In d (Decls file) ->
          (stub formal d = true
           <-> exists p, In p formal
                         /\ (isTypeDeclOf p d = true \/ isPlainFuncOf p d = true)))
    /\ ((forall k v, In (k, v) (range mappings) -> ~ In v formal) ->
        forall p d, In p formal -> In d (Decls out) ->
                    isTypeDeclOf p d = false /\ isPlainFuncOf p d = false).
Proof.
  pose proof (parse_Ret_written Upper parser_ParseFile format_Node
                ioutil_WriteFile range ti inputFile w w' Hrun) as H.
  cbn zeta in H.
  destruct H as (file & tn & params & source & Hpf & Hone & Hsup & _ & _ & Hfmt
                 & Hh & Hd).
  eexists file, tn, params, _. cbn zeta.
  split; [exact Hpf|]. split; [exact Hone|]. split; [exact Hh|].
  split; [now rewrite Hd, lookup_insert_eq, Hfmt|].
  split; [reflexivity|].
  rewrite forallb_forall in Hsup.
  split.
  - intros d Hin. specialize (Hsup d Hin).
    destruct d as [[] [|[] [|]] | [] name ? ? |]; cbn in Hsup |- *;
      try discriminate Hsup;
      try (split; [discriminate | intros (p & _ & [E|E]); discriminate E]).
    + rewrite containsString_In. split.
      * intros Hn. exists Name0. split; [exact Hn|]. left.
        now rewrite String.eqb_refl.
      * intros (p & Hp & [E|E]); [|discriminate E].
        rewrite orb_false_r in E. apply String.eqb_eq in E. now subst p.
    + rewrite containsString_In. split.
      * intros Hn. exists name. split; [exact Hn|]. right.
        apply String.eqb_refl.
      * intros (p & Hp & [E|E]); [discriminate E|].
        apply String.eqb_eq in E. now subst p.
  - intros Hfresh p d Hp Hin. cbn [Decls] in Hin.
    apply in_map_iff in Hin as (d0 & <- & Hin).
    apply filter_In in Hin as [Hin Hk]. apply negb_true_iff in Hk.
    specialize (Hsup d0 Hin).
    assert (Hne : forall name,
               containsString name (parseArgs params) = false ->
               String.eqb
                 (substAll
                    (range (builtMappings Upper tn (ti_Name ti)
                              (flat_map candidates (Decls file))
                              (mapArgs (parseArgs params) (ti_Args ti))))
                    name) p = false).
    { intros name Hc. apply String.eqb_neq. intros Heq.
      destruct (substAll_range
                  (range (builtMappings Upper tn (ti_Name ti)
                            (flat_map candidates (Decls file))
                            (mapArgs (parseArgs params) (ti_Args ti))))
                  name) as [Hsame|(k & v & Hkv & Hv)].
      - rewrite Hsame in Heq. subst name.
        apply containsString_In in Hp. congruence.
      - apply (Hfresh k v Hkv). congruence. }
    destruct d0 as [[] [|[] [|]] | [] name ? ? |]; cbn in Hsup, Hk |- *;
      try discriminate Hsup; try (split; reflexivity).
    + rewrite orb_false_r. split; [now apply Hne | reflexivity].
    + split; [reflexivity | now apply Hne].
Qed.

Lemma C2_stubs_are_not_written_witness :
  exists out,
    heap (snd (parse (fun _ => false) (fun _ => Some setTemplate)
                     (fun f => Some (Name f)) (fun _ _ => WriteOk) map_to_list
                     (templateInstantiation.mk "set" "IntSet" ["int"] "mypkg" ".")
                     "set.go" emptyWorld))
    = [out]
    /\ length (Decls out) = 4
    /\ forall p d, In p ["A"] -> In d (Decls out) ->
                   isTypeDeclOf p d = false /\ isPlainFuncOf p d = false.
Proof.
  destruct (C2_stubs_are_not_written (fun _ => false)
              (fun _ => Some setTemplate) (fun f => Some (Name f))
              (fun _ _ => WriteOk) map_to_list
              (templateInstantiation.mk "set" "IntSet" ["int"] "mypkg" ".")
              "set.go" emptyWorld
              (snd (parse (fun _ => false) (fun _ => Some setTemplate)
                          (fun f => Some (Name f)) (fun _ _ => WriteOk)
                          map_to_list
                          (templateInstantiation.mk "set" "IntSet" ["int"]
                                                    "mypkg" ".")
                          "set.go" emptyWorld)))
    as (file & tn & params & out & Hpf & Hone & Hh & _ & Hdecls & _ & Hfree).
  - vm_compute. reflexivity.
  - injection Hpf as <-. vm_compute in Hone. injection Hone as <- <-.
    exists out. split; [exact Hh|]. split.
    + rewrite Hdecls. reflexivity.
    + apply Hfree. intros k v Hkv Hv. vm_compute in Hkv, Hv.
      destruct Hv as [<-|[]].
      destruct Hkv as [Hkv|[Hkv|[Hkv|[]]]]; discriminate Hkv.
Defined.

(** C4, as amended. For an instantiation whose name is not exported, take a
    run that returns, with [range] visiting every entry of the mapping
    once. Every name that a constant, variable or type declaration or a
    function without receiver declares in the tree that is formatted and
    written is not exported, or is one of the caller's arguments (which is
    what the rewrites make of a name that is, or becomes, a formal
    parameter), or starts with U+FFFD (which is what the lower-casing of the
    first byte makes of a replacement that starts with a capital letter
    outside ASCII). The names of methods are not covered: the program
    registers no method, and a method keeps its name unless a rewrite of
    another name applies to it. *)
Theorem C4_written_names_not_exported
    (Upper : N -> bool) (parser_ParseFile : string -> option File)
    (format_Node : File -> option string)
    (ioutil_WriteFile : string -> string -> WriteResult)
    (range : gmap string string -> list (string * string))
    (ti : templateInstantiation.t) (inputFile : string) (w w' : World)
    (Hti : ast.IsExported Upper (ti_Name ti) = false)
    (Hrange : forall m, range m ≡ₚ map_to_list m)
    (Hrun : parse Upper parser_ParseFile format_Node ioutil_WriteFile range ti
                  inputFile w = (Ret tt, w')) :
  exists out,
    heap w' = (heap w ++ [out])%list
    /\ disk w' !! outputFileName (ti_Name ti) = format_Node out
    /\ forall d name,
        In d (Decls out) -> isNamedDecl d = true -> In name (declNames d) ->
        ast.IsExported Upper name = false
        \/ In name (ti_Args ti)
        \/ exists rest, name = utf8.EncodeRuneError ++ rest.
Proof.
  pose proof (parse_Ret_written Upper parser_ParseFile format_Node
                ioutil_WriteFile range ti inputFile w w' Hrun) as H.
  cbn zeta in H.
  destruct H as (file & tn & params & source & Hpf & Hone & Hsup & Hsome & Hm
                 & Hfmt & Hh & Hd).
  eexists. split; [exact Hh|].
  split; [now rewrite Hd, lookup_insert_eq, Hfmt|].
  set (names := flat_map candidates (Decls file)) in *.
  set (table := mapArgs (parseArgs params) (ti_Args ti)) in *.
  set (mappings := builtMappings Upper tn (ti_Name ti) names table) in *.
  assert (Hin : forall k v, In (k, v) (range mappings) <-> mappings !! k = Some v).
  { intros k v. rewrite <- list_elem_of_In, (Hrange mappings).
    apply elem_of_map_to_list. }
  assert (Hvalue : forall k v,
             mappings !! k = Some v ->
             ast.IsExported Upper v = false
             \/ In v (ti_Args ti)
             \/ exists rest, v = utf8.EncodeRuneError ++ rest).
  { intros k v Hk. rewrite Hm in Hk.
    destruct (renamed tn names table k).
    - destruct (replacementName_cases Upper tn (ti_Name ti) k v Hti Hk)
        as [Hx|Hx]; [now left | now right; right].
    - right; left. now apply (mapArgs_value (parseArgs params) (ti_Args ti) k). }
  assert (Hkey : forall n, In n names -> exists v, mappings !! n = Some v).
  { intros n Hn. rewrite Hm. destruct (renamed tn names table n) eqn:Er.
    - now apply Hsome.
    - unfold renamed in Er. apply mentions_In in Hn. rewrite Hn in Er.
      cbn [andb] in Er. apply orb_false_iff in Er as [_ Er].
      apply bool_decide_eq_false in Er.
      destruct (table !! n) as [v|]; [eauto | congruence]. }
  intros d name Hd' Hnamed Hname. cbn [Decls] in Hd'.
  apply in_map_iff in Hd' as (d0 & <- & Hd0).
  apply filter_In in Hd0 as [Hd0 _].
  rewrite forallb_forall in Hsup. specialize (Hsup d0 Hd0).
  rewrite isNamedDecl_rename in Hnamed.
  rewrite declNames_rename, (declNames_candidates d0 Hsup Hnamed) in Hname.
  apply in_map_iff in Hname as (n & <- & Hn).
  assert (Hn' : In n names).
  { unfold names. apply in_flat_map. now exists d0. }
  destruct (Hkey n Hn') as [v Hv]. apply Hin in Hv.
  destruct (substAll_pattern (range mappings) n v Hv) as (k' & v' & Hkv & ->).
  apply Hin in Hkv. now apply (Hvalue k' v').
Qed.

Lemma C4_written_names_not_exported_witness :
  exists out,
    heap (snd (parse (fun _ => false) (fun _ => Some setTemplate)
                     (fun f => Some (Name f)) (fun _ _ => WriteOk) map_to_list
                     (templateInstantiation.mk "set" "intSet" ["int"] "mypkg" ".")
                     "set.go" emptyWorld))
    = ([] ++ [out])%list
    /\ disk (snd (parse (fun _ => false) (fun _ => Some setTemplate)
                        (fun f => Some (Name f)) (fun _ _ => WriteOk) map_to_list
                        (templateInstantiation.mk "set" "intSet" ["int"] "mypkg" ".")
                        "set.go" emptyWorld))
       !! outputFileName "intSet"
       = Some (Name out)
    /\ forall d name,
        In d (Decls out) -> isNamedDecl d = true -> In name (declNames d) ->
        ast.IsExported (fun _ => false) name = false
        \/ In name ["int"]
        \/ exists rest, name = utf8.EncodeRuneError ++ rest.
Proof.
  apply (C4_written_names_not_exported (fun _ => false)
           (fun _ => Some setTemplate) (fun f => Some (Name f))
           (fun _ _ => WriteOk) map_to_list
           (templateInstantiation.mk "set" "intSet" ["int"] "mypkg" ".")
           "set.go" emptyWorld).
  - reflexivity.
  - intros m. reflexivity.
  - vm_compute. reflexivity.
Defined.
